(** * bench-allocator: a shallow embedding of [memory/tools/bench-allocator.c]

    The benchmark is a single C translation unit: a xorshift64 generator kept
    in a global, three allocation phases driven by it, and a driver that
    derives the phase sizes from the command line and prints a report.

    Conventions of the embedding (LP64, as on the Linux targets the program
    reads [/proc/self/status] on):
    - [unsigned long long] and [size_t] are 64-bit: values are [Z] in
      [0, 2^64) and every operation that can leave the range is wrapped
      explicitly with [wrap64];
    - [int] is 32-bit, [long] 64-bit, both two's complement;
    - the C heap is a finite map from addresses to blocks; [malloc] asks an
      arbitrary allocator (the program is allocator-agnostic: the allocator
      is swapped with LD_PRELOAD) which may refuse any request;
    - undefined behaviour (a store through a null pointer, a division by
      zero, freeing what is not live) is a [Crash] of the abstract machine;
    - [clock_gettime], [timespec_diff_ms] and the throughput figures they
      feed are real time and are left out, as is the layout of the printed
      report: the report is the record of the values printed;
    - a [double] is IEEE 754 binary64, with the Standard Library's
      [SpecFloat] as its arithmetic (round to nearest, ties to even). *)

From Stdlib Require Import ZArith List Lia Ascii String QArith.
From Stdlib Require SpecFloat.
From stdpp Require Import base option list gmap.

Local Open Scope Z_scope.

(* ===================================================================== *)
(** * Part I: the model                                                   *)
(* ===================================================================== *)

(** ** Machine integers *)

Definition wrap64 (z : Z) : Z := z mod 2 ^ 64.

Definition in_u64 (z : Z) : Prop := 0 <= z < 2 ^ 64.

(** ** Memory *)

Definition addr := positive.

Inductive ptr :=
| NULL
| Addr (a : addr).

(** A block is untyped when [malloc] returns it and takes the shape of the
    first store: bytes for [memset], pointer slots for a [void **] store.
    [None] cells are indeterminate. *)
Inductive block :=
| Raw (size : Z)
| Bytes (bs : list (option Z))
| Slots (ps : list (option ptr)).

(** [sizeof(void * )] *)
Definition PTR_SIZE : Z := 8.

Definition block_size (b : block) : Z :=
  match b with
  | Raw size => size
  | Bytes bs => Z.of_nat (length bs)
  | Slots ps => PTR_SIZE * Z.of_nat (length ps)
  end.

Inductive fault :=
| DivByZero
| NullDeref
| InvalidFree
| OutOfBounds
| Indeterminate
| BadAccess.

(** The machine: the global [rng_state], the heap, and two ghost counters
    (the number of [malloc] calls made, which the allocator may consult, and
    the high-water mark of simultaneously live blocks). *)
Record machine := Machine {
  rng_state : Z;
  heap : gmap addr block;
  mallocs : nat;
  peak : nat
}.

Definition set_rng (x : Z) (m : machine) : machine :=
  Machine x (heap m) (mallocs m) (peak m).

Definition set_heap (h : gmap addr block) (m : machine) : machine :=
  Machine (rng_state m) h (mallocs m) (peak m).

(** ** The computation monad: state plus crash *)

Inductive outcome (A : Type) :=
| Ok (a : A) (m : machine)
| Crash (f : fault).
Arguments Ok {A} a m.
Arguments Crash {A} f.

Definition M (A : Type) : Type := machine -> outcome A.

Definition ret {A} (a : A) : M A := fun m => Ok a m.

Definition bind {A B} (c : M A) (k : A -> M B) : M B :=
  fun m => match c m with
           | Ok a m' => k a m'
           | Crash f => Crash f
           end.

Definition crash {A} (f : fault) : M A := fun _ => Crash f.

Notation "x <- c ;; k" := (bind c (fun x => k))
  (at level 100, c at next level, right associativity).
Notation "c ;; k" := (bind c (fun _ => k))
  (at level 100, right associativity).

(** [for (i = i0; ...; i += step)] run for [n] iterations, the loop-carried
    locals threaded as [s]. *)
Fixpoint iterate {S : Type} (n : nat) (i step : Z) (body : Z -> S -> M S) (s : S)
  : M S :=
  match n with
  | O => ret s
  | Datatypes.S n' => s' <- body i s ;; iterate n' (i + step) step body s'
  end.

(** Number of iterations of [for (i = i0; i < bound; i += step)], [step > 0]. *)
Definition trip_count (i0 bound step : Z) : nat :=
  Z.to_nat ((bound - i0 + step - 1) / step).

Definition for_lt {S : Type} (i0 bound step : Z) (body : Z -> S -> M S) (s : S)
  : M S :=
  iterate (trip_count i0 bound step) i0 step body s.

(** ** The generator (lines 22-37) *)

(** [static unsigned long long rng_state = 0xdeadbeefcafe1234ULL;] *)
Definition rng_seed : Z := 0xdeadbeefcafe1234.

(** The three assignments of [xorshift64] on the local [x]. *)
Definition xorshift64_mix (x : Z) : Z :=
  let x := Z.lxor x (wrap64 (Z.shiftl x 13)) in
  let x := Z.lxor x (Z.shiftr x 7) in
  let x := Z.lxor x (wrap64 (Z.shiftl x 17)) in
  x.

Definition xorshift64 : M Z :=
  fun m =>
    let x := rng_state m in
    let x := xorshift64_mix x in
    Ok x (set_rng x m).

(** [lo + (xorshift64() % (hi - lo))] in [size_t] arithmetic. *)
Definition rand_range (lo hi : Z) : M Z :=
  x <- xorshift64 ;;
  let d := wrap64 (hi - lo) in
  if d =? 0 then crash DivByZero
  else ret (wrap64 (lo + x mod d)).

(** [n] successive calls of [xorshift64], their results in order. *)
Fixpoint draws (n : nat) : M (list Z) :=
  match n with
  | O => ret []
  | Datatypes.S n' => x <- xorshift64 ;; xs <- draws n' ;; ret (x :: xs)
  end.

(** The transformation as the specification words it: left-shift-13,
    right-shift-7, left-shift-17, each XORed cumulatively into a 64-bit
    register. *)
Definition spec_shl_xor (k x : Z) : Z := Z.lxor x ((x * 2 ^ k) mod 2 ^ 64).
Definition spec_shr_xor (k x : Z) : Z := Z.lxor x (x / 2 ^ k).
Definition spec_next (s : Z) : Z :=
  spec_shl_xor 17 (spec_shr_xor 7 (spec_shl_xor 13 s)).

(** One [x ^= x << k] and one [x ^= x >> k] on a 64-bit register: the
    building blocks [xorshift64_mix] unfolds to. *)
Definition shl_xor (k x : Z) : Z := Z.lxor x (wrap64 (Z.shiftl x k)).
Definition shr_xor (k x : Z) : Z := Z.lxor x (Z.shiftr x k).

(** ** The allocator interface

    [malloc] is whatever the dynamic linker resolves it to.  Of the
    allocator only this is assumed: given the number of requests served so
    far, the live heap and the requested size, it either refuses ([None])
    or hands out an address that is not live. *)
Class Allocator := {
  pick : nat -> gmap addr block -> Z -> option addr;
  pick_fresh : forall n h sz a, pick n h sz = Some a -> h !! a = None
}.

Section Program.
Context `{!Allocator}.

(** ** libc: [malloc], [free], [memset] *)

Definition malloc (sz : Z) : M ptr :=
  fun m =>
    match pick (mallocs m) (heap m) sz with
    | None =>
        Ok NULL (Machine (rng_state m) (heap m) (S (mallocs m)) (peak m))
    | Some a =>
        let h := <[a := Raw sz]> (heap m) in
        Ok (Addr a)
           (Machine (rng_state m) h (S (mallocs m)) (Nat.max (peak m) (size h)))
    end.

Definition free (p : ptr) : M unit :=
  fun m =>
    match p with
    | NULL => Ok tt m
    | Addr a =>
        match heap m !! a with
        | Some _ => Ok tt (set_heap (delete a (heap m)) m)
        | None => Crash InvalidFree
        end
    end.

Definition as_bytes (b : block) : option (list (option Z)) :=
  match b with
  | Raw sz => Some (replicate (Z.to_nat sz) None)
  | Bytes bs => Some bs
  | Slots _ => None
  end.

Definition as_slots (b : block) : option (list (option ptr)) :=
  match b with
  | Raw sz => Some (replicate (Z.to_nat (sz / PTR_SIZE)) None)
  | Slots ps => Some ps
  | Bytes _ => None
  end.

(** [memset(p, c, n)]: [c] is converted to [unsigned char]. *)
Definition memset (p : ptr) (c n : Z) : M unit :=
  fun m =>
    match p with
    | NULL => Crash NullDeref
    | Addr a =>
        match heap m !! a with
        | None => Crash BadAccess
        | Some b =>
            match as_bytes b with
            | None => Crash BadAccess
            | Some bs =>
                if Z.of_nat (length bs) <? n then Crash OutOfBounds
                else
                  let k := Z.to_nat n in
                  let bs' := replicate k (Some (c mod 256)) ++ drop k bs in
                  Ok tt (set_heap (<[a := Bytes bs']> (heap m)) m)
            end
        end
    end.

(** [base[i] = v] and [base[i]] for [void **base]. *)
Definition store_ptr (base : ptr) (i : Z) (v : ptr) : M unit :=
  fun m =>
    match base with
    | NULL => Crash NullDeref
    | Addr a =>
        match heap m !! a with
        | None => Crash BadAccess
        | Some b =>
            match as_slots b with
            | None => Crash BadAccess
            | Some ps =>
                if (i <? 0) || (Z.of_nat (length ps) <=? i) then Crash OutOfBounds
                else
                  let ps' := <[Z.to_nat i := Some v]> ps in
                  Ok tt (set_heap (<[a := Slots ps']> (heap m)) m)
            end
        end
    end.

Definition load_ptr (base : ptr) (i : Z) : M ptr :=
  fun m =>
    match base with
    | NULL => Crash NullDeref
    | Addr a =>
        match heap m !! a with
        | None => Crash BadAccess
        | Some b =>
            match as_slots b with
            | None => Crash BadAccess
            | Some ps =>
                if i <? 0 then Crash OutOfBounds
                else
                  match ps !! Z.to_nat i with
                  | None => Crash OutOfBounds
                  | Some None => Crash Indeterminate
                  | Some (Some v) => Ok v m
                  end
            end
        end
    end.

(** ** Phase 1: churn (lines 62-85) *)

Definition POOL : Z := 2048.

(** [pool[idx]] and [pool[idx] = v] on the local array. *)
Definition pool_get (pool : list ptr) (idx : Z) : M ptr :=
  if idx <? 0 then crash OutOfBounds
  else match pool !! Z.to_nat idx with
       | Some p => ret p
       | None => crash OutOfBounds
       end.

Definition pool_set (pool : list ptr) (idx : Z) (v : ptr) : M (list ptr) :=
  if (idx <? 0) || (Z.of_nat (length pool) <=? idx) then crash OutOfBounds
  else ret (<[Z.to_nat idx := v]> pool).

(** Lines 71-74: [if (pool[idx]) { free(pool[idx]); pool[idx] = NULL; }] *)
Definition churn_release (idx : Z) (pool : list ptr) : M (list ptr) :=
  p <- pool_get pool idx ;;
  match p with
  | NULL => ret pool
  | Addr _ =>
      q <- pool_get pool idx ;;
      free q ;;
      pool_set pool idx NULL
  end.

(** Lines 76-79: draw a size, allocate into the slot, touch the pages. *)
Definition churn_refill (i idx : Z) (pool : list ptr) : M (list ptr) :=
  sz <- rand_range 64 4096 ;;
  p <- malloc sz ;;
  pool <- pool_set pool idx p ;;
  q <- pool_get pool idx ;;
  match q with
  | NULL => ret pool
  | Addr _ =>
      r <- pool_get pool idx ;;
      memset r (Z.land i 0xff) sz ;;
      ret pool
  end.

Definition churn_body (i : Z) (pool : list ptr) : M (list ptr) :=
  x <- xorshift64 ;;
  let idx := x mod POOL in
  pool <- churn_release idx pool ;;
  churn_refill i idx pool.

(** Lines 83-84: [free(pool[i])], the slot itself left as it is. *)
Definition churn_cleanup_body (i : Z) (pool : list ptr) : M (list ptr) :=
  p <- pool_get pool i ;;
  free p ;;
  ret pool.

Definition churn_loop (rounds : Z) (pool : list ptr) : M (list ptr) :=
  for_lt 0 rounds 1 churn_body pool.

Definition phase_churn (rounds : Z) : M unit :=
  let pool := replicate (Z.to_nat POOL) NULL in
  pool <- churn_loop rounds pool ;;
  for_lt 0 POOL 1 churn_cleanup_body pool ;;
  ret tt.

(** ** Phase 2: accumulate (lines 92-102) *)

Definition accumulate_body (out_ptrs : ptr) (i : Z) (_ : unit) : M unit :=
  sz <- rand_range 4096 65536 ;;
  p <- malloc sz ;;
  store_ptr out_ptrs i p ;;
  q <- load_ptr out_ptrs i ;;
  match q with
  | NULL => ret tt
  | Addr _ =>
      r <- load_ptr out_ptrs i ;;
      memset r 0xAB sz
  end.

(** The two out-parameters are returned as a pair. *)
Definition phase_accumulate (count : Z) : M (ptr * Z) :=
  out_ptrs <- malloc (wrap64 (PTR_SIZE * wrap64 count)) ;;
  let out_count := count in
  for_lt 0 count 1 (accumulate_body out_ptrs) tt ;;
  ret (out_ptrs, out_count).

(** ** Phase 3: fragment (lines 109-123) *)

Definition fragment_free_body (ptrs : ptr) (i : Z) (_ : unit) : M unit :=
  p <- load_ptr ptrs i ;;
  free p ;;
  store_ptr ptrs i NULL.

Definition fragment_alloc_body (ptrs : ptr) (i : Z) (_ : unit) : M unit :=
  sz <- rand_range 128 8192 ;;
  p <- malloc sz ;;
  store_ptr ptrs i p ;;
  q <- load_ptr ptrs i ;;
  match q with
  | NULL => ret tt
  | Addr _ =>
      r <- load_ptr ptrs i ;;
      memset r 0xCD sz
  end.

Definition phase_fragment (ptrs : ptr) (count : Z) : M unit :=
  for_lt 1 count 2 (fragment_free_body ptrs) tt ;;
  for_lt 1 count 2 (fragment_alloc_body ptrs) tt.

(** ** libc: [atoi] and the [%ld] conversion

    Both are [strtol] in base 10: leading white space, an optional sign,
    then the longest run of digits; no digits at all converts to [0].  Out
    of range, glibc's [strtol] saturates at [LONG_MIN]/[LONG_MAX], and
    [atoi] truncates the [long] to [int]. *)

Definition is_space (c : ascii) : bool :=
  let n := nat_of_ascii c in
  Nat.eqb n 32 || (Nat.leb 9 n && Nat.leb n 13).

Definition digit_of (c : ascii) : option Z :=
  let n := Z.of_nat (nat_of_ascii c) in
  if (48 <=? n) && (n <=? 57) then Some (n - 48) else None.

Fixpoint skip_spaces (s : string) : string :=
  match s with
  | String c r => if is_space c then skip_spaces r else s
  | EmptyString => s
  end.

Fixpoint digits_value (acc : Z) (s : string) : Z :=
  match s with
  | String c r =>
      match digit_of c with
      | Some d => digits_value (10 * acc + d) r
      | None => acc
      end
  | EmptyString => acc
  end.

Definition LONG_MAX : Z := 2 ^ 63 - 1.
Definition LONG_MIN : Z := - 2 ^ 63.

(** The optional sign: whether it is a minus, and what follows it. *)
Definition split_sign (s : string) : bool * string :=
  match s with
  | String c r =>
      if Ascii.eqb c "-" then (true, r)
      else if Ascii.eqb c "+" then (false, r)
      else (false, s)
  | EmptyString => (false, s)
  end.

Definition strtol (s : string) : Z :=
  let s := skip_spaces s in
  let neg := fst (split_sign s) in
  let s := snd (split_sign s) in
  let v := digits_value 0 s in
  let v := if neg then - v else v in
  Z.max LONG_MIN (Z.min LONG_MAX v).

(** Conversion to [int]: reduction modulo [2^32] into [-2^31, 2^31). *)
Definition to_int (z : Z) : Z := (z + 2 ^ 31) mod 2 ^ 32 - 2 ^ 31.

Definition atoi (s : string) : Z := to_int (strtol s).

(** An argument is numeric when, after white space and an optional sign,
    it starts with a digit. *)
Definition numeric (s : string) : bool :=
  match snd (split_sign (skip_spaces s)) with
  | String c _ => match digit_of c with Some _ => true | None => false end
  | EmptyString => false
  end.

(** ** The memory probe (lines 43-56)

    The platform decides what [/proc/self/status] holds at each instant:
    [None] when [fopen] fails, otherwise the lines as [fgets] returns
    them. *)
Class Platform := {
  proc_self_status : machine -> option (list string)
}.

Fixpoint string_drop (n : nat) (s : string) : string :=
  match n, s with
  | O, _ => s
  | S n', String _ r => string_drop n' r
  | S _, EmptyString => EmptyString
  end.

(** The [while (fgets ...)] loop: the first line starting with ["VmRSS:"]
    is converted and ends the scan; [rss] stays [0] otherwise. *)
Fixpoint scan_status (lines : list string) : Z :=
  match lines with
  | [] => 0
  | line :: rest =>
      if String.prefix "VmRSS:" line then strtol (string_drop 6 line)
      else scan_status rest
  end.

Definition read_rss_kb `{!Platform} : M Z :=
  fun m =>
    match proc_self_status m with
    | None => Ok 0 m
    | Some lines => Ok (scan_status lines) m
    end.

(** ** The driver (lines 131-214)

    Wall-clock timing is outside the model, and with it the throughput
    lines of the report.  The operation count of line 197 is a sum of
    integers far below [2^53], which binary64 represents exactly: it is
    kept as the rational it is.  The ratio of line 206 is a binary64
    division and is computed as one. *)

(** binary64: 53 bits of precision, exponents below 1024. *)
Definition double : Type := SpecFloat.spec_float.

(** [(double)z] for a [long] [z]. *)
Definition double_of_long (z : Z) : double :=
  SpecFloat.binary_normalize 53 1024 z 0 false.

(** [x / y] on [double]s. *)
Definition double_div (x y : double) : double := SpecFloat.SFdiv 53 1024 x y.

Record report := Report {
  churn_rounds : Z;
  accumulation_count : Z;
  rss_start : Z;
  rss_after_churn : Z;
  rss_after_accum : Z;
  rss_after_frag : Z;
  rss_final : Z;
  total_alloc_ops : Q;
  rss_ratio : option double
}.

(** Lines 132-136. *)
Definition main_rounds (argv : list string) : Z :=
  let argc := Z.of_nat (length argv) in
  let rounds := 500000 in
  let rounds :=
    if 1 <? argc then
      match argv !! 1%nat with Some a => atoi a | None => rounds end
    else rounds in
  let rounds := if rounds <? 1000 then 1000 else rounds in
  rounds.

(** Lines 138-140. *)
Definition main_accum_count (rounds : Z) : Z :=
  let accum_count := Z.quot rounds 50 in
  let accum_count := if accum_count <? 100 then 100 else accum_count in
  accum_count.

(** Line 197. *)
Definition main_ops (rounds accum_count : Z) : Q :=
  (inject_Z rounds + inject_Z accum_count * 3)%Q.

(** Lines 205-211: the ratio, or nothing when the guard fails. *)
Definition main_frag (rss_after_accum rss_after_frag : Z) : option double :=
  if (0 <? rss_after_accum) && (0 <? rss_after_frag) then
    Some (double_div (double_of_long rss_after_frag)
                     (double_of_long rss_after_accum))
  else None.

(** Lines 171-172. *)
Definition main_cleanup_body (accum_ptrs : ptr) (i : Z) (_ : unit) : M unit :=
  p <- load_ptr accum_ptrs i ;;
  free p.

Definition main `{!Platform} (argv : list string) : M (Z * report) :=
  let rounds := main_rounds argv in
  let accum_count := main_accum_count rounds in
  rss_start <- read_rss_kb ;;
  phase_churn rounds ;;
  rss_after_churn <- read_rss_kb ;;
  acc <- phase_accumulate accum_count ;;
  let accum_ptrs := fst acc in
  let accum_actual := snd acc in
  rss_after_accum <- read_rss_kb ;;
  phase_fragment accum_ptrs accum_actual ;;
  rss_after_frag <- read_rss_kb ;;
  for_lt 0 accum_actual 1 (main_cleanup_body accum_ptrs) tt ;;
  free accum_ptrs ;;
  rss_final <- read_rss_kb ;;
  let ops := main_ops rounds accum_count in
  let frag := main_frag rss_after_accum rss_after_frag in
  ret (0, Report rounds accum_count rss_start rss_after_churn rss_after_accum
                 rss_after_frag rss_final ops frag).

End Program.

(** ** Concrete allocators and platforms, for running the model *)

(** Never any memory. *)
#[program] Definition no_memory : Allocator := {| pick := fun _ _ _ => None |}.
Next Obligation. discriminate. Qed.

(** An allocator that refuses the requests whose number [refuse] selects
    and otherwise hands out stdpp's [fresh] address, one that is not live. *)
Definition bump (refuse : nat -> bool) (n : nat) (h : gmap addr block) (sz : Z)
  : option addr :=
  if refuse n then None else Some (fresh (dom h)).

#[program] Definition bump_allocator (refuse : nat -> bool) : Allocator :=
  {| pick := bump refuse |}.
Next Obligation.
  intros refuse n h sz a. unfold bump. destruct (refuse n); [discriminate|].
  intros [= <-]. apply not_elem_of_dom, is_fresh.
Qed.

(** An allocator that cannot serve requests of exactly [sz0] bytes and
    serves every other one. *)
Definition unless_size (sz0 : Z) (n : nat) (h : gmap addr block) (sz : Z)
  : option addr :=
  if sz =? sz0 then None else Some (fresh (dom h)).

#[program] Definition refuses_size (sz0 : Z) : Allocator :=
  {| pick := unless_size sz0 |}.
Next Obligation.
  intros sz0 n h sz a. unfold unless_size. destruct (sz =? sz0); [discriminate|].
  intros [= <-]. apply not_elem_of_dom, is_fresh.
Qed.

(** An allocator that serves the requests of exactly [sz0] bytes and
    refuses every other one. *)
Definition only_size (sz0 : Z) (n : nat) (h : gmap addr block) (sz : Z)
  : option addr :=
  if sz =? sz0 then Some (fresh (dom h)) else None.

#[program] Definition grants_size (sz0 : Z) : Allocator :=
  {| pick := only_size sz0 |}.
Next Obligation.
  intros sz0 n h sz a. unfold only_size. destruct (sz =? sz0); [|discriminate].
  intros [= <-]. apply not_elem_of_dom, is_fresh.
Qed.

(** A platform without [/proc], and one reporting a constant footprint. *)
Definition no_proc : Platform := {| proc_self_status := fun _ => None |}.

Definition const_proc (lines : list string) : Platform :=
  {| proc_self_status := fun _ => Some lines |}.


(** An allocator that grants every request. *)
Definition generous : Allocator := bump_allocator (fun _ => false).

Definition machine0 : machine := Machine rng_seed ∅ 0 0.

(** ** Specification vocabulary

    What the properties of Part II are stated with: total-correctness
    triples for the monad, and the invariants the loops of the three phases
    and of the driver maintain. *)

(** From every machine satisfying [P], [c] returns, and its result and final
    machine satisfy [Q]. *)
Definition total {A} (P : machine -> Prop) (c : M A)
  (Q : A -> machine -> Prop) : Prop :=
  forall m, P m -> exists a m', c m = Ok a m' /\ Q a m'.

(** The handle table at [t] reads as the slots [ps]. *)
Definition table_at (t : addr) (ps : list (option ptr)) (m : machine) : Prop :=
  exists b, heap m !! t = Some b /\ as_slots b = Some ps.

(** Number of occupied slots of the pool. *)
Fixpoint live_slots (pool : list ptr) : nat :=
  match pool with
  | [] => 0
  | NULL :: rest => live_slots rest
  | Addr _ :: rest => S (live_slots rest)
  end.

(** Between iterations: the heap is the heap [h0] the phase started from
    plus one block per occupied slot, no two slots sharing a block. *)
Record churn_inv (h0 : gmap addr block) (pk0 : nat)
  (pool : list ptr) (m : machine) : Prop := {
  ci_len : length pool = Z.to_nat POOL;
  ci_owned : forall i a,
      pool !! i = Some (Addr a) -> h0 !! a = None /\ is_Some (heap m !! a);
  ci_other : forall a,
      h0 !! a = None -> (forall i, pool !! i <> Some (Addr a)) ->
      heap m !! a = None;
  ci_frame : forall a b, h0 !! a = Some b -> heap m !! a = Some b;
  ci_distinct : forall i j a,
      pool !! i = Some (Addr a) -> pool !! j = Some (Addr a) -> i = j;
  ci_size : size (heap m) = (size h0 + live_slots pool)%nat;
  ci_peak : (peak m <= Nat.max pk0 (size h0 + Z.to_nat POOL))%nat
}.

(** The cleanup loop of lines 83-84, after [k] slots have been visited. *)
Record cleanup_inv (h0 : gmap addr block) (pool : list ptr)
  (k : nat) (m : machine) : Prop := {
  cl_freed : forall j a,
      pool !! j = Some (Addr a) -> (j < k)%nat -> heap m !! a = None;
  cl_live : forall j a,
      pool !! j = Some (Addr a) -> (k <= j)%nat -> is_Some (heap m !! a);
  cl_other : forall a,
      h0 !! a = None -> (forall j, pool !! j <> Some (Addr a)) ->
      heap m !! a = None;
  cl_frame : forall a b, h0 !! a = Some b -> heap m !! a = Some b
}.

(** The loop bodies of [phase_accumulate] and of the second loop of
    [phase_fragment] are the same code up to three constants. *)
Definition fill_slot `{!Allocator} (lo hi c : Z) (ptrs : ptr) (i : Z) (_ : unit)
  : M unit :=
  sz <- rand_range lo hi ;;
  p <- malloc sz ;;
  store_ptr ptrs i p ;;
  q <- load_ptr ptrs i ;;
  match q with
  | NULL => ret tt
  | Addr _ =>
      r <- load_ptr ptrs i ;;
      memset r c sz
  end.

(** One pass of [fill_slot] from machine [m]: the size it draws, the
    machine on which its [malloc] request is made, the allocator's answer
    there, and the handle that answer stands for. *)
Definition slot_size (lo hi : Z) (m : machine) : Z :=
  lo + xorshift64_mix (rng_state m) mod (hi - lo).

Definition slot_request (m : machine) : machine :=
  set_rng (xorshift64_mix (rng_state m)) m.

Definition slot_pick `{!Allocator} (lo hi : Z) (m : machine) : option addr :=
  pick (mallocs (slot_request m)) (heap (slot_request m)) (slot_size lo hi m).

Definition ptr_of (o : option addr) : ptr :=
  match o with Some a => Addr a | None => NULL end.

(** After [k] passes of a [fill_slot] loop started on [m1]: pass [j] ran on
    the machine the first [j] passes lead to and wrote into its slot the
    allocator's answer to its request; a buffer granted then is now filled,
    and of the size that pass drew. *)
Definition slot_trace `{!Allocator} (lo hi c : Z) (t : addr) (i0 step : Z)
  (m1 : machine) (k : nat) (ps : list (option ptr)) (m : machine) : Prop :=
  iterate k i0 step (fill_slot lo hi c (Addr t)) tt m1 = Ok tt m
  /\ forall j, (j < k)%nat ->
       exists mj,
         iterate j i0 step (fill_slot lo hi c (Addr t)) tt m1 = Ok tt mj
         /\ ps !! Z.to_nat (i0 + Z.of_nat j * step)
            = Some (Some (ptr_of (slot_pick lo hi mj)))
         /\ forall a, slot_pick lo hi mj = Some a ->
              heap m !! a
              = Some (Bytes (replicate (Z.to_nat (slot_size lo hi mj))
                                       (Some (c mod 256)))).

(** A buffer of [sz] bytes in [lo, hi), every byte equal to [c]. *)
Definition filled (lo hi c : Z) (b : block) : Prop :=
  exists sz, lo <= sz < hi /\ b = Bytes (replicate (Z.to_nat sz) (Some c)).

(** The table at [t] holds [ps]; its non-null entries are distinct live
    blocks that are neither the table nor part of the heap [h0] the phases
    started from, and nothing else has been added to [h0]. *)
Record tab_inv (h0 : gmap addr block) (t : addr)
  (ps : list (option ptr)) (m : machine) : Prop := {
  ti_tab : table_at t ps m;
  ti_t_fresh : h0 !! t = None;
  ti_live : forall j a,
      ps !! j = Some (Some (Addr a)) ->
      a <> t /\ h0 !! a = None /\ is_Some (heap m !! a);
  ti_distinct : forall i j a,
      ps !! i = Some (Some (Addr a)) -> ps !! j = Some (Some (Addr a)) -> i = j;
  ti_frame : forall a b, h0 !! a = Some b -> heap m !! a = Some b;
  ti_other : forall a,
      a <> t -> h0 !! a = None ->
      (forall j, ps !! j <> Some (Some (Addr a))) -> heap m !! a = None
}.

(** After [k] iterations of the loop of [phase_accumulate]: the first [k]
    slots are written, the others still indeterminate, and every handle
    stored so far is a sentinel-filled buffer of the drawn size. *)
Record accum_inv (h0 : gmap addr block) (t : addr) (n k : nat)
  (ps : list (option ptr)) (m : machine) : Prop := {
  ai_tab : tab_inv h0 t ps m;
  ai_len : length ps = n;
  ai_init : forall j, (j < k)%nat -> (j < n)%nat ->
                      exists p, ps !! j = Some (Some p);
  ai_rest : forall j, (k <= j)%nat -> (j < n)%nat -> ps !! j = Some None;
  ai_fill : forall j a,
      ps !! j = Some (Some (Addr a)) ->
      exists b, heap m !! a = Some b /\ filled 4096 65536 0xAB b
}.

(** After [k] iterations of the first loop: the odd slots below [2k] are
    cleared and their buffers freed; all other slots and their buffers are
    as [phase_accumulate] left them in [ps0], [m0]. *)
Record free_inv (h0 : gmap addr block) (t : addr) (n : nat)
  (ps0 : list (option ptr)) (m0 : machine) (k : nat)
  (ps : list (option ptr)) (m : machine) : Prop := {
  fi_tab : tab_inv h0 t ps m;
  fi_len : length ps = n;
  fi_done : forall j, Nat.odd j = true -> (j < 2 * k)%nat -> (j < n)%nat ->
                      ps !! j = Some (Some NULL);
  fi_todo : forall j, Nat.odd j = false \/ (2 * k <= j)%nat ->
                      ps !! j = ps0 !! j;
  fi_freed : forall j a, Nat.odd j = true -> (j < 2 * k)%nat ->
                         ps0 !! j = Some (Some (Addr a)) -> heap m !! a = None;
  fi_keep : forall j a, ps !! j = Some (Some (Addr a)) ->
                        heap m !! a = heap m0 !! a
}.

(** After [k] iterations of the second loop, started from [ps1], [m1]: the
    odd slots below [2k] are rewritten, with sentinel-filled buffers where
    not null; everything that was live in [m1] besides the table is as it
    was. *)
Record alloc_inv (h0 : gmap addr block) (t : addr) (n : nat)
  (ps1 : list (option ptr)) (m1 : machine) (k : nat)
  (ps : list (option ptr)) (m : machine) : Prop := {
  al_tab : tab_inv h0 t ps m;
  al_len : length ps = n;
  al_todo : forall j, Nat.odd j = false \/ (2 * k <= j)%nat ->
                      ps !! j = ps1 !! j;
  al_done : forall j, Nat.odd j = true -> (j < 2 * k)%nat -> (j < n)%nat ->
                      exists p, ps !! j = Some (Some p);
  al_fill : forall j a, Nat.odd j = true -> (j < 2 * k)%nat ->
                        ps !! j = Some (Some (Addr a)) ->
                        exists b, heap m !! a = Some b /\ filled 128 8192 0xCD b;
  al_keep : forall a b, a <> t -> heap m1 !! a = Some b -> heap m !! a = Some b
}.

(** The loop of lines 171-172 after [k] entries: the table is untouched,
    the buffers of the first [k] entries are gone, the others live. *)
Record sweep_inv (h0 : gmap addr block) (t : addr) (ps : list (option ptr))
  (k : nat) (m : machine) : Prop := {
  sw_tab : table_at t ps m;
  sw_freed : forall j a,
      ps !! j = Some (Some (Addr a)) -> (j < k)%nat -> heap m !! a = None;
  sw_live : forall j a,
      ps !! j = Some (Some (Addr a)) -> (k <= j)%nat -> is_Some (heap m !! a);
  sw_frame : forall a b, h0 !! a = Some b -> heap m !! a = Some b;
  sw_other : forall a,
      a <> t -> h0 !! a = None ->
      (forall j, ps !! j <> Some (Some (Addr a))) -> heap m !! a = None
}.

(** What a computation consumes: [steps d k m m'] says that [m'] is [m]
    after exactly [d] generator steps and [k] [malloc] requests, and
    [costs c d k] that every returning run of [c] consumes that much. *)
Definition steps (d k : nat) (m m' : machine) : Prop :=
  rng_state m' = Nat.iter d xorshift64_mix (rng_state m)
  /\ mallocs m' = (mallocs m + k)%nat.

Definition costs {A} (c : M A) (d k : nat) : Prop :=
  forall m a m', c m = Ok a m' -> steps d k m m'.

(** How the kernel writes a number: the character of a decimal digit, the
    string of a list of digits (most significant first), and the number a
    list of digits denotes. *)
Definition digit_char (d : Z) : ascii := ascii_of_nat (Z.to_nat (48 + d)).

Definition digits_string (ds : list Z) : string :=
  string_of_list_ascii (map digit_char ds).

Definition digits_number (ds : list Z) : Z :=
  fold_left (fun acc d => 10 * acc + d) ds 0.

(** A line does not carry the resident-set field. *)
Definition other_line (line : string) : Prop :=
  String.prefix "VmRSS:" line = false.

(** What follows the digits is not one more digit. *)
Definition ends_number (rest : string) : Prop :=
  match rest with
  | String c _ => digit_of c = None
  | EmptyString => True
  end.

(** Undoing the generator.  [x ^= x << k] is undone by solving
    [x = y ^ (x << k)] for [x], which iterating from [y] does in
    [64 / k] rounds since every round fixes [k] more low bits; likewise for
    the right shift, from the top.  [xorshift64_unmix] undoes the three
    assignments in reverse order. *)
Definition unshl_xor (k : Z) (n : nat) (y : Z) : Z :=
  Nat.iter n (fun x => Z.lxor y (wrap64 (Z.shiftl x k))) y.

Definition unshr_xor (k : Z) (n : nat) (y : Z) : Z :=
  Nat.iter n (fun x => Z.lxor y (Z.shiftr x k)) y.

Definition xorshift64_unmix (y : Z) : Z :=
  unshl_xor 13 4 (unshr_xor 7 9 (unshl_xor 17 3 y)).

(** A churn buffer the phase has written: between 64 and 4095 bytes, every
    one of them holding the same byte value. *)
Definition touched (b : block) : Prop :=
  exists sz c,
    64 <= sz < 4096 /\ 0 <= c < 256
    /\ b = Bytes (replicate (Z.to_nat sz) (Some c)).

(** Every occupied slot of the pool names a written buffer. *)
Definition pool_touched (pool : list ptr) (m : machine) : Prop :=
  forall i a, pool !! i = Some (Addr a) ->
              exists b, heap m !! a = Some b /\ touched b.

(* ===================================================================== *)
(** * Part II: properties                                                 *)
(* ===================================================================== *)

(** ** Bit-level facts about the mixing steps *)

Lemma in_u64_high_bits z i : in_u64 z -> 64 <= i -> Z.testbit z i = false.
Proof.
  intros [H0 H1] Hi.
  rewrite <- (Z.mod_small z (2 ^ 64)) by lia.
  apply Z.mod_pow2_bits_high; lia.
Qed.

Lemma in_u64_of_bits z :
  0 <= z -> (forall i, 64 <= i -> Z.testbit z i = false) -> in_u64 z.
Proof.
  intros H0 Hb. split; [exact H0|].
  assert (E : z mod 2 ^ 64 = z).
  { apply Z.bits_inj'. intros i Hi.
    rewrite Z.testbit_mod_pow2 by lia.
    destruct (Z.ltb_spec i 64); simpl; [reflexivity|].
    symmetry. apply Hb. lia. }
  rewrite <- E. apply Z.mod_pos_bound. lia.
Qed.

Lemma wrap64_in_u64 z : in_u64 (wrap64 z).
Proof. unfold in_u64, wrap64. apply Z.mod_pos_bound. lia. Qed.

Lemma wrap64_small z : in_u64 z -> wrap64 z = z.
Proof. intros H. unfold wrap64. apply Z.mod_small. exact H. Qed.

Lemma lxor_in_u64 a b : in_u64 a -> in_u64 b -> in_u64 (Z.lxor a b).
Proof.
  intros Ha Hb. apply in_u64_of_bits.
  - apply Z.lxor_nonneg. destruct Ha, Hb. lia.
  - intros i Hi. rewrite Z.lxor_spec.
    rewrite (in_u64_high_bits a i Ha Hi), (in_u64_high_bits b i Hb Hi).
    reflexivity.
Qed.

Lemma shiftr_in_u64 a k : 0 <= k -> in_u64 a -> in_u64 (Z.shiftr a k).
Proof.
  intros Hk Ha. apply in_u64_of_bits.
  - apply Z.shiftr_nonneg. destruct Ha. lia.
  - intros i Hi. rewrite Z.shiftr_spec by lia.
    apply in_u64_high_bits; [exact Ha | lia].
Qed.

Lemma shl_xor_in_u64 k x : in_u64 x -> in_u64 (shl_xor k x).
Proof. intros Hx. apply lxor_in_u64; [exact Hx | apply wrap64_in_u64]. Qed.

Lemma shr_xor_in_u64 k x : 0 <= k -> in_u64 x -> in_u64 (shr_xor k x).
Proof. intros Hk Hx. apply lxor_in_u64; [exact Hx | now apply shiftr_in_u64]. Qed.

Lemma shl_xor_bit k x i :
  0 < k -> 0 <= i ->
  Z.testbit (shl_xor k x) i =
  xorb (Z.testbit x i) ((i <? 64) && Z.testbit x (i - k)).
Proof.
  intros Hk Hi. unfold shl_xor, wrap64.
  rewrite Z.lxor_spec, Z.testbit_mod_pow2 by lia.
  rewrite Z.shiftl_spec by lia. reflexivity.
Qed.

Lemma shr_xor_bit k x i :
  0 <= i ->
  Z.testbit (shr_xor k x) i = xorb (Z.testbit x i) (Z.testbit x (i + k)).
Proof.
  intros Hi. unfold shr_xor.
  rewrite Z.lxor_spec, Z.shiftr_spec by lia. reflexivity.
Qed.

(** A left-shift-xor step is invertible: the low [k] bits pass through and
    every higher bit is recovered from one already known, going upwards. *)
Lemma shl_xor_inj k x y :
  0 < k -> in_u64 x -> in_u64 y -> shl_xor k x = shl_xor k y -> x = y.
Proof.
  intros Hk Hx Hy E.
  assert (B : forall n : nat, forall i, 0 <= i < Z.of_nat n ->
              Z.testbit x i = Z.testbit y i).
  { induction n as [|n IH]; intros i Hi; [lia|].
    destruct (Z.ltb_spec i (Z.of_nat n)) as [Hlt|Hge]; [apply IH; lia|].
    assert (i = Z.of_nat n) by lia. subst i.
    pose proof (f_equal (fun z => Z.testbit z (Z.of_nat n)) E) as Eb.
    cbv beta in Eb. rewrite !shl_xor_bit in Eb by lia.
    destruct (Z.ltb_spec (Z.of_nat n - k) 0) as [Hneg|Hpos].
    - rewrite !(Z.testbit_neg_r _ (Z.of_nat n - k)) in Eb by lia.
      rewrite !andb_false_r, !xorb_false_r in Eb. exact Eb.
    - rewrite (IH (Z.of_nat n - k)) in Eb by lia.
      eapply xorb_move_l_r_2 in Eb. rewrite Eb.
      rewrite xorb_assoc, xorb_nilpotent, xorb_false_r. reflexivity. }
  apply Z.bits_inj'. intros i Hi. apply (B (Z.to_nat i + 1)%nat). lia.
Qed.

(** A right-shift-xor step is invertible: the top [k] bits pass through
    and every lower bit is recovered going downwards from bit 63. *)
Lemma shr_xor_inj k x y :
  0 < k -> in_u64 x -> in_u64 y -> shr_xor k x = shr_xor k y -> x = y.
Proof.
  intros Hk Hx Hy E.
  assert (B : forall n : nat, forall i, 64 - Z.of_nat n <= i ->
              Z.testbit x i = Z.testbit y i).
  { induction n as [|n IH]; intros i Hi.
    - rewrite !in_u64_high_bits by (assumption || lia). reflexivity.
    - destruct (Z.ltb_spec i 0) as [Hneg|Hpos].
      { rewrite !Z.testbit_neg_r by lia. reflexivity. }
      pose proof (f_equal (fun z => Z.testbit z i) E) as Eb.
      cbv beta in Eb. rewrite !shr_xor_bit in Eb by lia.
      rewrite (IH (i + k)) in Eb by lia.
      eapply xorb_move_l_r_2 in Eb. rewrite Eb.
      rewrite xorb_assoc, xorb_nilpotent, xorb_false_r. reflexivity. }
  apply Z.bits_inj'. intros i Hi. apply (B 64%nat). lia.
Qed.

Lemma xorshift64_mix_steps x :
  xorshift64_mix x = shl_xor 17 (shr_xor 7 (shl_xor 13 x)).
Proof. reflexivity. Qed.

Lemma xorshift64_mix_in_u64 x : in_u64 x -> in_u64 (xorshift64_mix x).
Proof.
  intros Hx. rewrite xorshift64_mix_steps.
  apply shl_xor_in_u64, shr_xor_in_u64; [lia|]. now apply shl_xor_in_u64.
Qed.

Lemma xorshift64_mix_inj x y :
  in_u64 x -> in_u64 y -> xorshift64_mix x = xorshift64_mix y -> x = y.
Proof.
  intros Hx Hy E. rewrite !xorshift64_mix_steps in E.
  apply shl_xor_inj in E;
    [| lia | apply shr_xor_in_u64; [lia|]; now apply shl_xor_in_u64 ..].
  apply shr_xor_inj in E; [| lia | now apply shl_xor_in_u64 ..].
  apply shl_xor_inj in E; [exact E | lia | assumption ..].
Qed.

Lemma xorshift64_mix_zero : xorshift64_mix 0 = 0.
Proof. reflexivity. Qed.

Lemma xorshift64_mix_nonzero x : in_u64 x -> x <> 0 -> xorshift64_mix x <> 0.
Proof.
  intros Hx Hne E. apply Hne.
  apply xorshift64_mix_inj; [exact Hx | unfold in_u64; lia |].
  rewrite E. symmetry. apply xorshift64_mix_zero.
Qed.

(** ** The generator: [xorshift64], [rand_range] *)

Lemma spec_next_mix s : spec_next s = xorshift64_mix s.
Proof.
  unfold spec_next, spec_shl_xor, spec_shr_xor, xorshift64_mix, wrap64.
  rewrite !Z.shiftl_mul_pow2, !Z.shiftr_div_pow2 by lia. reflexivity.
Qed.

Lemma set_rng_same m : set_rng (rng_state m) m = m.
Proof. destruct m; reflexivity. Qed.

Lemma set_rng_twice x y m : set_rng x (set_rng y m) = set_rng x m.
Proof. reflexivity. Qed.

Lemma draws_unfold n m :
  draws (S n) m =
  match draws n (set_rng (xorshift64_mix (rng_state m)) m) with
  | Ok xs m' => Ok (xorshift64_mix (rng_state m) :: xs) m'
  | Crash f => Crash f
  end.
Proof. reflexivity. Qed.

Lemma draws_closed_form n :
  forall m,
    draws n m =
    Ok (map (fun k => Nat.iter (S k) xorshift64_mix (rng_state m)) (seq 0 n))
       (set_rng (Nat.iter n xorshift64_mix (rng_state m)) m).
Proof.
  induction n as [|n IH]; intros m.
  - simpl. unfold ret. now rewrite set_rng_same.
  - rewrite draws_unfold, IH. cbn [rng_state set_rng].
    rewrite set_rng_twice, <- Nat.iter_succ_r.
    f_equal. cbn [seq map]. f_equal.
    rewrite <- seq_shift, map_map. apply map_ext. intros k.
    now rewrite <- Nat.iter_succ_r.
Qed.

Lemma iter_mix_in_u64 n s : in_u64 s -> in_u64 (Nat.iter n xorshift64_mix s).
Proof.
  intros Hs. induction n as [|n IH]; [exact Hs|].
  simpl. now apply xorshift64_mix_in_u64.
Qed.

Lemma iter_mix_nonzero n s :
  in_u64 s -> s <> 0 -> Nat.iter n xorshift64_mix s <> 0.
Proof.
  intros Hs Hne. induction n as [|n IH]; [exact Hne|].
  simpl. apply xorshift64_mix_nonzero; [now apply iter_mix_in_u64 | exact IH].
Qed.

Lemma rng_seed_in_u64 : in_u64 rng_seed.
Proof. unfold in_u64, rng_seed. lia. Qed.

(** C9: on every 64-bit state [s], [xorshift64] computes the fixed
    transformation (shift left 13, shift right 7, shift left 17, each XORed
    into the register), stores the result as the new state and returns that
    same value, which is again a 64-bit value; hence [n] successive calls
    yield a sequence that is a function of the starting state alone: the
    iterates of the transformation, whatever the rest of the machine is. *)
Theorem xorshift64_contract (m : machine) :
  in_u64 (rng_state m) ->
  xorshift64 m
    = Ok (spec_next (rng_state m)) (set_rng (spec_next (rng_state m)) m)
  /\ in_u64 (spec_next (rng_state m))
  /\ forall n : nat,
       draws n m
       = Ok (map (fun k => Nat.iter (S k) spec_next (rng_state m)) (seq 0 n))
            (set_rng (Nat.iter n spec_next (rng_state m)) m).
Proof.
  intros Hs. split; [|split].
  - unfold xorshift64. now rewrite spec_next_mix.
  - rewrite spec_next_mix. now apply xorshift64_mix_in_u64.
  - intros n. rewrite draws_closed_form. f_equal.
    + apply map_ext. intros k. clear. generalize (rng_state m). intros s.
      induction (S k) as [|j IH]; [reflexivity|].
      simpl. now rewrite IH, spec_next_mix.
    + f_equal. induction n as [|j IH]; [reflexivity|].
      simpl. now rewrite IH, spec_next_mix.
Qed.

Lemma xorshift64_contract_witness :
  in_u64 (rng_state machine0)
  /\ xorshift64 machine0
     = Ok (spec_next (rng_state machine0))
          (set_rng (spec_next (rng_state machine0)) machine0)
  /\ in_u64 (spec_next (rng_state machine0))
  /\ forall n : nat,
       draws n machine0
       = Ok (map (fun k => Nat.iter (S k) spec_next (rng_state machine0))
                 (seq 0 n))
            (set_rng (Nat.iter n spec_next (rng_state machine0)) machine0).
Proof.
  assert (H : in_u64 (rng_state machine0)).
  { unfold in_u64. simpl. unfold rng_seed. lia. }
  split; [exact H | exact (xorshift64_contract machine0 H)].
Defined.

(** C10: the xorshift64 step is injective on 64-bit states and sends only
    zero to zero; so from the built-in seed the state is never zero after
    any number of calls, and no call returns zero. *)
Theorem xorshift64_never_zero :
  (forall s t : Z,
      in_u64 s -> in_u64 t -> xorshift64_mix s = xorshift64_mix t -> s = t)
  /\ (forall s : Z, in_u64 s -> (xorshift64_mix s = 0 <-> s = 0))
  /\ rng_seed <> 0
  /\ (forall (n : nat) (m : machine),
        rng_state m = rng_seed ->
        exists xs m',
          draws n m = Ok xs m'
          /\ rng_state m' <> 0
          /\ Forall (fun x => x <> 0) xs).
Proof.
  split; [|split; [|split]].
  - exact xorshift64_mix_inj.
  - intros s Hs. split.
    + intros E. destruct (Z.eq_dec s 0) as [Hz|Hnz]; [exact Hz|].
      now destruct (xorshift64_mix_nonzero s Hs Hnz).
    + intros ->. apply xorshift64_mix_zero.
  - unfold rng_seed. lia.
  - intros n m Hm. eexists _, _. split; [apply draws_closed_form|].
    rewrite Hm. split.
    + simpl. apply iter_mix_nonzero; [apply rng_seed_in_u64|].
      unfold rng_seed. lia.
    + apply Forall_forall. intros x Hx.
      apply list_elem_of_In, in_map_iff in Hx as (k & <- & _).
      apply iter_mix_nonzero; [apply rng_seed_in_u64|].
      unfold rng_seed. lia.
Qed.

Lemma xorshift64_never_zero_witness :
  in_u64 1 /\ in_u64 1 /\ xorshift64_mix 1 = xorshift64_mix 1
  /\ rng_state machine0 = rng_seed
  /\ (xorshift64_mix 0 = 0 <-> 0 = 0)
  /\ exists xs m',
       draws 3 machine0 = Ok xs m'
       /\ rng_state m' <> 0 /\ Forall (fun x => x <> 0) xs.
Proof.
  assert (H1 : in_u64 1) by (unfold in_u64; lia).
  assert (H0 : in_u64 0) by (unfold in_u64; lia).
  destruct xorshift64_never_zero as (Hinj & Hzero & _ & Hseed).
  pose proof (Hinj 1 1 H1 H1 eq_refl) as _.
  split; [exact H1|]. split; [exact H1|]. split; [reflexivity|].
  split; [reflexivity|]. split; [exact (Hzero 0 H0)|].
  exact (Hseed 3%nat machine0 eq_refl).
Defined.

(** C3: for sizes [lo < hi] and any generator state, [rand_range lo hi]
    advances the generator by exactly one [xorshift64] call, returns that
    draw reduced modulo [hi - lo] plus [lo], and the value lies in
    [lo, hi). *)
Theorem rand_range_contract (lo hi : Z) (m : machine) :
  0 <= lo -> lo < hi -> hi < 2 ^ 64 ->
  exists x m',
    xorshift64 m = Ok x m'
    /\ rand_range lo hi m = Ok (lo + x mod (hi - lo)) m'
    /\ lo <= lo + x mod (hi - lo) < hi.
Proof.
  intros Hlo Hlt Hhi.
  exists (xorshift64_mix (rng_state m)), (set_rng (xorshift64_mix (rng_state m)) m).
  assert (Hd : wrap64 (hi - lo) = hi - lo) by (apply wrap64_small; unfold in_u64; lia).
  pose proof (Z.mod_pos_bound (xorshift64_mix (rng_state m)) (hi - lo)) as Hb.
  split; [reflexivity|]. split; [|lia].
  unfold rand_range, bind, xorshift64. rewrite Hd.
  destruct (Z.eqb_spec (hi - lo) 0) as [E|_]; [lia|].
  unfold ret. f_equal. apply wrap64_small. unfold in_u64; lia.
Qed.

Lemma rand_range_contract_witness :
  0 <= 64 /\ 64 < 4096 /\ 4096 < 2 ^ 64
  /\ exists x m',
       xorshift64 machine0 = Ok x m'
       /\ rand_range 64 4096 machine0 = Ok (64 + x mod (4096 - 64)) m'
       /\ 64 <= 64 + x mod (4096 - 64) < 4096.
Proof.
  assert (H1 : 0 <= 64) by lia.
  assert (H2 : 64 < 4096) by lia.
  assert (H3 : 4096 < 2 ^ 64) by lia.
  split; [exact H1|]. split; [exact H2|]. split; [exact H3|].
  exact (rand_range_contract 64 4096 machine0 H1 H2 H3).
Defined.

(** ** The command line and the derived counts *)

Lemma atoi_non_numeric a : numeric a = false -> atoi a = 0.
Proof.
  unfold numeric, atoi, strtol.
  destruct (split_sign (skip_spaces a)) as [neg rest]. cbn [fst snd].
  intros Hn.
  assert (E : digits_value 0 rest = 0).
  { destruct rest as [|c r]; [reflexivity|]. simpl.
    destruct (digit_of c); [discriminate | reflexivity]. }
  rewrite E. now destruct neg.
Qed.

Lemma main_rounds_absent argv :
  (length argv <= 1)%nat -> main_rounds argv = 500000.
Proof.
  intros Hlen. unfold main_rounds.
  destruct (Z.ltb_spec 1 (Z.of_nat (length argv))) as [H|_]; [lia|].
  reflexivity.
Qed.

Lemma main_rounds_given argv a :
  argv !! 1%nat = Some a -> main_rounds argv = Z.max (atoi a) 1000.
Proof.
  intros Ha. unfold main_rounds.
  pose proof (lookup_lt_Some _ _ _ Ha) as Hlen. rewrite Ha.
  destruct (Z.ltb_spec 1 (Z.of_nat (length argv))) as [_|H]; [|lia].
  destruct (Z.ltb_spec (atoi a) 1000); lia.
Qed.

Lemma main_rounds_min argv : 1000 <= main_rounds argv.
Proof.
  unfold main_rounds.
  match goal with |- context [if ?r <? 1000 then _ else _] =>
    destruct (Z.ltb_spec r 1000) end; lia.
Qed.

Lemma main_accum_count_max rounds :
  0 <= rounds -> main_accum_count rounds = Z.max (rounds / 50) 100.
Proof.
  intros H. unfold main_accum_count.
  rewrite Z.quot_div_nonneg by lia.
  destruct (Z.ltb_spec (rounds / 50) 100); lia.
Qed.

Lemma main_ops_exact rounds accum_count :
  main_ops rounds accum_count = inject_Z (rounds + accum_count * 3).
Proof.
  unfold main_ops, inject_Z, Qplus, Qmult. cbn [Qnum Qden].
  f_equal. lia.
Qed.

(** C2, counterexample: the argument ["abc"] is not numeric, and the
    program runs with 1000 rounds, not with the standard 500000. *)
Lemma rounds_non_numeric_counterexample :
  numeric "abc" = false
  /\ main_rounds ["bench-allocator"; "abc"]%string = 1000
  /\ main_rounds ["bench-allocator"; "abc"]%string <> 500000.
Proof. split; [reflexivity|]. split; [reflexivity | discriminate]. Qed.

(** C2, amended: with the argument absent the program uses the standard
    round count 500000; a supplied argument is converted with [atoi] and
    clamped up to 1000 when below it; a non-numeric argument converts to 0
    and therefore runs 1000 rounds. *)
Theorem rounds_from_command_line (argv : list string) :
  ((length argv <= 1)%nat -> main_rounds argv = 500000)
  /\ (forall a, argv !! 1%nat = Some a ->
        main_rounds argv = Z.max (atoi a) 1000)
  /\ (forall a, argv !! 1%nat = Some a -> numeric a = false ->
        main_rounds argv = 1000).
Proof.
  split; [apply main_rounds_absent|]. split; [apply main_rounds_given|].
  intros a Ha Hn. rewrite (main_rounds_given argv a Ha).
  now rewrite (atoi_non_numeric a Hn).
Qed.

Lemma rounds_from_command_line_witness :
  (length ["bench-allocator"]%string <= 1)%nat
  /\ main_rounds ["bench-allocator"]%string = 500000
  /\ ["bench-allocator"; "250"]%string !! 1%nat = Some "250"%string
  /\ main_rounds ["bench-allocator"; "250"]%string
     = Z.max (atoi "250") 1000
  /\ ["bench-allocator"; "x9"]%string !! 1%nat = Some "x9"%string
  /\ numeric "x9" = false
  /\ main_rounds ["bench-allocator"; "x9"]%string = 1000.
Proof.
  assert (H1 : (length ["bench-allocator"]%string <= 1)%nat) by (simpl; lia).
  split; [exact H1|].
  split; [exact (proj1 (rounds_from_command_line _) H1)|].
  split; [reflexivity|].
  split;
    [exact (proj1 (proj2 (rounds_from_command_line
                            ["bench-allocator"; "250"]%string)) _ eq_refl)|].
  split; [reflexivity|]. split; [reflexivity|].
  exact (proj2 (proj2 (rounds_from_command_line
                         ["bench-allocator"; "x9"]%string)) _ eq_refl eq_refl).
Defined.


(** ** Total-correctness triples for the monad *)

Lemma total_ret {A} (P : machine -> Prop) (a : A) (Q : A -> machine -> Prop) :
  (forall m, P m -> Q a m) -> total P (ret a) Q.
Proof. intros H m Hm. exists a, m. split; [reflexivity | now apply H]. Qed.

Lemma total_bind {A B} (P : machine -> Prop) (c : M A)
  (Q : A -> machine -> Prop) (k : A -> M B) (R : B -> machine -> Prop) :
  total P c Q -> (forall a, total (Q a) (k a) R) -> total P (bind c k) R.
Proof.
  intros Hc Hk m Hm. destruct (Hc m Hm) as (a & m1 & E1 & Ha).
  destruct (Hk a m1 Ha) as (b & m2 & E2 & Hb).
  exists b, m2. split; [|exact Hb]. unfold bind. now rewrite E1.
Qed.

Lemma total_weaken {A} (P P' : machine -> Prop) (c : M A)
  (Q Q' : A -> machine -> Prop) :
  total P c Q -> (forall m, P' m -> P m) -> (forall a m, Q a m -> Q' a m) ->
  total P' c Q'.
Proof.
  intros Hc HP HQ m Hm. destruct (Hc m (HP m Hm)) as (a & m' & E & Ha).
  exists a, m'. split; [exact E | now apply HQ].
Qed.

Lemma bind_inv {A B} (c : M A) (k : A -> M B) m b m'' :
  bind c k m = Ok b m'' -> exists a m', c m = Ok a m' /\ k a m' = Ok b m''.
Proof.
  unfold bind. destruct (c m) as [a m'|f]; [eauto | discriminate].
Qed.

Lemma bind_ok {A B} (c : M A) (k : A -> M B) m a m' :
  c m = Ok a m' -> bind c k m = k a m'.
Proof. intros E. unfold bind. now rewrite E. Qed.

(** The loop rule: [I k] holds of the locals and the machine after [k]
    iterations. *)
Lemma total_iterate {S : Type} (I : nat -> S -> machine -> Prop)
  (body : Z -> S -> M S) (step : Z) (n : nat) :
  forall (i0 : Z) (k0 : nat) (s : S),
    (forall k s, (k0 <= k < k0 + n)%nat ->
       total (I k s) (body (i0 + Z.of_nat (k - k0) * step) s)
             (fun s' => I (Datatypes.S k) s')) ->
    total (I k0 s) (iterate n i0 step body s) (fun s' => I (k0 + n)%nat s').
Proof.
  induction n as [|n IH]; intros i0 k0 s Hbody.
  - simpl. apply total_ret. intros m Hm. now rewrite Nat.add_0_r.
  - simpl. eapply total_bind.
    + pose proof (Hbody k0 s ltac:(lia)) as H0.
      rewrite Nat.sub_diag, Z.mul_0_l, Z.add_0_r in H0. exact H0.
    + intros s'. cbv beta.
      replace (k0 + Datatypes.S n)%nat with (Datatypes.S k0 + n)%nat by lia.
      apply IH. intros k s1 Hk.
      pose proof (Hbody k s1 ltac:(lia)) as Hb.
      replace (Z.of_nat (k - k0)) with (Z.of_nat (k - Datatypes.S k0) + 1)
        in Hb by lia.
      replace (i0 + step + Z.of_nat (k - Datatypes.S k0) * step)
        with (i0 + (Z.of_nat (k - Datatypes.S k0) + 1) * step) by ring.
      exact Hb.
Qed.

Lemma total_for_lt {S : Type} (I : nat -> S -> machine -> Prop)
  (body : Z -> S -> M S) (i0 bound step : Z) (s : S) :
  (forall k s, (k < trip_count i0 bound step)%nat ->
     total (I k s) (body (i0 + Z.of_nat k * step) s)
           (fun s' => I (Datatypes.S k) s')) ->
  total (I 0%nat s) (for_lt i0 bound step body s)
        (fun s' => I (trip_count i0 bound step) s').
Proof.
  intros Hbody. unfold for_lt.
  apply (total_iterate I body step (trip_count i0 bound step) i0 0%nat s).
  intros k s1 Hk. rewrite Nat.sub_0_r. apply Hbody. lia.
Qed.

(** One more iteration at the end of a run of the loop. *)
Lemma iterate_snoc {S : Type} (body : Z -> S -> M S) (step : Z) (k : nat) :
  forall (i : Z) (s s1 s2 : S) (m m1 m2 : machine),
    iterate k i step body s m = Ok s1 m1 ->
    body (i + Z.of_nat k * step) s1 m1 = Ok s2 m2 ->
    iterate (Datatypes.S k) i step body s m = Ok s2 m2.
Proof.
  induction k as [|k IH]; intros i s s1 s2 m m1 m2 E1 E2.
  - cbn [iterate] in *. unfold ret in E1. injection E1 as <- <-.
    rewrite Z.mul_0_l, Z.add_0_r in E2.
    unfold bind. rewrite E2. reflexivity.
  - change (iterate (Datatypes.S k) i step body s)
      with (bind (body i s) (fun s' => iterate k (i + step) step body s')) in E1.
    apply bind_inv in E1 as (s' & m' & Eb & E1).
    change (iterate (Datatypes.S (Datatypes.S k)) i step body s)
      with (bind (body i s)
              (fun s' => iterate (Datatypes.S k) (i + step) step body s')).
    rewrite (bind_ok _ _ _ _ _ Eb).
    apply (IH _ _ _ _ _ _ _ E1).
    replace (i + step + Z.of_nat k * step)
      with (i + Z.of_nat (Datatypes.S k) * step) by lia.
    exact E2.
Qed.

Lemma trip_count_unit bound : trip_count 0 bound 1 = Z.to_nat bound.
Proof. unfold trip_count. f_equal. rewrite Z.div_1_r. lia. Qed.

Lemma trip_count_odd count : trip_count 1 count 2 = Z.to_nat (count / 2).
Proof. unfold trip_count. f_equal. f_equal. lia. Qed.

(** ** The library calls, equationally *)

Section Heap.
Context `{!Allocator}.

Lemma malloc_cases sz m :
  (malloc sz m
     = Ok NULL (Machine (rng_state m) (heap m) (S (mallocs m)) (peak m)))
  \/ (exists a,
        heap m !! a = None
        /\ malloc sz m
           = Ok (Addr a)
                (Machine (rng_state m) (<[a := Raw sz]> (heap m))
                         (S (mallocs m))
                         (Nat.max (peak m) (size (<[a := Raw sz]> (heap m)))))).
Proof.
  unfold malloc. destruct (pick (mallocs m) (heap m) sz) as [a|] eqn:E.
  - right. exists a. split; [eapply pick_fresh; exact E | reflexivity].
  - now left.
Qed.

Lemma free_null m : free NULL m = Ok tt m.
Proof. reflexivity. Qed.

Lemma free_live a b m :
  heap m !! a = Some b ->
  free (Addr a) m = Ok tt (set_heap (delete a (heap m)) m).
Proof. intros E. unfold free. now rewrite E. Qed.

Lemma memset_raw a sz c m :
  heap m !! a = Some (Raw sz) -> 0 <= sz ->
  memset (Addr a) c sz m
  = Ok tt (set_heap
             (<[a := Bytes (replicate (Z.to_nat sz) (Some (c mod 256)))]>
                (heap m)) m).
Proof.
  intros E Hsz. unfold memset. rewrite E. cbn [as_bytes].
  rewrite length_replicate, Z2Nat.id by lia.
  rewrite Z.ltb_irrefl.
  rewrite drop_ge by (rewrite length_replicate; lia).
  now rewrite app_nil_r.
Qed.

Lemma load_ptr_ok t ps i v m :
  table_at t ps m -> 0 <= i -> ps !! Z.to_nat i = Some (Some v) ->
  load_ptr (Addr t) i m = Ok v m.
Proof.
  intros (b & Hb & Hs) Hi Hv. unfold load_ptr. rewrite Hb, Hs, Hv.
  destruct (Z.ltb_spec i 0); [lia | reflexivity].
Qed.

Lemma store_ptr_ok t ps i v m :
  table_at t ps m -> 0 <= i < Z.of_nat (length ps) ->
  store_ptr (Addr t) i v m
  = Ok tt (set_heap (<[t := Slots (<[Z.to_nat i := Some v]> ps)]> (heap m)) m).
Proof.
  intros (b & Hb & Hs) Hi. unfold store_ptr. rewrite Hb, Hs.
  destruct (Z.ltb_spec i 0); [lia|].
  destruct (Z.leb_spec (Z.of_nat (length ps)) i); [lia|]. reflexivity.
Qed.

Lemma pool_get_ok (pool : list ptr) idx p m :
  0 <= idx -> pool !! Z.to_nat idx = Some p -> pool_get pool idx m = Ok p m.
Proof.
  intros Hi Hp. unfold pool_get. destruct (Z.ltb_spec idx 0); [lia|].
  now rewrite Hp.
Qed.

Lemma pool_set_ok (pool : list ptr) idx v m :
  0 <= idx < Z.of_nat (length pool) ->
  pool_set pool idx v m = Ok (<[Z.to_nat idx := v]> pool) m.
Proof.
  intros Hi. unfold pool_set. destruct (Z.ltb_spec idx 0); [lia|].
  destruct (Z.leb_spec (Z.of_nat (length pool)) idx); [lia|]. reflexivity.
Qed.

Lemma rand_range_ok lo hi m :
  0 <= lo -> lo < hi -> hi < 2 ^ 64 ->
  exists sz, lo <= sz < hi
    /\ rand_range lo hi m = Ok sz (set_rng (xorshift64_mix (rng_state m)) m).
Proof.
  intros Hlo Hlt Hhi.
  exists (lo + xorshift64_mix (rng_state m) mod (hi - lo)).
  assert (Hd : wrap64 (hi - lo) = hi - lo)
    by (apply wrap64_small; unfold in_u64; lia).
  pose proof (Z.mod_pos_bound (xorshift64_mix (rng_state m)) (hi - lo)) as Hb.
  split; [lia|].
  unfold rand_range, bind, xorshift64. rewrite Hd.
  destruct (Z.eqb_spec (hi - lo) 0) as [E|_]; [lia|].
  unfold ret. f_equal. apply wrap64_small. unfold in_u64; lia.
Qed.

End Heap.

(** ** Phase 1: the churn invariant *)

Lemma live_slots_le pool : (live_slots pool <= length pool)%nat.
Proof.
  induction pool as [|[|a] rest IH]; simpl; lia.
Qed.

Lemma live_slots_replicate n : live_slots (replicate n NULL) = 0%nat.
Proof. induction n as [|n IH]; [reflexivity | exact IH]. Qed.

Lemma live_slots_clear pool i a :
  pool !! i = Some (Addr a) ->
  S (live_slots (<[i := NULL]> pool)) = live_slots pool.
Proof.
  revert i. induction pool as [|p rest IH]; intros [|i] H; try discriminate.
  - simpl in H. injection H as ->. reflexivity.
  - simpl in H. destruct p; simpl; [now apply IH | f_equal; now apply IH].
Qed.

Lemma live_slots_fill pool i a :
  pool !! i = Some NULL ->
  live_slots (<[i := Addr a]> pool) = S (live_slots pool).
Proof.
  revert i. induction pool as [|p rest IH]; intros [|i] H; try discriminate.
  - simpl in H. injection H as ->. reflexivity.
  - simpl in H. destruct p; simpl; [now apply IH | f_equal; now apply IH].
Qed.

Section Churn.
Context `{!Allocator}.
Variable h0 : gmap addr block.
Variable pk0 : nat.

Lemma churn_inv_rng pool m x :
  churn_inv h0 pk0 pool m -> churn_inv h0 pk0 pool (set_rng x m).
Proof. intros []. constructor; assumption. Qed.

Lemma churn_inv_init m :
  heap m = h0 -> (peak m <= pk0)%nat ->
  churn_inv h0 pk0 (replicate (Z.to_nat POOL) NULL) m.
Proof.
  intros Hh Hp. constructor.
  - apply length_replicate.
  - intros i a Hi. apply lookup_replicate in Hi as [? _]. discriminate.
  - intros a Ha _. now rewrite Hh.
  - intros a b Ha. now rewrite Hh.
  - intros i j a Hi. apply lookup_replicate in Hi as [? _]. discriminate.
  - rewrite Hh, live_slots_replicate. lia.
  - lia.
Qed.

(** Lines 71-74 leave the drawn slot empty, its former block freed. *)
Lemma churn_release_spec idx pool m :
  churn_inv h0 pk0 pool m -> 0 <= idx < POOL ->
  exists pool' m',
    churn_release idx pool m = Ok pool' m'
    /\ churn_inv h0 pk0 pool' m'
    /\ pool' !! Z.to_nat idx = Some NULL
    /\ (forall a, pool !! Z.to_nat idx = Some (Addr a) -> heap m' !! a = None)
    /\ (size (heap m') <= size (heap m))%nat.
Proof.
  intros Hinv Hidx.
  assert (Hlen : (Z.to_nat idx < length pool)%nat)
    by (rewrite (ci_len _ _ _ _ Hinv); lia).
  destruct (lookup_lt_is_Some_2 pool _ Hlen) as [p Hp].
  unfold churn_release.
  rewrite (bind_ok _ _ _ _ _ (pool_get_ok pool idx p m (proj1 Hidx) Hp)).
  destruct p as [|a].
  - exists pool, m. split; [reflexivity|]. split; [exact Hinv|].
    split; [exact Hp|]. split; [|lia].
    intros a Ha. rewrite Hp in Ha. discriminate.
  - rewrite (bind_ok _ _ _ _ _ (pool_get_ok pool idx _ m (proj1 Hidx) Hp)).
    destruct (ci_owned _ _ _ _ Hinv _ _ Hp) as [Hh0 [b Hb]].
    rewrite (bind_ok _ _ _ _ _ (free_live a b m Hb)).
    rewrite pool_set_ok by lia.
    eexists _, _. split; [reflexivity|].
    assert (Hne : forall j a', <[Z.to_nat idx := NULL]> pool !! j = Some (Addr a')
                   -> j <> Z.to_nat idx /\ pool !! j = Some (Addr a') /\ a' <> a).
    { intros j a' Hj. apply list_lookup_insert_Some in Hj as [(_ & ? & _)|[Hn Hj]];
        [discriminate|].
      split; [congruence|]. split; [exact Hj|].
      intros ->. apply Hn. eapply (ci_distinct _ _ _ _ Hinv); eassumption. }
    split; [constructor|]; cbn [heap set_heap peak].
    + rewrite length_insert. apply (ci_len _ _ _ _ Hinv).
    + intros j a' Hj. destruct (Hne j a' Hj) as (_ & Hj' & Hna).
      rewrite lookup_delete_ne by congruence.
      eapply (ci_owned _ _ _ _ Hinv); eassumption.
    + intros a' Ha' Hnot. destruct (decide (a' = a)) as [->|Hna].
      * apply lookup_delete_eq.
      * rewrite lookup_delete_ne by congruence.
        apply (ci_other _ _ _ _ Hinv); [exact Ha'|].
        intros j Hj. apply (Hnot j).
        rewrite list_lookup_insert_ne; [exact Hj|].
        intros <-. rewrite Hp in Hj. congruence.
    + intros a' b' Ha'. rewrite lookup_delete_ne by congruence.
      now apply (ci_frame _ _ _ _ Hinv).
    + intros i j a' Hi Hj.
      destruct (Hne i a' Hi) as (_ & Hi' & _).
      destruct (Hne j a' Hj) as (_ & Hj' & _).
      eapply (ci_distinct _ _ _ _ Hinv); eassumption.
    + rewrite map_size_delete_Some by eauto.
      rewrite (ci_size _ _ _ _ Hinv).
      rewrite <- (live_slots_clear pool _ a Hp). lia.
    + apply (ci_peak _ _ _ _ Hinv).
    + split; [apply list_lookup_insert_eq; lia|]. split.
      * intros a' Ha'. rewrite Hp in Ha'. injection Ha' as <-.
        apply lookup_delete_eq.
      * rewrite map_size_delete_Some by eauto. lia.
Qed.

(** Lines 76-79 fill the empty slot, or leave it empty when [malloc]
    refuses. *)
Lemma churn_refill_spec i idx pool m :
  churn_inv h0 pk0 pool m -> 0 <= idx < POOL ->
  pool !! Z.to_nat idx = Some NULL ->
  exists pool' m',
    churn_refill i idx pool m = Ok pool' m'
    /\ churn_inv h0 pk0 pool' m'.
Proof.
  intros Hinv Hidx Hp.
  assert (Hlen : length pool = Z.to_nat POOL) by apply (ci_len _ _ _ _ Hinv).
  unfold churn_refill.
  destruct (rand_range_ok 64 4096 m) as (sz & Hsz & Er); [lia..|].
  rewrite (bind_ok _ _ _ _ _ Er).
  set (m1 := set_rng (xorshift64_mix (rng_state m)) m).
  assert (Hinv1 : churn_inv h0 pk0 pool m1) by now apply churn_inv_rng.
  destruct (malloc_cases sz m1) as [Em|(a & Hfresh & Em)];
    rewrite (bind_ok _ _ _ _ _ Em); clear Em.
  - erewrite bind_ok; [|apply pool_set_ok; lia].
    rewrite list_insert_id by exact Hp.
    rewrite (bind_ok _ _ _ _ _ (pool_get_ok pool idx NULL _ (proj1 Hidx) Hp)).
    eexists _, _. split; [reflexivity|].
    destruct Hinv1. constructor; assumption.
  - erewrite bind_ok; [|apply pool_set_ok; lia].
    set (pool' := <[Z.to_nat idx := Addr a]> pool).
    assert (Hp' : pool' !! Z.to_nat idx = Some (Addr a))
      by (apply list_lookup_insert_eq; lia).
    rewrite (bind_ok _ _ _ _ _ (pool_get_ok pool' idx _ _ (proj1 Hidx) Hp')).
    rewrite (bind_ok _ _ _ _ _ (pool_get_ok pool' idx _ _ (proj1 Hidx) Hp')).
    erewrite bind_ok;
      [| apply memset_raw; [cbn [heap]; apply lookup_insert_eq | lia]].
    eexists _, _. split; [reflexivity|].
    cbn [heap set_heap]. rewrite insert_insert_eq.
    cbn [heap set_rng m1] in Hfresh.
    assert (Hh0 : h0 !! a = None).
    { destruct (h0 !! a) as [b|] eqn:E; [|reflexivity].
      rewrite (ci_frame _ _ _ _ Hinv _ _ E) in Hfresh. discriminate. }
    assert (Hnot : forall j, pool !! j <> Some (Addr a)).
    { intros j Hj. destruct (ci_owned _ _ _ _ Hinv _ _ Hj) as [_ [b Hb]].
      congruence. }
    assert (Hcase : forall j a', pool' !! j = Some (Addr a') ->
              (j = Z.to_nat idx /\ a' = a)
              \/ (j <> Z.to_nat idx /\ pool !! j = Some (Addr a') /\ a' <> a)).
    { intros j a' Hj.
      apply list_lookup_insert_Some in Hj as [(<- & [= <-] & _)|[Hn Hj]].
      - now left.
      - right. split; [congruence|]. split; [exact Hj|].
        intros ->. exact (Hnot j Hj). }
    constructor; cbn [heap peak set_rng set_heap]; subst m1;
      cbn [heap peak set_rng set_heap].
    + unfold pool'. now rewrite length_insert.
    + intros j a' Hj. destruct (Hcase j a' Hj) as [[_ ->]|(_ & Hj' & Hna)].
      * split; [exact Hh0|]. rewrite lookup_insert_eq. eauto.
      * rewrite lookup_insert_ne by congruence.
        eapply (ci_owned _ _ _ _ Hinv); eassumption.
    + intros a' Ha' Hnot'. destruct (decide (a' = a)) as [->|Hna].
      * now destruct (Hnot' _ Hp').
      * rewrite lookup_insert_ne by congruence.
        apply (ci_other _ _ _ _ Hinv); [exact Ha'|].
        intros j Hj. apply (Hnot' j). unfold pool'.
        rewrite list_lookup_insert_ne; [exact Hj|].
        intros <-. rewrite Hp in Hj. discriminate.
    + intros a' b' Ha'. rewrite lookup_insert_ne by congruence.
      now apply (ci_frame _ _ _ _ Hinv).
    + intros j1 j2 a' H1 H2.
      destruct (Hcase _ _ H1) as [[-> ->]|(Hn1 & H1' & Hna1)];
        destruct (Hcase _ _ H2) as [[-> Ha2]|(Hn2 & H2' & Hna2)];
        try congruence.
      eapply (ci_distinct _ _ _ _ Hinv); eassumption.
    + rewrite map_size_insert_None by exact Hfresh.
      rewrite (ci_size _ _ _ _ Hinv). unfold pool'.
      rewrite (live_slots_fill pool _ a Hp). lia.
    + rewrite map_size_insert_None by exact Hfresh.
      rewrite (ci_size _ _ _ _ Hinv).
      pose proof (ci_peak _ _ _ _ Hinv) as Hpk.
      pose proof (live_slots_le pool') as Hle.
      unfold pool' in Hle. rewrite (live_slots_fill pool _ a Hp) in Hle.
      rewrite length_insert, Hlen in Hle. lia.
Qed.

Lemma churn_body_spec i pool m :
  churn_inv h0 pk0 pool m ->
  exists pool' m', churn_body i pool m = Ok pool' m' /\ churn_inv h0 pk0 pool' m'.
Proof.
  intros Hinv. unfold churn_body.
  rewrite (bind_ok _ _ _ _ _ (eq_refl : xorshift64 m = Ok _ _)).
  set (x := xorshift64_mix (rng_state m)).
  assert (Hidx : 0 <= x mod POOL < POOL) by (apply Z.mod_pos_bound; reflexivity).
  destruct (churn_release_spec (x mod POOL) pool (set_rng x m))
    as (pool1 & m1 & E1 & Hinv1 & Hnull & _);
    [now apply churn_inv_rng | exact Hidx |].
  rewrite (bind_ok _ _ _ _ _ E1).
  now apply churn_refill_spec.
Qed.

Lemma churn_iterations k :
  forall i pool m,
    churn_inv h0 pk0 pool m ->
    exists pool' m',
      iterate k i 1 churn_body pool m = Ok pool' m'
      /\ churn_inv h0 pk0 pool' m'.
Proof.
  induction k as [|k IH]; intros i pool m Hinv.
  - exists pool, m. now split.
  - simpl. destruct (churn_body_spec i pool m Hinv) as (pool1 & m1 & E1 & Hinv1).
    rewrite (bind_ok _ _ _ _ _ E1). now apply IH.
Qed.

End Churn.

Section ChurnCleanup.
Context `{!Allocator}.
Variable h0 : gmap addr block.
Variable pool : list ptr.
Hypothesis pool_len : length pool = Z.to_nat POOL.
Hypothesis pool_fresh : forall i a, pool !! i = Some (Addr a) -> h0 !! a = None.
Hypothesis pool_distinct : forall i j a,
    pool !! i = Some (Addr a) -> pool !! j = Some (Addr a) -> i = j.

Lemma churn_cleanup_body_spec (k : nat) (m : machine) :
  (k < Z.to_nat POOL)%nat -> cleanup_inv h0 pool k m ->
  exists m',
    churn_cleanup_body (Z.of_nat k) pool m = Ok pool m'
    /\ cleanup_inv h0 pool (S k) m'
    /\ peak m' = peak m.
Proof.
  intros Hk Hinv. unfold churn_cleanup_body.
  destruct (lookup_lt_is_Some_2 pool k ltac:(lia)) as [p Hp].
  erewrite bind_ok; [|apply (pool_get_ok pool _ p); [lia | now rewrite Nat2Z.id]].
  destruct p as [|a].
  - rewrite (bind_ok _ _ _ _ _ (free_null m)).
    exists m. split; [reflexivity|]. split; [|reflexivity].
    destruct Hinv as [Hfreed Hlive Hother Hframe].
    constructor; try assumption.
    + intros j a Hj Hlt. destruct (decide (j = k)) as [->|Hne]; [congruence|].
      apply (Hfreed j); [exact Hj | lia].
    + intros j a Hj Hle. apply (Hlive j); [exact Hj | lia].
  - destruct (cl_live _ _ _ _ Hinv k a Hp ltac:(lia)) as [b Hb].
    rewrite (bind_ok _ _ _ _ _ (free_live a b m Hb)).
    eexists. split; [reflexivity|]. split; [|reflexivity].
    destruct Hinv as [Hfreed Hlive Hother Hframe].
    constructor; cbn [heap set_heap].
    + intros j a' Hj Hlt. destruct (decide (a' = a)) as [->|Hne].
      * apply lookup_delete_eq.
      * rewrite lookup_delete_ne by congruence.
        apply (Hfreed j); [exact Hj|].
        destruct (decide (j = k)) as [->|Hjk]; [congruence | lia].
    + intros j a' Hj Hle.
      assert (a' <> a).
      { intros ->. pose proof (pool_distinct _ _ _ Hj Hp). lia. }
      rewrite lookup_delete_ne by congruence. apply (Hlive j); [exact Hj | lia].
    + intros a' Ha' Hnot. destruct (decide (a' = a)) as [->|Hne].
      * apply lookup_delete_eq.
      * rewrite lookup_delete_ne by congruence. now apply Hother.
    + intros a' b' Ha'.
      assert (a' <> a).
      { intros ->. rewrite (pool_fresh _ _ Hp) in Ha'. discriminate. }
      rewrite lookup_delete_ne by congruence. now apply Hframe.
Qed.

Lemma churn_cleanup_spec (m : machine) :
  cleanup_inv h0 pool 0 m ->
  exists m',
    for_lt 0 POOL 1 churn_cleanup_body pool m = Ok pool m'
    /\ heap m' = h0 /\ peak m' = peak m.
Proof.
  intros Hinv.
  pose proof (total_for_lt
    (fun k s m' => s = pool /\ cleanup_inv h0 pool k m' /\ peak m' = peak m)
    churn_cleanup_body 0 POOL 1 pool) as Hloop.
  destruct (Hloop) with (m := m) as (s & m' & E & -> & Hfin & Hpk).
  - intros k s Hk m1 (-> & Hinv1 & Hpk1).
    rewrite trip_count_unit in Hk.
    destruct (churn_cleanup_body_spec k m1 Hk Hinv1) as (m2 & E2 & Hinv2 & Hpk2).
    exists pool, m2. rewrite Z.mul_1_r, Z.add_0_l.
    split; [exact E2|]. split; [reflexivity|]. split; [exact Hinv2|]. congruence.
  - split; [reflexivity|]. split; [exact Hinv | reflexivity].
  - exists m'. split; [exact E|]. split; [|exact Hpk].
    rewrite trip_count_unit in Hfin.
    destruct Hfin as [Hfreed _ Hother Hframe].
    apply map_eq. intros a. destruct (h0 !! a) as [b|] eqn:Ea.
    + now apply Hframe.
    + destruct (heap m' !! a) as [b|] eqn:Eh; [|reflexivity].
      rewrite <- Eh. apply Hother; [exact Ea|].
      intros j Hj. pose proof (lookup_lt_Some _ _ _ Hj) as Hlt.
      rewrite (Hfreed j a Hj) in Eh; [discriminate | lia].
Qed.

End ChurnCleanup.

Lemma churn_inv_cleanup h0 pk0 pool m :
  churn_inv h0 pk0 pool m -> cleanup_inv h0 pool 0 m.
Proof.
  intros Hinv. constructor.
  - intros j a _ Hlt. lia.
  - intros j a Hj _. now apply (ci_owned _ _ _ _ Hinv j).
  - apply (ci_other _ _ _ _ Hinv).
  - apply (ci_frame _ _ _ _ Hinv).
Qed.

Lemma phase_churn_spec `{!Allocator} (rounds : Z) (m : machine) :
  exists m',
    phase_churn rounds m = Ok tt m'
    /\ heap m' = heap m
    /\ (peak m' <= Nat.max (peak m) (size (heap m) + Z.to_nat POOL))%nat.
Proof.
  unfold phase_churn, churn_loop, for_lt.
  destruct (churn_iterations (heap m) (peak m) (trip_count 0 rounds 1) 0
              (replicate (Z.to_nat POOL) NULL) m) as (pool & m1 & E1 & Hinv);
    [now apply churn_inv_init|].
  rewrite (bind_ok _ _ _ _ _ E1).
  destruct (churn_cleanup_spec (heap m) pool (ci_len _ _ _ _ Hinv)
              (fun i a Hi => proj1 (ci_owned _ _ _ _ Hinv i a Hi))
              (ci_distinct _ _ _ _ Hinv) m1 (churn_inv_cleanup _ _ _ _ Hinv))
    as (m2 & E2 & Hheap & Hpk).
  fold (for_lt 0 POOL 1 churn_cleanup_body pool).
  rewrite (bind_ok _ _ _ _ _ E2).
  exists m2. split; [reflexivity|]. split; [exact Hheap|].
  rewrite Hpk. apply (ci_peak _ _ _ _ Hinv).
Qed.

(** C4: the churn phase returns with the heap exactly as it found it (none
    of its buffers remains live), and at every iteration the buffers of the
    phase that are live are the occupied slots, at most [POOL = 2048] of
    them, the high-water mark of the heap never exceeding what the phase
    started with plus 2048; within the iteration, the release step leaves
    the drawn slot empty, its former buffer freed, before the refill step
    writes the slot. *)
Theorem churn_bounded_and_leak_free `{!Allocator} (rounds : Z) (m : machine) :
  (exists m',
      phase_churn rounds m = Ok tt m'
      /\ heap m' = heap m
      /\ (peak m' <= Nat.max (peak m) (size (heap m) + 2048))%nat)
  /\ (forall k : nat,
        (k <= Z.to_nat rounds)%nat ->
        exists pool mk,
          iterate k 0 1 churn_body (replicate 2048 NULL) m = Ok pool mk
          /\ length pool = 2048%nat
          /\ size (heap mk) = (size (heap m) + live_slots pool)%nat
          /\ (live_slots pool <= 2048)%nat
          /\ (peak mk <= Nat.max (peak m) (size (heap m) + 2048))%nat
          /\ exists x mk0 pool' mk' pool'' mk'',
               xorshift64 mk = Ok x mk0
               /\ 0 <= x mod POOL < 2048
               /\ churn_release (x mod POOL) pool mk0 = Ok pool' mk'
               /\ pool' !! Z.to_nat (x mod POOL) = Some NULL
               /\ (forall a, pool !! Z.to_nat (x mod POOL) = Some (Addr a) ->
                     heap mk' !! a = None)
               /\ churn_refill (Z.of_nat k) (x mod POOL) pool' mk'
                  = Ok pool'' mk''
               /\ churn_body (Z.of_nat k) pool mk = Ok pool'' mk''
               /\ size (heap mk'') = (size (heap m) + live_slots pool'')%nat
               /\ (live_slots pool'' <= 2048)%nat
               /\ (peak mk'' <= Nat.max (peak m) (size (heap m) + 2048))%nat).
Proof.
  split; [apply phase_churn_spec|].
  intros k _.
  destruct (churn_iterations (heap m) (peak m) k 0
              (replicate (Z.to_nat POOL) NULL) m) as (pool & mk & E & Hinv);
    [now apply churn_inv_init|].
  assert (Hbound : forall p m1, churn_inv (heap m) (peak m) p m1 ->
            (live_slots p <= 2048)%nat).
  { intros p m1 Hi. pose proof (live_slots_le p) as Hle.
    rewrite (ci_len _ _ _ _ Hi) in Hle. exact Hle. }
  exists pool, mk. split; [exact E|].
  split; [apply (ci_len _ _ _ _ Hinv)|].
  split; [apply (ci_size _ _ _ _ Hinv)|].
  split; [now apply (Hbound pool mk)|].
  split; [apply (ci_peak _ _ _ _ Hinv)|].
  set (x := xorshift64_mix (rng_state mk)).
  assert (Hidx : 0 <= x mod POOL < POOL)
    by (apply Z.mod_pos_bound; reflexivity).
  destruct (churn_release_spec (heap m) (peak m) (x mod POOL) pool
              (set_rng x mk) (churn_inv_rng _ _ _ _ x Hinv) Hidx)
    as (pool' & mk' & E' & Hinv' & Hnull & Hfreed & _).
  destruct (churn_refill_spec (heap m) (peak m) (Z.of_nat k) (x mod POOL)
              pool' mk' Hinv' Hidx Hnull) as (pool'' & mk'' & E'' & Hinv'').
  exists x, (set_rng x mk), pool', mk', pool'', mk''.
  split; [reflexivity|]. split; [exact Hidx|]. split; [exact E'|].
  split; [exact Hnull|]. split; [exact Hfreed|]. split; [exact E''|].
  split.
  { unfold churn_body.
    rewrite (bind_ok _ _ _ _ _ (eq_refl : xorshift64 mk = Ok x (set_rng x mk))).
    now rewrite (bind_ok _ _ _ _ _ E'). }
  split; [apply (ci_size _ _ _ _ Hinv'')|].
  split; [now apply (Hbound pool'' mk'') | apply (ci_peak _ _ _ _ Hinv'')].
Qed.

(** ** Phases 2 and 3: the handle table *)

Lemma accumulate_body_fill `{!Allocator} :
  accumulate_body = fill_slot 4096 65536 0xAB.
Proof. reflexivity. Qed.

Lemma fragment_alloc_body_fill `{!Allocator} :
  fragment_alloc_body = fill_slot 128 8192 0xCD.
Proof. reflexivity. Qed.

Section Table.
Context `{!Allocator}.
Variable h0 : gmap addr block.
Variable t : addr.

Lemma tab_inv_rng ps m x : tab_inv h0 t ps m -> tab_inv h0 t ps (set_rng x m).
Proof. intros []. constructor; assumption. Qed.

(** Allocating into a slot that holds no live handle. *)
Lemma fill_slot_spec lo hi c i ps m :
  tab_inv h0 t ps m ->
  0 <= lo -> lo < hi -> hi < 2 ^ 64 ->
  0 <= i < Z.of_nat (length ps) ->
  (forall a, ps !! Z.to_nat i <> Some (Some (Addr a))) ->
  exists p m',
    fill_slot lo hi c (Addr t) i tt m = Ok tt m'
    /\ tab_inv h0 t (<[Z.to_nat i := Some p]> ps) m'
    /\ (forall a b, a <> t -> heap m !! a = Some b -> heap m' !! a = Some b)
    /\ (forall a, p = Addr a ->
          heap m !! a = None
          /\ exists b, heap m' !! a = Some b /\ filled lo hi (c mod 256) b).
Proof.
  intros Hinv Hlo Hlt Hhi Hi Hslot. unfold fill_slot.
  destruct (rand_range_ok lo hi m Hlo Hlt Hhi) as (sz & Hsz & Er).
  rewrite (bind_ok _ _ _ _ _ Er).
  set (m1 := set_rng (xorshift64_mix (rng_state m)) m).
  assert (Hinv1 : tab_inv h0 t ps m1) by now apply tab_inv_rng.
  destruct Hinv as [Htab Htf Hlive Hdist Hframe Hother].
  destruct (malloc_cases sz m1) as [Em|(a & Hfresh & Em)];
    rewrite (bind_ok _ _ _ _ _ Em); clear Em.
  - (* refused *)
    set (m2 := Machine _ _ _ _).
    assert (Htab2 : table_at t ps m2) by exact Htab.
    rewrite (bind_ok _ _ _ _ _ (store_ptr_ok t ps i NULL m2 Htab2 Hi)).
    set (ps' := <[Z.to_nat i := Some NULL]> ps).
    set (m3 := set_heap _ _).
    assert (Htab3 : table_at t ps' m3).
    { exists (Slots ps'). split; [apply lookup_insert_eq | reflexivity]. }
    assert (Hps' : ps' !! Z.to_nat i = Some (Some NULL))
      by (apply list_lookup_insert_eq; lia).
    rewrite (bind_ok _ _ _ _ _ (load_ptr_ok t ps' i NULL m3 Htab3 (proj1 Hi) Hps')).
    exists NULL, m3. split; [reflexivity|].
    assert (Hold : forall j a, ps' !! j = Some (Some (Addr a)) ->
              ps !! j = Some (Some (Addr a))).
    { intros j a Hj.
      apply list_lookup_insert_Some in Hj as [(_ & ? & _)|[_ Hj]];
        [discriminate | exact Hj]. }
    split; [constructor|]; cbn [heap set_heap m3 m2 m1 set_rng].
    + exact Htab3.
    + exact Htf.
    + intros j a Hj. destruct (Hlive j a (Hold j a Hj)) as (Hat & Hah & Hal).
      rewrite lookup_insert_ne by congruence. auto.
    + intros j1 j2 a H1 H2. eapply Hdist; eauto.
    + intros a b Ha. rewrite lookup_insert_ne by congruence. now apply Hframe.
    + intros a Hat Hah Hnot. rewrite lookup_insert_ne by congruence.
      apply Hother; [exact Hat | exact Hah |].
      intros j Hj. apply (Hnot j). unfold ps'.
      rewrite list_lookup_insert_ne; [exact Hj|].
      intros <-. exact (Hslot a Hj).
    + split.
      * intros a b Hat Ha. now rewrite lookup_insert_ne by congruence.
      * intros a [=].
  - (* granted *)
    cbn [heap set_rng m1] in Hfresh.
    assert (Hat : a <> t).
    { intros ->. destruct Htab as (b & Hb & _). congruence. }
    assert (Hah : h0 !! a = None).
    { destruct (h0 !! a) as [b|] eqn:E; [|reflexivity].
      rewrite (Hframe _ _ E) in Hfresh. discriminate. }
    assert (Hnot : forall j, ps !! j <> Some (Some (Addr a))).
    { intros j Hj. destruct (Hlive j a Hj) as (_ & _ & [b Hb]). congruence. }
    set (m2 := Machine _ _ _ _).
    assert (Htab2 : table_at t ps m2).
    { destruct Htab as (b & Hb & Hs). exists b. split; [|exact Hs].
      cbn [heap m2 m1 set_rng]. now rewrite lookup_insert_ne by congruence. }
    rewrite (bind_ok _ _ _ _ _ (store_ptr_ok t ps i (Addr a) m2 Htab2 Hi)).
    set (ps' := <[Z.to_nat i := Some (Addr a)]> ps).
    set (m3 := set_heap _ _).
    assert (Htab3 : table_at t ps' m3).
    { exists (Slots ps'). split; [apply lookup_insert_eq | reflexivity]. }
    assert (Hps' : ps' !! Z.to_nat i = Some (Some (Addr a)))
      by (apply list_lookup_insert_eq; lia).
    rewrite (bind_ok _ _ _ _ _
               (load_ptr_ok t ps' i (Addr a) m3 Htab3 (proj1 Hi) Hps')).
    rewrite (bind_ok _ _ _ _ _
               (load_ptr_ok t ps' i (Addr a) m3 Htab3 (proj1 Hi) Hps')).
    assert (Hraw : heap m3 !! a = Some (Raw sz)).
    { cbn [heap set_heap m3 m2 m1 set_rng].
      rewrite lookup_insert_ne by congruence. apply lookup_insert_eq. }
    rewrite (memset_raw a sz c m3 Hraw ltac:(lia)).
    exists (Addr a). eexists. split; [reflexivity|].
    assert (Hcase : forall j a', ps' !! j = Some (Some (Addr a')) ->
              (j = Z.to_nat i /\ a' = a)
              \/ (j <> Z.to_nat i /\ ps !! j = Some (Some (Addr a')) /\ a' <> a)).
    { intros j a' Hj.
      apply list_lookup_insert_Some in Hj as [(<- & [= <-] & _)|[Hn Hj]].
      - now left.
      - right. split; [congruence|]. split; [exact Hj|].
        intros ->. exact (Hnot j Hj). }
    assert (Hlook : forall a', a' <> t -> a' <> a ->
              heap (set_heap
                      (<[a := Bytes (replicate (Z.to_nat sz) (Some (c mod 256)))]>
                         (heap m3)) m3) !! a' = heap m !! a').
    { intros a' H1 H2. cbn [heap set_heap m3 m2 m1 set_rng].
      now rewrite !lookup_insert_ne by congruence. }
    split; [constructor|].
    + exists (Slots ps'). split; [|reflexivity].
      cbn [heap set_heap m3 m2 m1 set_rng].
      rewrite lookup_insert_ne by congruence. apply lookup_insert_eq.
    + exact Htf.
    + intros j a' Hj. destruct (Hcase j a' Hj) as [[_ ->]|(_ & Hj' & Hna)].
      * split; [exact Hat|]. split; [exact Hah|].
        cbn [heap set_heap]. rewrite lookup_insert_eq. eauto.
      * destruct (Hlive j a' Hj') as (H1 & H2 & H3).
        rewrite Hlook by assumption. auto.
    + intros j1 j2 a' H1 H2.
      destruct (Hcase _ _ H1) as [[-> ->]|(Hn1 & H1' & Hna1)];
        destruct (Hcase _ _ H2) as [[-> Ha2]|(Hn2 & H2' & Hna2)];
        try congruence.
      eapply Hdist; eassumption.
    + intros a' b Ha'.
      assert (a' <> t) by congruence. assert (a' <> a) by congruence.
      rewrite Hlook by assumption. now apply Hframe.
    + intros a' H1 H2 Hnot'.
      assert (a' <> a) by (intros ->; exact (Hnot' _ Hps')).
      rewrite Hlook by assumption.
      apply Hother; [exact H1 | exact H2 |].
      intros j Hj. apply (Hnot' j). unfold ps'.
      rewrite list_lookup_insert_ne; [exact Hj|].
      intros <-. exact (Hslot a' Hj).
    + split.
      * intros a' b H1 Ha'.
        assert (a' <> a) by congruence.
        rewrite Hlook by assumption. exact Ha'.
      * intros a' [= <-]. split; [exact Hfresh|].
        eexists. split; [cbn [heap set_heap]; apply lookup_insert_eq|].
        exists sz. split; [exact Hsz | reflexivity].
Qed.

(** Lines 112-113: free the entry and clear the slot. *)
Lemma fragment_free_body_spec i p ps m :
  tab_inv h0 t ps m ->
  0 <= i < Z.of_nat (length ps) ->
  ps !! Z.to_nat i = Some (Some p) ->
  exists m',
    fragment_free_body (Addr t) i tt m = Ok tt m'
    /\ tab_inv h0 t (<[Z.to_nat i := Some NULL]> ps) m'
    /\ (forall a, p = Addr a -> heap m' !! a = None)
    /\ (forall a, a <> t -> p <> Addr a -> heap m' !! a = heap m !! a).
Proof.
  intros Hinv Hi Hp. unfold fragment_free_body.
  pose proof Hinv as [Htab Htf Hlive Hdist Hframe Hother].
  rewrite (bind_ok _ _ _ _ _ (load_ptr_ok t ps i p m Htab (proj1 Hi) Hp)).
  set (ps' := <[Z.to_nat i := Some NULL]> ps).
  assert (Hold : forall j a, ps' !! j = Some (Some (Addr a)) ->
            j <> Z.to_nat i /\ ps !! j = Some (Some (Addr a))).
  { intros j a Hj.
    apply list_lookup_insert_Some in Hj as [(_ & ? & _)|[Hn Hj]];
      [discriminate | split; [congruence | exact Hj]]. }
  destruct p as [|a].
  - rewrite (bind_ok _ _ _ _ _ (free_null m)).
    rewrite (store_ptr_ok t ps i NULL m Htab Hi).
    eexists. split; [reflexivity|].
    split; [constructor|]; cbn [heap set_heap].
    + exists (Slots ps'). split; [apply lookup_insert_eq | reflexivity].
    + exact Htf.
    + intros j a Hj. destruct (Hold j a Hj) as [_ Hj'].
      destruct (Hlive j a Hj') as (H1 & H2 & H3).
      rewrite lookup_insert_ne by congruence. auto.
    + intros j1 j2 a H1 H2.
      eapply Hdist; [apply (Hold _ _ H1) | apply (Hold _ _ H2)].
    + intros a b Ha. rewrite lookup_insert_ne by congruence. now apply Hframe.
    + intros a H1 H2 Hnot. rewrite lookup_insert_ne by congruence.
      apply Hother; [exact H1 | exact H2 |].
      intros j Hj. apply (Hnot j). unfold ps'.
      rewrite list_lookup_insert_ne; [exact Hj|].
      intros <-. rewrite Hp in Hj. discriminate.
    + split; [intros a [=]|].
      intros a H1 _. now rewrite lookup_insert_ne by congruence.
  - destruct (Hlive _ a Hp) as (Hat & Hah & [b Hb]).
    rewrite (bind_ok _ _ _ _ _ (free_live a b m Hb)).
    set (m1 := set_heap _ m).
    assert (Htab1 : table_at t ps m1).
    { destruct Htab as (bt & Hbt & Hs). exists bt. split; [|exact Hs].
      cbn [heap set_heap m1]. now rewrite lookup_delete_ne by congruence. }
    rewrite (store_ptr_ok t ps i NULL m1 Htab1 Hi).
    eexists. split; [reflexivity|].
    assert (Hna : forall j a', ps' !! j = Some (Some (Addr a')) -> a' <> a).
    { intros j a' Hj ->. destruct (Hold j a Hj) as [Hn Hj'].
      apply Hn. eapply Hdist; eassumption. }
    split; [constructor|]; cbn [heap set_heap m1].
    + exists (Slots ps'). split; [apply lookup_insert_eq | reflexivity].
    + exact Htf.
    + intros j a' Hj. destruct (Hold j a' Hj) as [_ Hj'].
      destruct (Hlive j a' Hj') as (H1 & H2 & H3).
      pose proof (Hna j a' Hj).
      rewrite lookup_insert_ne, lookup_delete_ne by congruence. auto.
    + intros j1 j2 a' H1 H2.
      eapply Hdist; [apply (Hold _ _ H1) | apply (Hold _ _ H2)].
    + intros a' b' Ha'.
      rewrite lookup_insert_ne, lookup_delete_ne by congruence.
      now apply Hframe.
    + intros a' H1 H2 Hnot. rewrite lookup_insert_ne by congruence.
      destruct (decide (a' = a)) as [->|Hne]; [apply lookup_delete_eq|].
      rewrite lookup_delete_ne by congruence.
      apply Hother; [exact H1 | exact H2 |].
      intros j Hj. apply (Hnot j). unfold ps'.
      rewrite list_lookup_insert_ne; [exact Hj|].
      intros <-. rewrite Hp in Hj. congruence.
    + split.
      * intros a' [= <-]. rewrite lookup_insert_ne by congruence.
        apply lookup_delete_eq.
      * intros a' H1 H2.
        rewrite lookup_insert_ne, lookup_delete_ne by congruence. reflexivity.
Qed.

End Table.

(** ** What each pass of a filling loop stores *)

Section Exact.
Context `{!Allocator}.

Lemma rand_range_value lo hi m :
  0 <= lo -> lo < hi -> hi < 2 ^ 64 ->
  rand_range lo hi m = Ok (slot_size lo hi m) (slot_request m)
  /\ lo <= slot_size lo hi m < hi.
Proof.
  intros Hlo Hlt Hhi. unfold slot_size, slot_request.
  assert (Hd : wrap64 (hi - lo) = hi - lo)
    by (apply wrap64_small; unfold in_u64; lia).
  pose proof (Z.mod_pos_bound (xorshift64_mix (rng_state m)) (hi - lo)) as Hb.
  split; [|lia].
  unfold rand_range, bind, xorshift64. rewrite Hd.
  destruct (Z.eqb_spec (hi - lo) 0) as [E|_]; [lia|].
  unfold ret. f_equal. apply wrap64_small. unfold in_u64; lia.
Qed.

Lemma malloc_value sz m :
  exists m', malloc sz m = Ok (ptr_of (pick (mallocs m) (heap m) sz)) m'.
Proof.
  unfold malloc. destruct (pick (mallocs m) (heap m) sz); eexists; reflexivity.
Qed.

Lemma ptr_of_null o : ptr_of o = NULL <-> o = None.
Proof. destruct o; cbn; split; congruence. Qed.

Lemma table_at_inj t ps ps' m : table_at t ps m -> table_at t ps' m -> ps = ps'.
Proof. intros (b & Hb & Hs) (b' & Hb' & Hs'). congruence. Qed.

(** What one pass stores, and where: the allocator's answer to the request
    for the drawn size, and the filled buffer behind it. *)
Lemma fill_slot_stores t lo hi c i ps m :
  table_at t ps m ->
  0 <= lo -> lo < hi -> hi < 2 ^ 64 ->
  0 <= i < Z.of_nat (length ps) ->
  exists m',
    fill_slot lo hi c (Addr t) i tt m = Ok tt m'
    /\ table_at t (<[Z.to_nat i := Some (ptr_of (slot_pick lo hi m))]> ps) m'
    /\ forall a, slot_pick lo hi m = Some a ->
         heap m' !! a
         = Some (Bytes (replicate (Z.to_nat (slot_size lo hi m))
                                  (Some (c mod 256)))).
Proof.
  intros Htab Hlo Hlt Hhi Hi. unfold fill_slot.
  destruct (rand_range_value lo hi m Hlo Hlt Hhi) as [Er Hsz].
  rewrite (bind_ok _ _ _ _ _ Er).
  unfold slot_pick. set (sz := slot_size lo hi m) in *.
  set (m1 := slot_request m).
  assert (Htab1 : table_at t ps m1) by exact Htab.
  unfold bind at 1, malloc.
  destruct (pick (mallocs m1) (heap m1) sz) as [a|] eqn:Ep; cbn [ptr_of].
  - pose proof (pick_fresh _ _ _ _ Ep) as Hfresh.
    assert (Hat : a <> t).
    { intros ->. destruct Htab1 as (b & Hb & _). congruence. }
    set (m2 := Machine _ _ _ _).
    assert (Htab2 : table_at t ps m2).
    { destruct Htab1 as (b & Hb & Hs). exists b. split; [|exact Hs].
      cbn [heap m2]. now rewrite lookup_insert_ne by congruence. }
    rewrite (bind_ok _ _ _ _ _ (store_ptr_ok t ps i (Addr a) m2 Htab2 Hi)).
    set (ps' := <[Z.to_nat i := Some (Addr a)]> ps).
    set (m3 := set_heap _ _).
    assert (Htab3 : table_at t ps' m3).
    { exists (Slots ps'). split; [apply lookup_insert_eq | reflexivity]. }
    assert (Hps' : ps' !! Z.to_nat i = Some (Some (Addr a)))
      by (apply list_lookup_insert_eq; lia).
    rewrite (bind_ok _ _ _ _ _
               (load_ptr_ok t ps' i (Addr a) m3 Htab3 (proj1 Hi) Hps')).
    rewrite (bind_ok _ _ _ _ _
               (load_ptr_ok t ps' i (Addr a) m3 Htab3 (proj1 Hi) Hps')).
    assert (Hraw : heap m3 !! a = Some (Raw sz)).
    { cbn [heap set_heap m3 m2].
      rewrite lookup_insert_ne by congruence. apply lookup_insert_eq. }
    rewrite (memset_raw a sz c m3 Hraw ltac:(lia)).
    eexists. split; [reflexivity|]. split.
    + exists (Slots ps'). split; [|reflexivity].
      cbn [heap set_heap m3 m2].
      rewrite lookup_insert_ne by congruence. apply lookup_insert_eq.
    + intros a' [= <-]. cbn [heap set_heap]. apply lookup_insert_eq.
  - set (m2 := Machine _ _ _ _).
    assert (Htab2 : table_at t ps m2) by exact Htab1.
    rewrite (bind_ok _ _ _ _ _ (store_ptr_ok t ps i NULL m2 Htab2 Hi)).
    set (ps' := <[Z.to_nat i := Some NULL]> ps).
    set (m3 := set_heap _ _).
    assert (Htab3 : table_at t ps' m3).
    { exists (Slots ps'). split; [apply lookup_insert_eq | reflexivity]. }
    assert (Hps' : ps' !! Z.to_nat i = Some (Some NULL))
      by (apply list_lookup_insert_eq; lia).
    rewrite (bind_ok _ _ _ _ _ (load_ptr_ok t ps' i NULL m3 Htab3 (proj1 Hi) Hps')).
    exists m3. split; [reflexivity|]. split; [exact Htab3|]. intros a [=].
Qed.

(** The run of one pass in the program's own terms. *)
Lemma slot_pass lo hi mj :
  0 <= lo -> lo < hi -> hi < 2 ^ 64 ->
  exists mj'',
    rand_range lo hi mj = Ok (slot_size lo hi mj) (slot_request mj)
    /\ lo <= slot_size lo hi mj < hi
    /\ malloc (slot_size lo hi mj) (slot_request mj)
       = Ok (ptr_of (slot_pick lo hi mj)) mj''.
Proof.
  intros Hlo Hlt Hhi.
  destruct (rand_range_value lo hi mj Hlo Hlt Hhi) as [Er Hsz].
  destruct (malloc_value (slot_size lo hi mj) (slot_request mj)) as [mj'' Em].
  exists mj''. split; [exact Er|]. split; [exact Hsz | exact Em].
Qed.

Lemma slot_trace_start lo hi c t i0 step m1 ps :
  slot_trace lo hi c t i0 step m1 0 ps m1.
Proof. split; [reflexivity|]. intros j Hj. lia. Qed.

Lemma slot_trace_step h0 t lo hi c i0 step m1 k ps m p m' :
  tab_inv h0 t ps m ->
  slot_trace lo hi c t i0 step m1 k ps m ->
  0 <= lo -> lo < hi -> hi < 2 ^ 64 ->
  0 <= i0 -> 0 < step ->
  i0 + Z.of_nat k * step < Z.of_nat (length ps) ->
  fill_slot lo hi c (Addr t) (i0 + Z.of_nat k * step) tt m = Ok tt m' ->
  table_at t (<[Z.to_nat (i0 + Z.of_nat k * step) := Some p]> ps) m' ->
  (forall a b, a <> t -> heap m !! a = Some b -> heap m' !! a = Some b) ->
  slot_trace lo hi c t i0 step m1 (Datatypes.S k)
    (<[Z.to_nat (i0 + Z.of_nat k * step) := Some p]> ps) m'.
Proof.
  intros Hinv [Erun Hold] Hlo Hlt Hhi Hi0 Hstep Hi E Htab' Hkeep.
  set (i := i0 + Z.of_nat k * step) in *.
  destruct (fill_slot_stores t lo hi c i ps m (ti_tab _ _ _ _ Hinv) Hlo Hlt Hhi)
    as (m'' & E' & Htab'' & Hnew); [nia|].
  assert (m'' = m') as -> by congruence.
  pose proof (table_at_inj _ _ _ _ Htab' Htab'') as Heq.
  assert (Hp : Some p = Some (ptr_of (slot_pick lo hi m))).
  { apply (f_equal (fun l => l !! Z.to_nat i)) in Heq.
    rewrite !list_lookup_insert_eq in Heq by nia. congruence. }
  injection Hp as ->.
  split; [exact (iterate_snoc _ _ _ _ _ _ _ _ _ _ Erun E)|].
  intros j Hj. destruct (decide (j = k)) as [->|Hne].
  - exists m. split; [exact Erun|]. fold i.
    split; [apply list_lookup_insert_eq; nia | exact Hnew].
  - destruct (Hold j ltac:(lia)) as (mj & Ej & Hj' & Hfill).
    exists mj. split; [exact Ej|]. split.
    + rewrite list_lookup_insert_ne; [exact Hj'|]. unfold i. nia.
    + intros a Ha. apply Hkeep; [|now apply Hfill].
      rewrite Ha in Hj'. cbn [ptr_of] in Hj'.
      apply (ti_live _ _ _ _ Hinv _ a Hj').
Qed.

End Exact.

(** ** Phase 2: accumulate *)

Section Accumulate.
Context `{!Allocator}.
Variable h0 : gmap addr block.
Variable t : addr.
Variable n : nat.

Lemma accumulate_body_spec k ps m :
  (k < n)%nat -> accum_inv h0 t n k ps m ->
  exists ps' m',
    accumulate_body (Addr t) (Z.of_nat k) tt m = Ok tt m'
    /\ accum_inv h0 t n (S k) ps' m'.
Proof.
  intros Hk [Htab Hlen Hinit Hrest Hfill].
  rewrite accumulate_body_fill.
  destruct (fill_slot_spec h0 t 4096 65536 0xAB (Z.of_nat k) ps m Htab)
    as (p & m' & E & Htab' & Hkeep & Hnew); try lia.
  { rewrite Nat2Z.id, (Hrest k) by lia. discriminate. }
  rewrite Nat2Z.id in Htab'.
  exists (<[k := Some p]> ps), m'. split; [exact E|].
  constructor.
  - exact Htab'.
  - now rewrite length_insert.
  - intros j Hj Hjn. destruct (decide (j = k)) as [->|Hne].
    + exists p. apply list_lookup_insert_eq. lia.
    + rewrite list_lookup_insert_ne by congruence. apply Hinit; lia.
  - intros j Hj Hjn. rewrite list_lookup_insert_ne by lia. apply Hrest; lia.
  - intros j a Hj.
    apply list_lookup_insert_Some in Hj as [(<- & [= ->] & _)|[Hne Hj]].
    + destruct (Hnew a eq_refl) as (_ & b & Hb & Hf). eauto.
    + destruct (Hfill j a Hj) as (b & Hb & Hf).
      exists b. split; [|exact Hf].
      apply Hkeep; [|exact Hb]. apply (ti_live _ _ _ _ Htab j a Hj).
Qed.

Lemma accumulate_loop_spec ps m :
  accum_inv h0 t n 0 ps m ->
  exists ps' m',
    for_lt 0 (Z.of_nat n) 1 (accumulate_body (Addr t)) tt m = Ok tt m'
    /\ accum_inv h0 t n n ps' m'.
Proof.
  intros Hinv.
  pose proof (total_for_lt
    (fun k (_ : unit) m' => exists ps', accum_inv h0 t n k ps' m')
    (accumulate_body (Addr t)) 0 (Z.of_nat n) 1 tt) as Hloop.
  rewrite trip_count_unit, Nat2Z.id in Hloop.
  destruct Hloop with (m := m) as ([] & m' & E & ps' & Hfin).
  - intros k [] Hk m1 (ps1 & Hinv1).
    destruct (accumulate_body_spec k ps1 m1 Hk Hinv1) as (ps2 & m2 & E2 & Hinv2).
    exists tt, m2. rewrite Z.mul_1_r, Z.add_0_l. split; [exact E2 | eauto].
  - eauto.
  - eauto.
Qed.

End Accumulate.

Lemma table_bytes count :
  0 <= count < 2 ^ 31 ->
  wrap64 (PTR_SIZE * wrap64 count) = PTR_SIZE * count.
Proof.
  intros H. unfold PTR_SIZE.
  rewrite (wrap64_small count) by (unfold in_u64; lia).
  apply wrap64_small. unfold in_u64. lia.
Qed.

Lemma phase_accumulate_spec `{!Allocator} (count : Z) (m : machine) (t : addr) :
  0 <= count < 2 ^ 31 ->
  pick (mallocs m) (heap m) (wrap64 (PTR_SIZE * wrap64 count)) = Some t ->
  exists ps m',
    phase_accumulate count m = Ok (Addr t, count) m'
    /\ accum_inv (heap m) t (Z.to_nat count) (Z.to_nat count) ps m'.
Proof.
  intros Hc Hpick. unfold phase_accumulate.
  assert (Em : malloc (wrap64 (PTR_SIZE * wrap64 count)) m
               = Ok (Addr t)
                   (Machine (rng_state m)
                      (<[t := Raw (PTR_SIZE * count)]> (heap m))
                      (S (mallocs m))
                      (Nat.max (peak m)
                         (size (<[t := Raw (PTR_SIZE * count)]> (heap m)))))).
  { unfold malloc. rewrite Hpick. now rewrite table_bytes. }
  rewrite (bind_ok _ _ _ _ _ Em). clear Em.
  set (m1 := Machine _ _ _ _).
  pose proof (pick_fresh _ _ _ _ Hpick) as Hfresh.
  assert (Hinv : accum_inv (heap m) t (Z.to_nat count) 0
                   (replicate (Z.to_nat count) None) m1).
  { constructor.
    - constructor; cbn [heap m1].
      + exists (Raw (PTR_SIZE * count)). split; [apply lookup_insert_eq|].
        cbn [as_slots]. do 2 f_equal. unfold PTR_SIZE.
        rewrite Z.mul_comm, Z.div_mul by lia. reflexivity.
      + exact Hfresh.
      + intros j a Hj. apply lookup_replicate in Hj as [? _]. discriminate.
      + intros i j a Hi. apply lookup_replicate in Hi as [? _]. discriminate.
      + intros a b Ha. rewrite lookup_insert_ne by congruence. exact Ha.
      + intros a Hat Ha _. now rewrite lookup_insert_ne by congruence.
    - apply length_replicate.
    - intros j Hj. lia.
    - intros j _ Hj. now apply lookup_replicate_2.
    - intros j a Hj. apply lookup_replicate in Hj as [? _]. discriminate. }
  destruct (accumulate_loop_spec (heap m) t (Z.to_nat count) _ m1 Hinv)
    as (ps & m' & E & Hfin).
  rewrite Z2Nat.id in E by lia.
  rewrite (bind_ok _ _ _ _ _ E).
  exists ps, m'. split; [reflexivity | exact Hfin].
Qed.

(** The loop of [phase_accumulate], with what each iteration stored. *)
Section AccumulateTrace.
Context `{!Allocator}.
Variable h0 : gmap addr block.
Variable t : addr.
Variable n : nat.
Variable m1 : machine.

Lemma accumulate_body_trace k ps m :
  (k < n)%nat -> accum_inv h0 t n k ps m ->
  slot_trace 4096 65536 0xAB t 0 1 m1 k ps m ->
  exists ps' m',
    accumulate_body (Addr t) (Z.of_nat k) tt m = Ok tt m'
    /\ accum_inv h0 t n (S k) ps' m'
    /\ slot_trace 4096 65536 0xAB t 0 1 m1 (S k) ps' m'.
Proof.
  intros Hk [Htab Hlen Hinit Hrest Hfill] Htrace.
  rewrite accumulate_body_fill.
  replace (Z.of_nat k) with (0 + Z.of_nat k * 1) by lia.
  destruct (fill_slot_spec h0 t 4096 65536 0xAB (0 + Z.of_nat k * 1) ps m Htab)
    as (p & m' & E & Htab' & Hkeep & Hnew); try lia.
  { replace (Z.to_nat (0 + Z.of_nat k * 1)) with k by lia.
    rewrite (Hrest k) by lia. discriminate. }
  exists (<[Z.to_nat (0 + Z.of_nat k * 1) := Some p]> ps), m'.
  split; [exact E|]. split.
  - replace (Z.to_nat (0 + Z.of_nat k * 1)) with k in * by lia.
    constructor.
    + exact Htab'.
    + now rewrite length_insert.
    + intros j Hj Hjn. destruct (decide (j = k)) as [->|Hne].
      * exists p. apply list_lookup_insert_eq. lia.
      * rewrite list_lookup_insert_ne by congruence. apply Hinit; lia.
    + intros j Hj Hjn. rewrite list_lookup_insert_ne by lia. apply Hrest; lia.
    + intros j a Hj.
      apply list_lookup_insert_Some in Hj as [(<- & [= ->] & _)|[Hne Hj]].
      * destruct (Hnew a eq_refl) as (_ & b & Hb & Hf). eauto.
      * destruct (Hfill j a Hj) as (b & Hb & Hf).
        exists b. split; [|exact Hf].
        apply Hkeep; [|exact Hb]. apply (ti_live _ _ _ _ Htab j a Hj).
  - apply (slot_trace_step h0 t 4096 65536 0xAB 0 1 m1 k ps m p m');
      try assumption; try lia.
    apply (ti_tab _ _ _ _ Htab').
Qed.

Lemma accumulate_loop_trace ps :
  accum_inv h0 t n 0 ps m1 ->
  exists ps' m',
    for_lt 0 (Z.of_nat n) 1 (accumulate_body (Addr t)) tt m1 = Ok tt m'
    /\ accum_inv h0 t n n ps' m'
    /\ slot_trace 4096 65536 0xAB t 0 1 m1 n ps' m'.
Proof.
  intros Hinv.
  pose proof (total_for_lt
    (fun k (_ : unit) m' =>
       exists ps', accum_inv h0 t n k ps' m'
                   /\ slot_trace 4096 65536 0xAB t 0 1 m1 k ps' m')
    (accumulate_body (Addr t)) 0 (Z.of_nat n) 1 tt) as Hloop.
  rewrite trip_count_unit, Nat2Z.id in Hloop.
  destruct Hloop with (m := m1) as ([] & m' & E & ps' & Hfin & Htr).
  - intros k [] Hk m (ps1 & Hinv1 & Htr1).
    destruct (accumulate_body_trace k ps1 m Hk Hinv1 Htr1)
      as (ps2 & m2 & E2 & Hinv2 & Htr2).
    exists tt, m2. rewrite Z.mul_1_r, Z.add_0_l. split; [exact E2 | eauto].
  - exists ps. split; [exact Hinv | apply slot_trace_start].
  - eauto.
Qed.

End AccumulateTrace.

Lemma phase_accumulate_trace `{!Allocator} (count : Z) (m : machine) (t : addr) :
  0 <= count < 2 ^ 31 ->
  pick (mallocs m) (heap m) (wrap64 (PTR_SIZE * wrap64 count)) = Some t ->
  exists m1 ps m',
    malloc (wrap64 (PTR_SIZE * wrap64 count)) m = Ok (Addr t) m1
    /\ phase_accumulate count m = Ok (Addr t, count) m'
    /\ accum_inv (heap m) t (Z.to_nat count) (Z.to_nat count) ps m'
    /\ slot_trace 4096 65536 0xAB t 0 1 m1 (Z.to_nat count) ps m'.
Proof.
  intros Hc Hpick. unfold phase_accumulate.
  assert (Em : malloc (wrap64 (PTR_SIZE * wrap64 count)) m
               = Ok (Addr t)
                   (Machine (rng_state m)
                      (<[t := Raw (PTR_SIZE * count)]> (heap m))
                      (S (mallocs m))
                      (Nat.max (peak m)
                         (size (<[t := Raw (PTR_SIZE * count)]> (heap m)))))).
  { unfold malloc. rewrite Hpick. now rewrite table_bytes. }
  rewrite (bind_ok _ _ _ _ _ Em).
  set (m1 := Machine _ _ _ _) in *.
  pose proof (pick_fresh _ _ _ _ Hpick) as Hfresh.
  assert (Hinv : accum_inv (heap m) t (Z.to_nat count) 0
                   (replicate (Z.to_nat count) None) m1).
  { constructor.
    - constructor; cbn [heap m1].
      + exists (Raw (PTR_SIZE * count)). split; [apply lookup_insert_eq|].
        cbn [as_slots]. do 2 f_equal. unfold PTR_SIZE.
        rewrite Z.mul_comm, Z.div_mul by lia. reflexivity.
      + exact Hfresh.
      + intros j a Hj. apply lookup_replicate in Hj as [? _]. discriminate.
      + intros i j a Hi. apply lookup_replicate in Hi as [? _]. discriminate.
      + intros a b Ha. rewrite lookup_insert_ne by congruence. exact Ha.
      + intros a Hat Ha _. now rewrite lookup_insert_ne by congruence.
    - apply length_replicate.
    - intros j Hj. lia.
    - intros j _ Hj. now apply lookup_replicate_2.
    - intros j a Hj. apply lookup_replicate in Hj as [? _]. discriminate. }
  destruct (accumulate_loop_trace (heap m) t (Z.to_nat count) m1 _ Hinv)
    as (ps & m' & E & Hfin & Htr).
  rewrite Z2Nat.id in E by lia.
  rewrite (bind_ok _ _ _ _ _ E).
  exists m1, ps, m'. split; [exact Em|]. split; [reflexivity|].
  split; [exact Hfin | exact Htr].
Qed.

(** C5: when the handle list itself is granted, [phase_accumulate count]
    returns it with the reported length [count], and the list has exactly
    [count] entries.  Entry [j] is what [malloc] returned in iteration [j]
    of the loop, run on the machine the first [j] iterations lead to, for
    the size that iteration drew from [4096, 65536): it is null exactly
    when the allocator refused that request, and otherwise names a live
    buffer of the drawn size whose every byte is [0xAB]. *)
Theorem accumulate_contract `{!Allocator} (count : Z) (m : machine) (t : addr) :
  0 <= count < 2 ^ 31 ->
  pick (mallocs m) (heap m) (wrap64 (PTR_SIZE * wrap64 count)) = Some t ->
  exists m1 ps m',
    malloc (wrap64 (PTR_SIZE * wrap64 count)) m = Ok (Addr t) m1
    /\ phase_accumulate count m = Ok (Addr t, count) m'
    /\ table_at t ps m'
    /\ Z.of_nat (length ps) = count
    /\ forall j : nat,
         (j < length ps)%nat ->
         exists mj sz mj' p mj'',
           iterate j 0 1 (accumulate_body (Addr t)) tt m1 = Ok tt mj
           /\ rand_range 4096 65536 mj = Ok sz mj'
           /\ 4096 <= sz < 65536
           /\ malloc sz mj' = Ok p mj''
           /\ (p = NULL <-> pick (mallocs mj') (heap mj') sz = None)
           /\ ps !! j = Some (Some p)
           /\ forall a, p = Addr a ->
                heap m' !! a
                = Some (Bytes (replicate (Z.to_nat sz) (Some 0xAB))).
Proof.
  intros Hc Hpick.
  destruct (phase_accumulate_trace count m t Hc Hpick)
    as (m1 & ps & m' & Em & E & [Htab Hlen _ _ _] & [_ Htr]).
  exists m1, ps, m'. split; [exact Em|]. split; [exact E|].
  split; [apply (ti_tab _ _ _ _ Htab)|].
  split; [rewrite Hlen; lia|].
  intros j Hj. rewrite Hlen in Hj.
  destruct (Htr j Hj) as (mj & Ej & Hpj & Hfill).
  destruct (slot_pass 4096 65536 mj) as (mj'' & Er & Hsz & Emj); [lia..|].
  exists mj, (slot_size 4096 65536 mj), (slot_request mj),
    (ptr_of (slot_pick 4096 65536 mj)), mj''.
  split; [exact Ej|]. split; [exact Er|]. split; [exact Hsz|].
  split; [exact Emj|]. split; [apply ptr_of_null|].
  split.
  - replace (Z.to_nat (0 + Z.of_nat j * 1)) with j in Hpj by lia. exact Hpj.
  - intros a Ha. apply Hfill.
    destruct (slot_pick 4096 65536 mj); cbn [ptr_of] in Ha; congruence.
Qed.

(** ** Phase 3: fragment *)

Lemma odd_index k : Z.to_nat (1 + Z.of_nat k * 2) = S (2 * k).
Proof. lia. Qed.

Lemma odd_succ_double k : Nat.odd (S (2 * k)) = true.
Proof. rewrite Nat.odd_succ. apply Nat.even_even. Qed.

Lemma odd_below_next j k :
  Nat.odd j = true -> (j < 2 * S k)%nat -> j = S (2 * k) \/ (j < 2 * k)%nat.
Proof.
  intros Hodd Hj. destruct (decide (j = 2 * k)%nat) as [->|Hne]; [|lia].
  rewrite Nat.odd_even in Hodd. discriminate.
Qed.

Lemma trip_count_odd_lt k n :
  (k < trip_count 1 (Z.of_nat n) 2)%nat -> (S (2 * k) < n)%nat.
Proof.
  rewrite trip_count_odd. intros Hk.
  assert (Z.of_nat k < Z.of_nat n / 2) by lia.
  pose proof (Z.mul_div_le (Z.of_nat n) 2 ltac:(lia)). lia.
Qed.

Lemma trip_count_odd_all j n :
  Nat.odd j = true -> (j < n)%nat -> (j < 2 * trip_count 1 (Z.of_nat n) 2)%nat.
Proof.
  rewrite trip_count_odd. intros Hodd Hj.
  apply Nat.odd_spec in Hodd as [q ->].
  assert (Z.of_nat q + 1 <= Z.of_nat n / 2); [|lia].
  apply Z.div_le_lower_bound; lia.
Qed.

Section FragmentFree.
Context `{!Allocator}.
Variable h0 : gmap addr block.
Variable t : addr.
Variable n : nat.
Variable ps0 : list (option ptr).
Variable m0 : machine.
Hypothesis start_tab : tab_inv h0 t ps0 m0.
Hypothesis start_len : length ps0 = n.
Hypothesis start_init : forall j, (j < n)%nat -> exists p, ps0 !! j = Some (Some p).

Lemma free_inv_start : free_inv h0 t n ps0 m0 0 ps0 m0.
Proof.
  constructor; try assumption; try reflexivity.
  - intros j _ Hj. lia.
  - intros j a _ Hj. lia.
Qed.

Lemma fragment_free_step k ps m :
  (S (2 * k) < n)%nat -> free_inv h0 t n ps0 m0 k ps m ->
  exists ps' m',
    fragment_free_body (Addr t) (1 + Z.of_nat k * 2) tt m = Ok tt m'
    /\ free_inv h0 t n ps0 m0 (S k) ps' m'.
Proof.
  intros Hk [Htab Hlen Hdone Htodo Hfreed Hkeep].
  set (i := S (2 * k)).
  destruct (start_init i Hk) as [p Hp0].
  assert (Hp : ps !! i = Some (Some p))
    by (rewrite Htodo; [exact Hp0 | right; lia]).
  destruct (fragment_free_body_spec h0 t (1 + Z.of_nat k * 2) p ps m Htab)
    as (m' & E & Htab' & Hgone & Hsame).
  { lia. }
  { rewrite odd_index. exact Hp. }
  rewrite odd_index in Htab'. fold i in Htab'.
  exists (<[i := Some NULL]> ps), m'. split; [exact E|].
  constructor.
  - exact Htab'.
  - now rewrite length_insert.
  - intros j Hodd Hj Hjn. destruct (odd_below_next j k Hodd Hj) as [->|Hlt].
    + apply list_lookup_insert_eq. lia.
    + rewrite list_lookup_insert_ne by (unfold i; lia). now apply Hdone.
  - intros j Hj. rewrite list_lookup_insert_ne.
    + apply Htodo. destruct Hj as [?|?]; [now left | right; lia].
    + intros <-. destruct Hj as [Hj|Hj]; [|unfold i in Hj; lia].
      unfold i in Hj. rewrite odd_succ_double in Hj. discriminate.
  - intros j a Hodd Hj Hja. destruct (odd_below_next j k Hodd Hj) as [->|Hlt].
    + apply Hgone. fold i in Hja. congruence.
    + destruct (ti_live _ _ _ _ start_tab j a Hja) as (Hat & _ & _).
      rewrite Hsame; [now apply (Hfreed j) | exact Hat |].
      intros ->. pose proof (ti_distinct _ _ _ _ start_tab _ _ _ Hja Hp0).
      unfold i in *. lia.
  - intros j a Hj.
    apply list_lookup_insert_Some in Hj as [(_ & ? & _)|[Hne Hj]];
      [discriminate|].
    destruct (ti_live _ _ _ _ Htab j a Hj) as (Hat & _ & _).
    rewrite Hsame; [now apply (Hkeep j) | exact Hat |].
    intros ->. apply Hne. eapply (ti_distinct _ _ _ _ Htab); eassumption.
Qed.

Lemma fragment_free_loop :
  exists ps1 m1,
    for_lt 1 (Z.of_nat n) 2 (fragment_free_body (Addr t)) tt m0 = Ok tt m1
    /\ free_inv h0 t n ps0 m0 (trip_count 1 (Z.of_nat n) 2) ps1 m1.
Proof.
  pose proof (total_for_lt
    (fun k (_ : unit) m' => exists ps', free_inv h0 t n ps0 m0 k ps' m')
    (fragment_free_body (Addr t)) 1 (Z.of_nat n) 2 tt) as Hloop.
  destruct Hloop with (m := m0) as ([] & m1 & E & ps1 & Hfin).
  - intros k [] Hk m (ps & Hinv).
    destruct (fragment_free_step k ps m (trip_count_odd_lt k n Hk) Hinv)
      as (ps' & m' & E' & Hinv').
    exists tt, m'. split; [exact E' | eauto].
  - exists ps0. apply free_inv_start.
  - eauto.
Qed.

End FragmentFree.

Section FragmentAlloc.
Context `{!Allocator}.
Variable h0 : gmap addr block.
Variable t : addr.
Variable n : nat.
Variable ps1 : list (option ptr).
Variable m1 : machine.
Hypothesis mid_tab : tab_inv h0 t ps1 m1.
Hypothesis mid_len : length ps1 = n.
Hypothesis mid_odd : forall j, Nat.odd j = true -> (j < n)%nat ->
                               ps1 !! j = Some (Some NULL).

Lemma alloc_inv_start : alloc_inv h0 t n ps1 m1 0 ps1 m1.
Proof.
  constructor; try assumption; try reflexivity.
  - intros j _ Hj. lia.
  - intros j a _ Hj. lia.
  - auto.
Qed.

Lemma fragment_alloc_step k ps m :
  (S (2 * k) < n)%nat -> alloc_inv h0 t n ps1 m1 k ps m ->
  exists ps' m',
    fragment_alloc_body (Addr t) (1 + Z.of_nat k * 2) tt m = Ok tt m'
    /\ alloc_inv h0 t n ps1 m1 (S k) ps' m'.
Proof.
  intros Hk [Htab Hlen Htodo Hdone Hfill Hkeep].
  set (i := S (2 * k)).
  assert (Hp : ps !! i = Some (Some NULL)).
  { rewrite Htodo by (right; unfold i; lia).
    apply mid_odd; [apply odd_succ_double | exact Hk]. }
  rewrite fragment_alloc_body_fill.
  destruct (fill_slot_spec h0 t 128 8192 0xCD (1 + Z.of_nat k * 2) ps m Htab)
    as (p & m' & E & Htab' & Hsame & Hnew); try lia.
  { rewrite odd_index. fold i. rewrite Hp. discriminate. }
  rewrite odd_index in Htab'. fold i in Htab'.
  exists (<[i := Some p]> ps), m'. split; [exact E|].
  constructor.
  - exact Htab'.
  - now rewrite length_insert.
  - intros j Hj. rewrite list_lookup_insert_ne.
    + apply Htodo. destruct Hj as [?|?]; [now left | right; lia].
    + intros <-. destruct Hj as [Hj|Hj]; [|unfold i in Hj; lia].
      unfold i in Hj. rewrite odd_succ_double in Hj. discriminate.
  - intros j Hodd Hj Hjn. destruct (odd_below_next j k Hodd Hj) as [->|Hlt].
    + exists p. apply list_lookup_insert_eq. lia.
    + rewrite list_lookup_insert_ne by (unfold i; lia). now apply Hdone.
  - intros j a Hodd Hj Hja.
    apply list_lookup_insert_Some in Hja as [(<- & [= ->] & _)|[Hne Hja]].
    + destruct (Hnew a eq_refl) as (_ & b & Hb & Hf). eauto.
    + destruct (odd_below_next j k Hodd Hj) as [->|Hlt]; [now destruct Hne|].
      destruct (Hfill j a Hodd Hlt Hja) as (b & Hb & Hf).
      exists b. split; [|exact Hf].
      apply Hsame; [|exact Hb]. apply (ti_live _ _ _ _ Htab j a Hja).
  - intros a b Hat Hb. apply Hsame; [exact Hat|]. now apply Hkeep.
Qed.

Lemma fragment_alloc_loop :
  exists ps' m',
    for_lt 1 (Z.of_nat n) 2 (fragment_alloc_body (Addr t)) tt m1 = Ok tt m'
    /\ alloc_inv h0 t n ps1 m1 (trip_count 1 (Z.of_nat n) 2) ps' m'.
Proof.
  pose proof (total_for_lt
    (fun k (_ : unit) m' => exists ps', alloc_inv h0 t n ps1 m1 k ps' m')
    (fragment_alloc_body (Addr t)) 1 (Z.of_nat n) 2 tt) as Hloop.
  destruct Hloop with (m := m1) as ([] & m' & E & ps' & Hfin).
  - intros k [] Hk m (ps & Hinv).
    destruct (fragment_alloc_step k ps m (trip_count_odd_lt k n Hk) Hinv)
      as (ps' & m' & E' & Hinv').
    exists tt, m'. split; [exact E' | eauto].
  - exists ps1. apply alloc_inv_start.
  - eauto.
Qed.

End FragmentAlloc.

Lemma phase_fragment_spec `{!Allocator} h0 t n ps0 m0 :
  tab_inv h0 t ps0 m0 -> length ps0 = n ->
  (forall j, (j < n)%nat -> exists p, ps0 !! j = Some (Some p)) ->
  exists ps1 m1 ps' m',
    for_lt 1 (Z.of_nat n) 2 (fragment_free_body (Addr t)) tt m0 = Ok tt m1
    /\ free_inv h0 t n ps0 m0 (trip_count 1 (Z.of_nat n) 2) ps1 m1
    /\ phase_fragment (Addr t) (Z.of_nat n) m0 = Ok tt m'
    /\ alloc_inv h0 t n ps1 m1 (trip_count 1 (Z.of_nat n) 2) ps' m'
    /\ (forall j, (j < n)%nat -> exists p, ps' !! j = Some (Some p)).
Proof.
  intros Htab Hlen Hinit.
  destruct (fragment_free_loop h0 t n ps0 m0 Htab Hlen Hinit)
    as (ps1 & m1 & E1 & Hfree).
  destruct (fragment_alloc_loop h0 t n ps1 m1 (fi_tab _ _ _ _ _ _ _ _ Hfree)
              (fi_len _ _ _ _ _ _ _ _ Hfree)) as (ps' & m' & E2 & Halloc).
  { intros j Hodd Hj. apply (fi_done _ _ _ _ _ _ _ _ Hfree); try assumption.
    now apply trip_count_odd_all. }
  exists ps1, m1, ps', m'. split; [exact E1|]. split; [exact Hfree|].
  split; [|split; [exact Halloc|]].
  - unfold phase_fragment. now rewrite (bind_ok _ _ _ _ _ E1).
  - intros j Hj. destruct (Nat.odd j) eqn:Hodd.
    + apply (al_done _ _ _ _ _ _ _ _ Halloc); try assumption.
      now apply trip_count_odd_all.
    + rewrite (al_todo _ _ _ _ _ _ _ _ Halloc) by now left.
      rewrite (fi_todo _ _ _ _ _ _ _ _ Hfree) by now left.
      now apply Hinit.
Qed.

(** The second loop of [phase_fragment], with what each iteration stored. *)
Section FragmentTrace.
Context `{!Allocator}.
Variable h0 : gmap addr block.
Variable t : addr.
Variable n : nat.
Variable ps1 : list (option ptr).
Variable m1 : machine.
Hypothesis mid_tab : tab_inv h0 t ps1 m1.
Hypothesis mid_len : length ps1 = n.
Hypothesis mid_odd : forall j, Nat.odd j = true -> (j < n)%nat ->
                               ps1 !! j = Some (Some NULL).

Lemma fragment_alloc_trace_step k ps m :
  (S (2 * k) < n)%nat -> alloc_inv h0 t n ps1 m1 k ps m ->
  slot_trace 128 8192 0xCD t 1 2 m1 k ps m ->
  exists ps' m',
    fragment_alloc_body (Addr t) (1 + Z.of_nat k * 2) tt m = Ok tt m'
    /\ alloc_inv h0 t n ps1 m1 (S k) ps' m'
    /\ slot_trace 128 8192 0xCD t 1 2 m1 (S k) ps' m'.
Proof.
  intros Hk [Htab Hlen Htodo Hdone Hfill Hkeep] Htrace.
  set (i := S (2 * k)).
  assert (Hp : ps !! i = Some (Some NULL)).
  { rewrite Htodo by (right; unfold i; lia).
    apply mid_odd; [apply odd_succ_double | exact Hk]. }
  rewrite fragment_alloc_body_fill.
  destruct (fill_slot_spec h0 t 128 8192 0xCD (1 + Z.of_nat k * 2) ps m Htab)
    as (p & m' & E & Htab' & Hsame & Hnew); try lia.
  { rewrite odd_index. fold i. rewrite Hp. discriminate. }
  exists (<[Z.to_nat (1 + Z.of_nat k * 2) := Some p]> ps), m'.
  split; [exact E|]. split.
  - rewrite odd_index in *. fold i in Htab' |- *.
    constructor.
    + exact Htab'.
    + now rewrite length_insert.
    + intros j Hj. rewrite list_lookup_insert_ne.
      * apply Htodo. destruct Hj as [?|?]; [now left | right; lia].
      * intros <-. destruct Hj as [Hj|Hj]; [|unfold i in Hj; lia].
        unfold i in Hj. rewrite odd_succ_double in Hj. discriminate.
    + intros j Hodd Hj Hjn. destruct (odd_below_next j k Hodd Hj) as [->|Hlt].
      * exists p. apply list_lookup_insert_eq. lia.
      * rewrite list_lookup_insert_ne by (unfold i; lia). now apply Hdone.
    + intros j a Hodd Hj Hja.
      apply list_lookup_insert_Some in Hja as [(<- & [= ->] & _)|[Hne Hja]].
      * destruct (Hnew a eq_refl) as (_ & b & Hb & Hf). eauto.
      * destruct (odd_below_next j k Hodd Hj) as [->|Hlt]; [now destruct Hne|].
        destruct (Hfill j a Hodd Hlt Hja) as (b & Hb & Hf).
        exists b. split; [|exact Hf].
        apply Hsame; [|exact Hb]. apply (ti_live _ _ _ _ Htab j a Hja).
    + intros a b Hat Hb. apply Hsame; [exact Hat|]. now apply Hkeep.
  - apply (slot_trace_step h0 t 128 8192 0xCD 1 2 m1 k ps m p m');
      try assumption; try lia.
    apply (ti_tab _ _ _ _ Htab').
Qed.

Lemma fragment_alloc_trace :
  exists ps' m',
    for_lt 1 (Z.of_nat n) 2 (fragment_alloc_body (Addr t)) tt m1 = Ok tt m'
    /\ alloc_inv h0 t n ps1 m1 (trip_count 1 (Z.of_nat n) 2) ps' m'
    /\ slot_trace 128 8192 0xCD t 1 2 m1 (trip_count 1 (Z.of_nat n) 2) ps' m'.
Proof.
  pose proof (total_for_lt
    (fun k (_ : unit) m' =>
       exists ps', alloc_inv h0 t n ps1 m1 k ps' m'
                   /\ slot_trace 128 8192 0xCD t 1 2 m1 k ps' m')
    (fragment_alloc_body (Addr t)) 1 (Z.of_nat n) 2 tt) as Hloop.
  destruct Hloop with (m := m1) as ([] & m' & E & ps' & Hfin & Htr).
  - intros k [] Hk m (ps & Hinv & Htr).
    destruct (fragment_alloc_trace_step k ps m (trip_count_odd_lt k n Hk) Hinv Htr)
      as (ps' & m' & E' & Hinv' & Htr').
    exists tt, m'. split; [exact E' | eauto].
  - exists ps1. split; [apply alloc_inv_start; assumption | apply slot_trace_start].
  - eauto.
Qed.

End FragmentTrace.

Lemma phase_fragment_trace `{!Allocator} h0 t n ps0 m0 :
  tab_inv h0 t ps0 m0 -> length ps0 = n ->
  (forall j, (j < n)%nat -> exists p, ps0 !! j = Some (Some p)) ->
  exists ps1 m1 ps' m',
    for_lt 1 (Z.of_nat n) 2 (fragment_free_body (Addr t)) tt m0 = Ok tt m1
    /\ free_inv h0 t n ps0 m0 (trip_count 1 (Z.of_nat n) 2) ps1 m1
    /\ phase_fragment (Addr t) (Z.of_nat n) m0 = Ok tt m'
    /\ alloc_inv h0 t n ps1 m1 (trip_count 1 (Z.of_nat n) 2) ps' m'
    /\ slot_trace 128 8192 0xCD t 1 2 m1 (trip_count 1 (Z.of_nat n) 2) ps' m'.
Proof.
  intros Htab Hlen Hinit.
  destruct (fragment_free_loop h0 t n ps0 m0 Htab Hlen Hinit)
    as (ps1 & m1 & E1 & Hfree).
  destruct (fragment_alloc_trace h0 t n ps1 m1 (fi_tab _ _ _ _ _ _ _ _ Hfree)
              (fi_len _ _ _ _ _ _ _ _ Hfree)) as (ps' & m' & E2 & Halloc & Htr).
  { intros j Hodd Hj. apply (fi_done _ _ _ _ _ _ _ _ Hfree); try assumption.
    now apply trip_count_odd_all. }
  exists ps1, m1, ps', m'. split; [exact E1|]. split; [exact Hfree|].
  split; [|split; [exact Halloc | exact Htr]].
  unfold phase_fragment. now rewrite (bind_ok _ _ _ _ _ E1).
Qed.

(** C6: on the list [phase_accumulate] produced, [phase_fragment] leaves
    every even-indexed entry as it was (same handle, and the buffer it
    names unchanged, hence same size and sentinel content).  Every
    odd-indexed entry has its buffer freed by the first loop and is then
    replaced: entry [j] is what [malloc] returned in iteration [j / 2] of
    the second loop, run on the machine the earlier iterations lead to, for
    the size that iteration drew from [128, 8192); it is null exactly when
    the allocator refused that request, and otherwise names a live buffer
    of the drawn size whose every byte is [0xCD]. *)
Theorem fragment_contract `{!Allocator} (count : Z) (m : machine) (t : addr) :
  0 <= count < 2 ^ 31 ->
  pick (mallocs m) (heap m) (wrap64 (PTR_SIZE * wrap64 count)) = Some t ->
  exists ps0 m0 m1 ps' m',
    phase_accumulate count m = Ok (Addr t, count) m0
    /\ table_at t ps0 m0
    /\ Z.of_nat (length ps0) = count
    /\ for_lt 1 count 2 (fragment_free_body (Addr t)) tt m0 = Ok tt m1
    /\ phase_fragment (Addr t) count m0 = Ok tt m'
    /\ table_at t ps' m'
    /\ length ps' = length ps0
    /\ forall j : nat,
         (j < length ps0)%nat ->
         (Nat.even j = true ->
            ps' !! j = ps0 !! j
            /\ forall a, ps0 !! j = Some (Some (Addr a)) ->
                 is_Some (heap m0 !! a) /\ heap m' !! a = heap m0 !! a)
         /\ (Nat.odd j = true ->
               (forall a, ps0 !! j = Some (Some (Addr a)) ->
                  heap m1 !! a = None)
               /\ exists mj sz mj' p mj'',
                    iterate (j / 2) 1 2 (fragment_alloc_body (Addr t)) tt m1
                      = Ok tt mj
                    /\ rand_range 128 8192 mj = Ok sz mj'
                    /\ 128 <= sz < 8192
                    /\ malloc sz mj' = Ok p mj''
                    /\ (p = NULL <-> pick (mallocs mj') (heap mj') sz = None)
                    /\ ps' !! j = Some (Some p)
                    /\ forall a, p = Addr a ->
                         heap m' !! a
                         = Some (Bytes (replicate (Z.to_nat sz) (Some 0xCD)))).
Proof.
  intros Hc Hpick.
  destruct (phase_accumulate_spec count m t Hc Hpick)
    as (ps0 & m0 & E0 & [Htab Hlen Hinit _ Hfill]).
  destruct (phase_fragment_trace (heap m) t (Z.to_nat count) ps0 m0 Htab Hlen)
    as (ps1 & m1 & ps' & m' & E1 & Hfree & E2 & Halloc & [_ Htr]).
  { intros j Hj. now apply Hinit. }
  rewrite Z2Nat.id in E1, E2 by lia.
  destruct Hfree as [Htab1 Hlen1 Hdone1 Htodo1 Hfreed1 Hkeep1].
  destruct Halloc as [Htab' Hlen' Htodo' Hdone' Hfill' Hkeep'].
  exists ps0, m0, m1, ps', m'.
  split; [exact E0|]. split; [apply (ti_tab _ _ _ _ Htab)|].
  split; [rewrite Hlen; lia|]. split; [exact E1|]. split; [exact E2|].
  split; [apply (ti_tab _ _ _ _ Htab')|]. split; [congruence|].
  intros j Hj. rewrite Hlen in Hj. split.
  - intros Heven.
    assert (Hodd : Nat.odd j = false)
      by (rewrite <- Nat.negb_even, Heven; reflexivity).
    assert (Hsame : ps' !! j = ps0 !! j)
      by (rewrite Htodo', Htodo1; auto).
    split; [exact Hsame|]. intros a Ha.
    assert (Ha1 : ps1 !! j = Some (Some (Addr a))) by (rewrite Htodo1; auto).
    destruct (ti_live _ _ _ _ Htab j a Ha) as (Hat & _ & [b Hb]).
    split; [eauto|].
    rewrite Hb. apply Hkeep'; [exact Hat|].
    rewrite (Hkeep1 j a Ha1). exact Hb.
  - intros Hodd.
    pose proof (trip_count_odd_all j _ Hodd Hj) as Hlt.
    split.
    + intros a Ha. now apply (Hfreed1 j).
    + apply Nat.odd_spec in Hodd as [q ->].
      replace ((2 * q + 1) / 2)%nat with q
        by (symmetry; rewrite Nat.mul_comm, Nat.div_add_l by lia; cbn; lia).
      destruct (Htr q ltac:(lia)) as (mj & Ej & Hpj & Hfl).
      destruct (slot_pass 128 8192 mj) as (mj'' & Er & Hsz & Emj); [lia..|].
      exists mj, (slot_size 128 8192 mj), (slot_request mj),
        (ptr_of (slot_pick 128 8192 mj)), mj''.
      split; [exact Ej|]. split; [exact Er|]. split; [exact Hsz|].
      split; [exact Emj|]. split; [apply ptr_of_null|].
      split.
      * replace (Z.to_nat (1 + Z.of_nat q * 2)) with (2 * q + 1)%nat in Hpj by lia.
        exact Hpj.
      * intros a Ha. apply Hfl.
        destruct (slot_pick 128 8192 mj); cbn [ptr_of] in Ha; congruence.
Qed.

(** ** The driver: cleanup and the whole run *)

Section Sweep.
Context `{!Allocator}.
Variable h0 : gmap addr block.
Variable t : addr.
Variable ps : list (option ptr).
Variable m0 : machine.
Hypothesis end_tab : tab_inv h0 t ps m0.
Hypothesis end_init : forall j, (j < length ps)%nat ->
                                exists p, ps !! j = Some (Some p).

Lemma sweep_inv_start : sweep_inv h0 t ps 0 m0.
Proof.
  destruct end_tab as [Htab Htf Hlive Hdist Hframe Hother].
  constructor; try assumption.
  - intros j a _ Hj. lia.
  - intros j a Hj _. apply (Hlive j a Hj).
Qed.

Lemma main_cleanup_body_spec k m :
  (k < length ps)%nat -> sweep_inv h0 t ps k m ->
  exists m',
    main_cleanup_body (Addr t) (Z.of_nat k) tt m = Ok tt m'
    /\ sweep_inv h0 t ps (S k) m'
    /\ peak m' = peak m.
Proof.
  intros Hk [Htab Hfreed Hlive Hframe Hother].
  destruct (end_init k Hk) as [p Hp].
  unfold main_cleanup_body.
  erewrite bind_ok;
    [| apply (load_ptr_ok t ps _ p); [exact Htab | lia | now rewrite Nat2Z.id]].
  destruct p as [|a].
  - rewrite free_null. exists m. split; [reflexivity|].
    split; [|reflexivity]. constructor; try assumption.
    + intros j a Hj Hlt. destruct (decide (j = k)) as [->|Hne]; [congruence|].
      apply (Hfreed j); [exact Hj | lia].
    + intros j a Hj Hle. apply (Hlive j); [exact Hj | lia].
  - destruct (Hlive k a Hp ltac:(lia)) as [b Hb].
    destruct (ti_live _ _ _ _ end_tab k a Hp) as (Hat & Hah & _).
    rewrite (free_live a b m Hb). eexists. split; [reflexivity|].
    split; [|reflexivity]. constructor; cbn [heap set_heap].
    + destruct Htab as (bt & Hbt & Hs). exists bt. split; [|exact Hs].
      cbn [heap set_heap]. now rewrite lookup_delete_ne by congruence.
    + intros j a' Hj Hlt. destruct (decide (a' = a)) as [->|Hne].
      * apply lookup_delete_eq.
      * rewrite lookup_delete_ne by congruence.
        apply (Hfreed j); [exact Hj|].
        destruct (decide (j = k)) as [->|Hjk]; [congruence | lia].
    + intros j a' Hj Hle.
      assert (a' <> a).
      { intros ->. pose proof (ti_distinct _ _ _ _ end_tab _ _ _ Hj Hp). lia. }
      rewrite lookup_delete_ne by congruence. apply (Hlive j); [exact Hj | lia].
    + intros a' b' Ha'. assert (a' <> a) by congruence.
      rewrite lookup_delete_ne by congruence. now apply Hframe.
    + intros a' H1 H2 Hnot. destruct (decide (a' = a)) as [->|Hne].
      * apply lookup_delete_eq.
      * rewrite lookup_delete_ne by congruence. now apply Hother.
Qed.

Lemma main_cleanup_spec :
  exists m1 m',
    for_lt 0 (Z.of_nat (length ps)) 1 (main_cleanup_body (Addr t)) tt m0
      = Ok tt m1
    /\ free (Addr t) m1 = Ok tt m'
    /\ heap m' = h0 /\ peak m' = peak m0.
Proof.
  pose proof (total_for_lt
    (fun k (_ : unit) m' => sweep_inv h0 t ps k m' /\ peak m' = peak m0)
    (main_cleanup_body (Addr t)) 0 (Z.of_nat (length ps)) 1 tt) as Hloop.
  rewrite trip_count_unit, Nat2Z.id in Hloop.
  destruct Hloop with (m := m0) as ([] & m1 & E & Hfin & Hpk).
  - intros k [] Hk m (Hinv & Hpk).
    destruct (main_cleanup_body_spec k m Hk Hinv) as (m' & E' & Hinv' & Hpk').
    exists tt, m'. rewrite Z.mul_1_r, Z.add_0_l.
    split; [exact E'|]. split; [exact Hinv' | congruence].
  - split; [apply sweep_inv_start | reflexivity].
  - destruct Hfin as [(bt & Hbt & Hs) Hfreed _ Hframe Hother].
    exists m1. eexists. split; [exact E|].
    split; [apply (free_live t bt m1 Hbt)|].
    split; [|exact Hpk]. cbn [heap set_heap].
    apply map_eq. intros a. destruct (decide (a = t)) as [->|Hat].
    + rewrite lookup_delete_eq. symmetry. apply (ti_t_fresh _ _ _ _ end_tab).
    + rewrite lookup_delete_ne by congruence.
      destruct (h0 !! a) as [b|] eqn:Ea; [now apply Hframe|].
      destruct (heap m1 !! a) as [b|] eqn:Eh; [|reflexivity].
      rewrite <- Eh. apply Hother; [exact Hat | exact Ea |].
      intros j Hj. pose proof (lookup_lt_Some _ _ _ Hj) as Hlt.
      rewrite (Hfreed j a Hj) in Eh; [discriminate | lia].
Qed.

End Sweep.

Lemma to_int_range z : - 2 ^ 31 <= to_int z < 2 ^ 31.
Proof.
  unfold to_int. pose proof (Z.mod_pos_bound (z + 2 ^ 31) (2 ^ 32)). lia.
Qed.

Lemma main_rounds_range argv : 1000 <= main_rounds argv < 2 ^ 31.
Proof.
  split; [apply main_rounds_min|]. unfold main_rounds.
  destruct (Z.ltb_spec 1 (Z.of_nat (length argv))); cbv zeta.
  - destruct (argv !! 1%nat) as [a|].
    + pose proof (to_int_range (strtol a)). unfold atoi.
      destruct (Z.ltb_spec (to_int (strtol a)) 1000); lia.
    + cbn. lia.
  - cbn. lia.
Qed.

Lemma main_accum_count_range rounds :
  1000 <= rounds < 2 ^ 31 -> 100 <= main_accum_count rounds < 2 ^ 31.
Proof.
  intros H. rewrite main_accum_count_max by lia.
  assert (rounds / 50 <= rounds) by (apply Z.div_le_upper_bound; lia). lia.
Qed.

Lemma read_rss_kb_ok `{!Platform} m : exists v, read_rss_kb m = Ok v m.
Proof.
  unfold read_rss_kb. destruct (proc_self_status m); eexists; reflexivity.
Qed.

(** When the allocator grants the handle list, the whole run completes
    with exit status 0, gives back every block it allocated, and reports
    the derived counts. *)
Lemma main_completes `{!Allocator} `{!Platform} (argv : list string)
  (m : machine) :
  let rounds := main_rounds argv in
  let accum_count := main_accum_count rounds in
  (forall n h, is_Some (pick n h (wrap64 (PTR_SIZE * wrap64 accum_count)))) ->
  exists rep m',
    main argv m = Ok (0, rep) m'
    /\ heap m' = heap m
    /\ churn_rounds rep = rounds
    /\ accumulation_count rep = accum_count
    /\ total_alloc_ops rep = main_ops rounds accum_count
    /\ rss_ratio rep = main_frag (rss_after_accum rep) (rss_after_frag rep).
Proof.
  intros rounds accum_count Hgrant. unfold main. fold rounds. fold accum_count.
  pose proof (main_rounds_range argv) as Hr. fold rounds in Hr.
  pose proof (main_accum_count_range rounds Hr) as Hc. fold accum_count in Hc.
  destruct (read_rss_kb_ok m) as [v0 E0]. rewrite (bind_ok _ _ _ _ _ E0).
  destruct (phase_churn_spec rounds m) as (m1 & E1 & Hh1 & _).
  rewrite (bind_ok _ _ _ _ _ E1).
  destruct (read_rss_kb_ok m1) as [v1 E1']. rewrite (bind_ok _ _ _ _ _ E1').
  destruct (Hgrant (mallocs m1) (heap m1)) as [t Ht].
  destruct (phase_accumulate_spec accum_count m1 t ltac:(lia) Ht)
    as (ps0 & m2 & E2 & [Htab Hlen Hinit _ _]).
  rewrite (bind_ok _ _ _ _ _ E2). cbn [fst snd].
  destruct (read_rss_kb_ok m2) as [v2 E2']. rewrite (bind_ok _ _ _ _ _ E2').
  destruct (phase_fragment_spec (heap m1) t (Z.to_nat accum_count) ps0 m2
              Htab Hlen) as (ps1 & m3' & ps' & m3 & _ & _ & E3 & Halloc & Hinit').
  { intros j Hj. now apply Hinit. }
  rewrite Z2Nat.id in E3 by lia. rewrite (bind_ok _ _ _ _ _ E3).
  destruct (read_rss_kb_ok m3) as [v3 E3']. rewrite (bind_ok _ _ _ _ _ E3').
  destruct Halloc as [Htab' Hlen' _ _ _ _].
  destruct (main_cleanup_spec (heap m1) t ps' m3 Htab')
    as (m4 & m5 & E4 & E5 & Hh5 & _).
  { intros j Hj. apply Hinit'. now rewrite <- Hlen'. }
  rewrite Hlen', Z2Nat.id in E4 by lia.
  rewrite (bind_ok _ _ _ _ _ E4), (bind_ok _ _ _ _ _ E5).
  destruct (read_rss_kb_ok m5) as [v4 E5']. rewrite (bind_ok _ _ _ _ _ E5').
  eexists _, m5. split; [reflexivity|]. cbn.
  split; [congruence|]. repeat split; reflexivity.
Qed.

(** ** When the handle list itself is refused *)

Lemma store_ptr_null i v m : store_ptr NULL i v m = Crash NullDeref.
Proof. reflexivity. Qed.

Lemma accumulate_body_null `{!Allocator} i m :
  accumulate_body NULL i tt m = Crash NullDeref.
Proof.
  unfold accumulate_body.
  destruct (rand_range_ok 4096 65536 m) as (sz & _ & Er); [lia..|].
  rewrite (bind_ok _ _ _ _ _ Er).
  destruct (malloc_cases sz (set_rng (xorshift64_mix (rng_state m)) m))
    as [Em|(a & _ & Em)]; rewrite (bind_ok _ _ _ _ _ Em); reflexivity.
Qed.

Lemma accumulate_list_refused `{!Allocator} (count : Z) (m : machine) :
  0 < count ->
  pick (mallocs m) (heap m) (wrap64 (PTR_SIZE * wrap64 count)) = None ->
  phase_accumulate count m = Crash NullDeref.
Proof.
  intros Hc Hpick. unfold phase_accumulate, bind at 1, malloc.
  rewrite Hpick. unfold for_lt. rewrite trip_count_unit.
  destruct (Z.to_nat count) as [|n] eqn:En; [lia|].
  cbn [iterate]. unfold bind. now rewrite accumulate_body_null.
Qed.

Lemma main_list_refused `{!Allocator} `{!Platform} (argv : list string)
  (m : machine) :
  (forall n h,
      pick n h (wrap64 (PTR_SIZE * wrap64 (main_accum_count (main_rounds argv))))
      = None) ->
  main argv m = Crash NullDeref.
Proof.
  intros Hrefuse. unfold main.
  pose proof (main_accum_count_range _ (main_rounds_range argv)) as Hc.
  destruct (read_rss_kb_ok m) as [v0 E0]. rewrite (bind_ok _ _ _ _ _ E0).
  destruct (phase_churn_spec (main_rounds argv) m) as (m1 & E1 & _).
  rewrite (bind_ok _ _ _ _ _ E1).
  destruct (read_rss_kb_ok m1) as [v1 E1']. rewrite (bind_ok _ _ _ _ _ E1').
  unfold bind.
  rewrite accumulate_list_refused; [reflexivity | lia | apply Hrefuse].
Qed.

(** C1, the failing runs: with an allocator that has no memory the churn
    phase still completes, every slot left empty, but [phase_accumulate]
    stores through the null handle list, and so the whole benchmark
    aborts, on every command line; and the default run (500000 rounds,
    10000 handles) aborts in the same way as soon as only the 80000 bytes
    of the handle list cannot be had, every other request being served. *)
Theorem null_handle_list_aborts :
  (exists m', @phase_churn no_memory 1000 machine0 = Ok tt m')
  /\ @phase_accumulate no_memory 100 machine0 = Crash NullDeref
  /\ (forall (P : Platform) (argv : list string) (m : machine),
        @main no_memory P argv m = Crash NullDeref)
  /\ (forall (P : Platform) (m : machine),
        @main (refuses_size 80000) P ["bench-allocator"]%string m
        = Crash NullDeref).
Proof.
  split; [|split; [|split]].
  - destruct (@phase_churn_spec no_memory 1000 machine0) as (m' & E & _). eauto.
  - apply accumulate_list_refused; [lia | reflexivity].
  - intros P argv m. apply main_list_refused. reflexivity.
  - intros P m. apply main_list_refused. reflexivity.
Qed.

(** ** The derived counts, as reported *)

(** C7: with [r] the requested value (the converted argument, or 500000
    without one) the driver runs [max r 1000] rounds, keeps
    [max (rounds / 50) 100] long-lived buffers, and counts
    [rounds + accum_count * 3] operations, 1300 of them for 1000 rounds;
    whenever the handle list is granted the run completes and the report
    carries exactly these values. *)
Theorem driver_counts `{!Allocator} `{!Platform} (argv : list string)
  (m : machine) :
  let r := match argv !! 1%nat with Some a => atoi a | None => 500000 end in
  let rounds := main_rounds argv in
  let accum_count := main_accum_count rounds in
  rounds = Z.max r 1000
  /\ accum_count = Z.max (rounds / 50) 100
  /\ main_ops rounds accum_count = inject_Z (rounds + accum_count * 3)
  /\ (rounds = 1000 -> main_ops rounds accum_count = inject_Z 1300)
  /\ ((forall n h,
          is_Some (pick n h (wrap64 (PTR_SIZE * wrap64 accum_count)))) ->
      exists rep m',
        main argv m = Ok (0, rep) m'
        /\ churn_rounds rep = Z.max r 1000
        /\ accumulation_count rep = Z.max (churn_rounds rep / 50) 100
        /\ total_alloc_ops rep
           = inject_Z (churn_rounds rep + accumulation_count rep * 3)).
Proof.
  intros r rounds accum_count.
  assert (Hr : rounds = Z.max r 1000).
  { unfold rounds, r. destruct (argv !! 1%nat) as [a|] eqn:Ea.
    - now apply main_rounds_given.
    - rewrite main_rounds_absent; [reflexivity|].
      apply lookup_ge_None in Ea. lia. }
  assert (Ha : accum_count = Z.max (rounds / 50) 100).
  { unfold accum_count. apply main_accum_count_max.
    pose proof (main_rounds_min argv) as Hmin. fold rounds in Hmin. lia. }
  split; [exact Hr|]. split; [exact Ha|].
  split; [apply main_ops_exact|]. split.
  - intros E. rewrite main_ops_exact, Ha, E. reflexivity.
  - intros Hgrant.
    destruct (main_completes argv m Hgrant)
      as (rep & m' & E & _ & Hrounds & Hcount & Hops & _).
    fold rounds in Hrounds, Hcount, Hops. fold accum_count in Hcount, Hops.
    exists rep, m'. split; [exact E|].
    rewrite Hrounds, Hcount, Hops.
    split; [exact Hr|]. split; [exact Ha | apply main_ops_exact].
Qed.

(** Reading a completed run backwards: what each field of the report is. *)
Lemma main_report `{!Allocator} `{!Platform} (argv : list string)
  (m m' : machine) (c : Z) (rep : report) :
  main argv m = Ok (c, rep) m' ->
  c = 0
  /\ churn_rounds rep = main_rounds argv
  /\ accumulation_count rep = main_accum_count (main_rounds argv)
  /\ total_alloc_ops rep
     = main_ops (main_rounds argv) (main_accum_count (main_rounds argv))
  /\ rss_ratio rep = main_frag (rss_after_accum rep) (rss_after_frag rep)
  /\ (exists ma, read_rss_kb ma = Ok (rss_after_accum rep) ma)
  /\ (exists mf, read_rss_kb mf = Ok (rss_after_frag rep) mf).
Proof.
  unfold main. intros E.
  apply bind_inv in E as (v0 & ma0 & E0 & E).
  apply bind_inv in E as ([] & ma1 & E1 & E).
  apply bind_inv in E as (v1 & ma2 & E2 & E).
  apply bind_inv in E as (acc & ma3 & E3 & E).
  apply bind_inv in E as (v2 & ma4 & E4 & E).
  apply bind_inv in E as ([] & ma5 & E5 & E).
  apply bind_inv in E as (v3 & ma6 & E6 & E).
  apply bind_inv in E as ([] & ma7 & E7 & E).
  apply bind_inv in E as ([] & ma8 & E8 & E).
  apply bind_inv in E as (v4 & ma9 & E9 & E).
  unfold ret in E. injection E as <- <- <-. cbn.
  assert (Hprobe : forall x y v, read_rss_kb x = Ok v y -> y = x).
  { intros x y v. unfold read_rss_kb.
    destruct (proc_self_status x); now intros [= _ ->]. }
  rewrite (Hprobe _ _ _ E4) in E4. rewrite (Hprobe _ _ _ E6) in E6.
  repeat split; try reflexivity; eauto.
Qed.


Lemma generous_grants n h sz : is_Some (@pick generous n h sz).
Proof. eexists. reflexivity. Qed.



(** ** Instances on concrete runs *)

(** The first three draws from the built-in seed. *)
Example first_draws :
  exists m',
    draws 3 machine0
    = Ok [2872300871512351504; 2933554087995782358; 5171663472647931199] m'.
Proof. eexists. vm_compute. reflexivity. Qed.

(** The derivations of the counts for 500, 1000 and 1000000 rounds. *)
Example derived_counts :
  main_rounds ["bench-allocator"; "500"]%string = 1000
  /\ main_accum_count 1000 = 100
  /\ main_ops 1000 100 = inject_Z 1300
  /\ main_accum_count (main_rounds ["bench-allocator"; "1000000"]%string)
     = 20000
  /\ main_accum_count (main_rounds ["bench-allocator"]%string) = 10000.
Proof. repeat split; reflexivity. Qed.


(** Ratios as the program computes them: 4096/5120 is the [double]
    nearest to 4/5, [0x1.999999999999ap-1]; a reading of [2^53 + 1] is not
    a [double] and its ratio to [2^53] is exactly 1.0; and readings that
    are zero or negative give no ratio. *)
Example ratio_values :
  main_frag 5120 4096
  = Some (SpecFloat.S754_finite false 7205759403792794 (-53))
  /\ main_frag (2 ^ 53) (2 ^ 53 + 1)
     = Some (SpecFloat.S754_finite false 4503599627370496 (-52))
  /\ main_frag 77 77
     = Some (SpecFloat.S754_finite false 4503599627370496 (-52))
  /\ main_frag 0 4096 = None
  /\ main_frag 5120 0 = None
  /\ main_frag 5120 (-5) = None.
Proof. repeat split; vm_compute; reflexivity. Qed.

Lemma driver_counts_witness :
  main_rounds ["bench-allocator"; "1000"]%string = 1000
  /\ (forall n h,
        is_Some (@pick generous n h
                   (wrap64 (PTR_SIZE * wrap64
                      (main_accum_count
                         (main_rounds ["bench-allocator"; "1000"]%string))))))
  /\ main_ops 1000 100 = inject_Z 1300
  /\ exists rep m',
       @main generous no_proc ["bench-allocator"; "1000"]%string machine0
         = Ok (0, rep) m'
       /\ total_alloc_ops rep
          = inject_Z (churn_rounds rep + accumulation_count rep * 3).
Proof.
  pose proof (@driver_counts generous no_proc
                ["bench-allocator"; "1000"]%string machine0) as H.
  cbv zeta in H. destruct H as (_ & _ & _ & H1300 & Hrun).
  split; [reflexivity|].
  split; [intros n h; apply generous_grants|].
  split; [exact (H1300 eq_refl)|].
  destruct (Hrun (fun n h => generous_grants n h _))
    as (rep & m' & E & _ & _ & Hops).
  exists rep, m'. split; [exact E | exact Hops].
Defined.

Lemma churn_bounded_and_leak_free_witness :
  (2 <= Z.to_nat 3)%nat
  /\ exists pool mk pool'' mk'',
       iterate 2 0 1 (@churn_body generous) (replicate 2048 NULL) machine0
         = Ok pool mk
       /\ (live_slots pool <= 2048)%nat
       /\ @churn_body generous 2 pool mk = Ok pool'' mk''
       /\ (live_slots pool'' <= 2048)%nat.
Proof.
  assert (Hk : (2 <= Z.to_nat 3)%nat) by lia.
  split; [exact Hk|].
  destruct (proj2 (@churn_bounded_and_leak_free generous 3 machine0) 2%nat Hk)
    as (pool & mk & E & _ & _ & Hlive & _ & Hstep).
  destruct Hstep as (x & mk0 & pool' & mk' & pool'' & mk'' & _ & _ & _ & _ & _
                     & _ & Ebody & _ & Hlive'' & _).
  exists pool, mk, pool'', mk''.
  split; [exact E|]. split; [exact Hlive|]. split; [exact Ebody | exact Hlive''].
Defined.

Lemma generous_first (count : Z) :
  @pick generous (mallocs machine0) (heap machine0)
    (wrap64 (PTR_SIZE * wrap64 count))
  = Some (fresh (dom (heap machine0))).
Proof. reflexivity. Qed.

Lemma grants_size_first (count : Z) :
  @pick (grants_size (wrap64 (PTR_SIZE * wrap64 count)))
    (mallocs machine0) (heap machine0) (wrap64 (PTR_SIZE * wrap64 count))
  = Some (fresh (dom (heap machine0))).
Proof. unfold pick, grants_size, only_size. now rewrite Z.eqb_refl. Qed.

Lemma grants_size_refuses sz0 n h sz :
  sz0 < sz -> @pick (grants_size sz0) n h sz = None.
Proof.
  intros Hsz. unfold pick, grants_size, only_size.
  destruct (Z.eqb_spec sz sz0); [lia | reflexivity].
Qed.

Lemma accumulate_contract_witness :
  0 <= 3 < 2 ^ 31
  /\ @pick generous (mallocs machine0) (heap machine0)
       (wrap64 (PTR_SIZE * wrap64 3))
     = Some (fresh (dom (heap machine0)))
  /\ @pick (grants_size (wrap64 (PTR_SIZE * wrap64 3)))
       (mallocs machine0) (heap machine0) (wrap64 (PTR_SIZE * wrap64 3))
     = Some (fresh (dom (heap machine0)))
  /\ (exists ps m',
        @phase_accumulate generous 3 machine0
          = Ok (Addr (fresh (dom (heap machine0))), 3) m'
        /\ table_at (fresh (dom (heap machine0))) ps m'
        /\ Z.of_nat (length ps) = 3
        /\ forall j : nat, (j < 3)%nat ->
             exists a sz,
               ps !! j = Some (Some (Addr a))
               /\ 4096 <= sz < 65536
               /\ heap m' !! a
                  = Some (Bytes (replicate (Z.to_nat sz) (Some 0xAB))))
  /\ (exists ps m',
        @phase_accumulate (grants_size (wrap64 (PTR_SIZE * wrap64 3))) 3 machine0
          = Ok (Addr (fresh (dom (heap machine0))), 3) m'
        /\ table_at (fresh (dom (heap machine0))) ps m'
        /\ Z.of_nat (length ps) = 3
        /\ forall j : nat, (j < 3)%nat -> ps !! j = Some (Some NULL)).
Proof.
  assert (Hc : 0 <= 3 < 2 ^ 31) by lia.
  split; [exact Hc|]. split; [exact (generous_first 3)|].
  split; [exact (grants_size_first 3)|]. split.
  - destruct (@accumulate_contract generous 3 machine0 _ Hc (generous_first 3))
      as (m1 & ps & m' & _ & E & Htab & Hlen & Hall).
    exists ps, m'. split; [exact E|]. split; [exact Htab|].
    split; [exact Hlen|]. intros j Hj.
    destruct (Hall j ltac:(lia))
      as (mj & sz & mj' & p & mj'' & _ & _ & Hsz & _ & Hnull & Hp & Hfill).
    destruct p as [|a].
    + destruct (generous_grants (mallocs mj') (heap mj') sz) as [a Ha].
      rewrite (proj1 Hnull eq_refl) in Ha. discriminate.
    + exists a, sz. split; [exact Hp|]. split; [exact Hsz|].
      exact (Hfill a eq_refl).
  - destruct (@accumulate_contract (grants_size (wrap64 (PTR_SIZE * wrap64 3)))
                3 machine0 _ Hc (grants_size_first 3))
      as (m1 & ps & m' & _ & E & Htab & Hlen & Hall).
    exists ps, m'. split; [exact E|]. split; [exact Htab|].
    split; [exact Hlen|]. intros j Hj.
    destruct (Hall j ltac:(lia))
      as (mj & sz & mj' & p & mj'' & _ & _ & Hsz & _ & Hnull & Hp & _).
    rewrite Hp. do 2 f_equal. apply Hnull. apply grants_size_refuses.
    rewrite table_bytes by lia. unfold PTR_SIZE. lia.
Defined.

Lemma fragment_contract_witness :
  0 <= 3 < 2 ^ 31
  /\ @pick generous (mallocs machine0) (heap machine0)
       (wrap64 (PTR_SIZE * wrap64 3))
     = Some (fresh (dom (heap machine0)))
  /\ @pick (grants_size (wrap64 (PTR_SIZE * wrap64 3)))
       (mallocs machine0) (heap machine0) (wrap64 (PTR_SIZE * wrap64 3))
     = Some (fresh (dom (heap machine0)))
  /\ (exists (ps0 : list (option ptr)) m0 (ps' : list (option ptr)) m',
        @phase_accumulate generous 3 machine0
          = Ok (Addr (fresh (dom (heap machine0))), 3) m0
        /\ @phase_fragment generous (Addr (fresh (dom (heap machine0)))) 3 m0
           = Ok tt m'
        /\ table_at (fresh (dom (heap machine0))) ps' m'
        /\ length ps' = length ps0
        /\ ps' !! 0%nat = ps0 !! 0%nat
        /\ ps' !! 2%nat = ps0 !! 2%nat
        /\ exists a sz,
             ps' !! 1%nat = Some (Some (Addr a))
             /\ 128 <= sz < 8192
             /\ heap m' !! a
                = Some (Bytes (replicate (Z.to_nat sz) (Some 0xCD))))
  /\ (exists m0 (ps' : list (option ptr)) m',
        @phase_accumulate (grants_size (wrap64 (PTR_SIZE * wrap64 3))) 3 machine0
          = Ok (Addr (fresh (dom (heap machine0))), 3) m0
        /\ @phase_fragment (grants_size (wrap64 (PTR_SIZE * wrap64 3)))
             (Addr (fresh (dom (heap machine0)))) 3 m0
           = Ok tt m'
        /\ table_at (fresh (dom (heap machine0))) ps' m'
        /\ ps' !! 1%nat = Some (Some NULL)).
Proof.
  assert (Hc : 0 <= 3 < 2 ^ 31) by lia.
  split; [exact Hc|]. split; [exact (generous_first 3)|].
  split; [exact (grants_size_first 3)|]. split.
  - destruct (@fragment_contract generous 3 machine0 _ Hc (generous_first 3))
      as (ps0 & m0 & m1 & ps' & m' & E0 & _ & Hlen0 & _ & E & Htab & Hlen & Hall).
    exists ps0, m0, ps', m'.
    split; [exact E0|]. split; [exact E|]. split; [exact Htab|].
    split; [exact Hlen|].
    split; [exact (proj1 (proj1 (Hall 0%nat ltac:(lia)) eq_refl))|].
    split; [exact (proj1 (proj1 (Hall 2%nat ltac:(lia)) eq_refl))|].
    destruct (proj2 (proj2 (Hall 1%nat ltac:(lia)) eq_refl))
      as (mj & sz & mj' & p & mj'' & _ & _ & Hsz & _ & Hnull & Hp & Hfill).
    destruct p as [|a].
    + destruct (generous_grants (mallocs mj') (heap mj') sz) as [a Ha].
      rewrite (proj1 Hnull eq_refl) in Ha. discriminate.
    + exists a, sz. split; [exact Hp|]. split; [exact Hsz|].
      exact (Hfill a eq_refl).
  - destruct (@fragment_contract (grants_size (wrap64 (PTR_SIZE * wrap64 3)))
                3 machine0 _ Hc (grants_size_first 3))
      as (ps0 & m0 & m1 & ps' & m' & E0 & _ & Hlen0 & _ & E & Htab & Hlen & Hall).
    exists m0, ps', m'.
    split; [exact E0|]. split; [exact E|]. split; [exact Htab|].
    destruct (proj2 (proj2 (Hall 1%nat ltac:(lia)) eq_refl))
      as (mj & sz & mj' & p & mj'' & _ & _ & Hsz & _ & Hnull & Hp & _).
    rewrite Hp. do 2 f_equal. apply Hnull. apply grants_size_refuses.
    rewrite table_bytes by lia. unfold PTR_SIZE. lia.
Defined.

(* ===================================================================== *)
(** * Part III: further properties of the code                            *)
(* ===================================================================== *)

(** ** What a run consumes: generator steps and [malloc] requests *)

Lemma steps_refl m : steps 0 0 m m.
Proof. split; [reflexivity | simpl; lia]. Qed.

Lemma steps_trans d1 k1 d2 k2 m m1 m2 :
  steps d1 k1 m m1 -> steps d2 k2 m1 m2 -> steps (d1 + d2) (k1 + k2) m m2.
Proof.
  intros [Hr1 Hm1] [Hr2 Hm2]. split.
  - rewrite Hr2, Hr1, (Nat.add_comm d1 d2). symmetry. apply Nat.iter_add.
  - lia.
Qed.

Lemma costs_eq {A} (c : M A) d k d' k' :
  costs c d k -> d = d' -> k = k' -> costs c d' k'.
Proof. now intros H <- <-. Qed.

Lemma costs_ret {A} (a : A) : costs (ret a) 0 0.
Proof. intros m a' m' [= _ <-]. apply steps_refl. Qed.

Lemma costs_crash {A} (f : fault) d k : costs (@crash A f) d k.
Proof. intros m a m' [=]. Qed.

Lemma costs_bind {A B} (c : M A) (f : A -> M B) d1 k1 d2 k2 :
  costs c d1 k1 -> (forall a, costs (f a) d2 k2) ->
  costs (bind c f) (d1 + d2) (k1 + k2).
Proof.
  intros Hc Hf m b m2 E. apply bind_inv in E as (a & m1 & E1 & E2).
  eapply steps_trans; [eapply Hc | eapply Hf]; eassumption.
Qed.

Lemma costs_iterate {S : Type} (body : Z -> S -> M S) d k n :
  (forall i s, costs (body i s) d k) ->
  forall i step s, costs (iterate n i step body s) (n * d) (n * k).
Proof.
  intros Hbody. induction n as [|n IH]; intros i step s.
  - apply costs_ret.
  - cbn [iterate]. eapply costs_eq.
    + apply costs_bind; [apply Hbody | intros s'; apply IH].
    + lia.
    + lia.
Qed.

Lemma costs_xorshift64 : costs xorshift64 1 0.
Proof.
  intros m a m' [= _ <-]. split; [reflexivity | simpl; lia].
Qed.

Lemma costs_rand_range lo hi : costs (rand_range lo hi) 1 0.
Proof.
  unfold rand_range. eapply costs_eq.
  - apply costs_bind; [apply costs_xorshift64|]. intros x. cbv zeta.
    destruct (wrap64 (hi - lo) =? 0); [apply costs_crash | apply costs_ret].
  - reflexivity.
  - reflexivity.
Qed.

Lemma costs_free p : costs (free p) 0 0.
Proof.
  intros m a m' E. unfold free in E. destruct p as [|x].
  - injection E as _ <-. apply steps_refl.
  - destruct (heap m !! x); [|discriminate].
    injection E as _ <-. split; [reflexivity | simpl; lia].
Qed.

Lemma costs_memset p c n : costs (memset p c n) 0 0.
Proof.
  intros m a m' E. unfold memset in E. destruct p as [|x]; [discriminate|].
  destruct (heap m !! x) as [b|]; [|discriminate].
  destruct (as_bytes b) as [bs|]; [|discriminate].
  destruct (Z.of_nat (length bs) <? n); [discriminate|].
  injection E as _ <-. split; [reflexivity | simpl; lia].
Qed.

Lemma costs_store_ptr p i v : costs (store_ptr p i v) 0 0.
Proof.
  intros m a m' E. unfold store_ptr in E. destruct p as [|x]; [discriminate|].
  destruct (heap m !! x) as [b|]; [|discriminate].
  destruct (as_slots b) as [ps|]; [|discriminate].
  destruct ((i <? 0) || (Z.of_nat (length ps) <=? i)); [discriminate|].
  injection E as _ <-. split; [reflexivity | simpl; lia].
Qed.

Lemma costs_load_ptr p i : costs (load_ptr p i) 0 0.
Proof.
  intros m a m' E. unfold load_ptr in E. destruct p as [|x]; [discriminate|].
  destruct (heap m !! x) as [b|]; [|discriminate].
  destruct (as_slots b) as [ps|]; [|discriminate].
  destruct (i <? 0); [discriminate|].
  destruct (ps !! Z.to_nat i) as [[v|]|]; try discriminate.
  injection E as _ <-. apply steps_refl.
Qed.

Lemma costs_pool_get pool idx : costs (pool_get pool idx) 0 0.
Proof.
  unfold pool_get. destruct (idx <? 0); [apply costs_crash|].
  destruct (pool !! Z.to_nat idx); [apply costs_ret | apply costs_crash].
Qed.

Lemma costs_pool_set pool idx v : costs (pool_set pool idx v) 0 0.
Proof.
  unfold pool_set.
  destruct ((idx <? 0) || (Z.of_nat (length pool) <=? idx));
    [apply costs_crash | apply costs_ret].
Qed.

Lemma costs_read_rss_kb `{!Platform} : costs read_rss_kb 0 0.
Proof.
  intros m a m' E. unfold read_rss_kb in E.
  destruct (proc_self_status m); injection E as _ <-; apply steps_refl.
Qed.

Section Costs.
Context `{!Allocator}.

Lemma costs_malloc sz : costs (malloc sz) 0 1.
Proof.
  intros m a m' E. unfold malloc in E.
  destruct (pick (mallocs m) (heap m) sz); injection E as _ <-;
    (split; [reflexivity | simpl; lia]).
Qed.

Lemma costs_churn_release idx pool : costs (churn_release idx pool) 0 0.
Proof.
  unfold churn_release. eapply costs_eq.
  - apply costs_bind; [apply costs_pool_get|]. intros [|a].
    + apply costs_ret.
    + eapply costs_eq.
      * apply costs_bind; [apply costs_pool_get|]. intros q.
        apply costs_bind; [apply costs_free|]. intros _. apply costs_pool_set.
      * reflexivity.
      * reflexivity.
  - reflexivity.
  - reflexivity.
Qed.

Lemma costs_churn_refill i idx pool : costs (churn_refill i idx pool) 1 1.
Proof.
  unfold churn_refill. eapply costs_eq.
  - apply costs_bind; [apply costs_rand_range|]. intros sz.
    apply costs_bind; [apply costs_malloc|]. intros p.
    apply costs_bind; [apply costs_pool_set|]. intros pool'.
    apply costs_bind; [apply costs_pool_get|]. intros [|a].
    + apply costs_ret.
    + eapply costs_eq.
      * apply costs_bind; [apply costs_pool_get|]. intros r.
        apply costs_bind; [apply costs_memset|]. intros _. apply costs_ret.
      * reflexivity.
      * reflexivity.
  - reflexivity.
  - reflexivity.
Qed.

Lemma costs_churn_body i pool : costs (churn_body i pool) 2 1.
Proof.
  unfold churn_body. eapply costs_eq.
  - apply costs_bind; [apply costs_xorshift64|]. intros x. cbv zeta.
    apply costs_bind; [apply costs_churn_release|]. intros pool'.
    apply costs_churn_refill.
  - reflexivity.
  - reflexivity.
Qed.

Lemma costs_churn_cleanup_body i pool : costs (churn_cleanup_body i pool) 0 0.
Proof.
  unfold churn_cleanup_body. eapply costs_eq.
  - apply costs_bind; [apply costs_pool_get|]. intros p.
    apply costs_bind; [apply costs_free|]. intros _. apply costs_ret.
  - reflexivity.
  - reflexivity.
Qed.

Lemma costs_phase_churn rounds :
  costs (phase_churn rounds) (2 * Z.to_nat rounds) (Z.to_nat rounds).
Proof.
  unfold phase_churn, churn_loop, for_lt. rewrite !trip_count_unit.
  eapply costs_eq.
  - apply costs_bind.
    + apply costs_iterate. apply costs_churn_body.
    + intros pool. apply costs_bind.
      * apply costs_iterate. apply costs_churn_cleanup_body.
      * intros _. apply costs_ret.
  - lia.
  - lia.
Qed.

Lemma costs_fill_slot lo hi c ptrs i u : costs (fill_slot lo hi c ptrs i u) 1 1.
Proof.
  unfold fill_slot. eapply costs_eq.
  - apply costs_bind; [apply costs_rand_range|]. intros sz.
    apply costs_bind; [apply costs_malloc|]. intros p.
    apply costs_bind; [apply costs_store_ptr|]. intros _.
    apply costs_bind; [apply costs_load_ptr|]. intros [|a].
    + apply costs_ret.
    + eapply costs_eq.
      * apply costs_bind; [apply costs_load_ptr|]. intros r.
        apply costs_memset.
      * reflexivity.
      * reflexivity.
  - reflexivity.
  - reflexivity.
Qed.

Lemma costs_phase_accumulate count :
  costs (phase_accumulate count) (Z.to_nat count) (S (Z.to_nat count)).
Proof.
  unfold phase_accumulate, for_lt. rewrite trip_count_unit.
  eapply costs_eq.
  - apply costs_bind; [apply costs_malloc|]. intros p. cbv zeta.
    apply costs_bind.
    + apply costs_iterate. intros i s. rewrite accumulate_body_fill.
      apply costs_fill_slot.
    + intros _. apply costs_ret.
  - lia.
  - lia.
Qed.

Lemma costs_fragment_free_body ptrs i u : costs (fragment_free_body ptrs i u) 0 0.
Proof.
  unfold fragment_free_body. eapply costs_eq.
  - apply costs_bind; [apply costs_load_ptr|]. intros p.
    apply costs_bind; [apply costs_free|]. intros _. apply costs_store_ptr.
  - reflexivity.
  - reflexivity.
Qed.

Lemma costs_phase_fragment ptrs count :
  costs (phase_fragment ptrs count)
        (Z.to_nat (count / 2)) (Z.to_nat (count / 2)).
Proof.
  unfold phase_fragment, for_lt. rewrite !trip_count_odd.
  eapply costs_eq.
  - apply costs_bind.
    + apply costs_iterate. apply costs_fragment_free_body.
    + intros _. apply costs_iterate. intros i s.
      rewrite fragment_alloc_body_fill. apply costs_fill_slot.
  - lia.
  - lia.
Qed.

Lemma costs_main_cleanup_body ptrs i u : costs (main_cleanup_body ptrs i u) 0 0.
Proof.
  unfold main_cleanup_body. eapply costs_eq.
  - apply costs_bind; [apply costs_load_ptr|]. intros p. apply costs_free.
  - reflexivity.
  - reflexivity.
Qed.

End Costs.

Lemma costs_bind_with {A B} (Q : A -> Prop) (c : M A) (f : A -> M B)
  d1 k1 d2 k2 :
  costs c d1 k1 -> (forall m a m', c m = Ok a m' -> Q a) ->
  (forall a, Q a -> costs (f a) d2 k2) ->
  costs (bind c f) (d1 + d2) (k1 + k2).
Proof.
  intros Hc HQ Hf m b m2 E. apply bind_inv in E as (a & m1 & E1 & E2).
  eapply steps_trans; [eapply Hc | eapply Hf]; eauto.
Qed.

Lemma phase_accumulate_count `{!Allocator} count m acc m' :
  phase_accumulate count m = Ok acc m' -> snd acc = count.
Proof.
  unfold phase_accumulate. intros E.
  apply bind_inv in E as (p & m1 & _ & E).
  apply bind_inv in E as ([] & m2 & _ & E).
  now injection E as <- _.
Qed.

Lemma costs_main `{!Allocator} `{!Platform} (argv : list string) :
  let r := Z.to_nat (main_rounds argv) in
  let a := Z.to_nat (main_accum_count (main_rounds argv)) in
  let h := Z.to_nat (main_accum_count (main_rounds argv) / 2) in
  costs (main argv) (2 * r + a + h) (r + S a + h).
Proof.
  intros r a h. unfold main. eapply costs_eq.
  - apply costs_bind; [apply costs_read_rss_kb|]. intros v0.
    apply costs_bind; [apply costs_phase_churn|]. intros _.
    apply costs_bind; [apply costs_read_rss_kb|]. intros v1.
    apply (costs_bind_with
             (fun acc => snd acc = main_accum_count (main_rounds argv)));
      [apply costs_phase_accumulate | apply phase_accumulate_count |].
    intros acc Hacc. cbv zeta. rewrite Hacc.
    apply costs_bind; [apply costs_read_rss_kb|]. intros v2.
    apply costs_bind; [apply costs_phase_fragment|]. intros _.
    apply costs_bind; [apply costs_read_rss_kb|]. intros v3.
    apply costs_bind.
    { unfold for_lt. apply costs_iterate. apply costs_main_cleanup_body. }
    intros _. apply costs_bind; [apply costs_free|]. intros _.
    apply costs_bind; [apply costs_read_rss_kb|]. intros v4.
    apply costs_ret.
  - fold r a h. lia.
  - fold r a h. lia.
Qed.


(** ** The generator at its edges *)

Lemma set_rng_zero m : rng_state m = 0 -> set_rng 0 m = m.
Proof. intros <-. apply set_rng_same. Qed.

(** X1: [rand_range] on sizes outside its contract.  Equal bounds divide
    by zero; reversed bounds do not fail: the range wraps through [2^64]
    and the value returned is never inside [hi, lo). *)
Theorem rand_range_outside_contract (lo hi : Z) (m : machine) :
  in_u64 lo -> in_u64 hi ->
  (lo = hi -> rand_range lo hi m = Crash DivByZero)
  /\ (hi < lo ->
        exists v,
          rand_range lo hi m
          = Ok v (set_rng (xorshift64_mix (rng_state m)) m)
          /\ in_u64 v /\ (lo <= v \/ v < hi)).
Proof.
  intros [Hl0 Hl1] [Hh0 Hh1]. split.
  - intros <-. unfold rand_range, bind, xorshift64.
    now rewrite Z.sub_diag.
  - intros Hlt. set (x := xorshift64_mix (rng_state m)).
    set (d := 2 ^ 64 - (lo - hi)).
    assert (Hd : wrap64 (hi - lo) = d).
    { unfold wrap64, d.
      replace (hi - lo) with (2 ^ 64 - (lo - hi) + (-1) * 2 ^ 64) by ring.
      rewrite Z.mod_add by lia. apply Z.mod_small. lia. }
    pose proof (Z.mod_pos_bound x d ltac:(unfold d; lia)) as Hx.
    exists (wrap64 (lo + x mod d)).
    split; [|split; [apply wrap64_in_u64|]].
    + unfold rand_range, bind, xorshift64. fold x. rewrite Hd.
      destruct (Z.eqb_spec d 0) as [E|_]; [unfold d in E; lia | reflexivity].
    + unfold wrap64.
      destruct (Z_lt_ge_dec (lo + x mod d) (2 ^ 64)) as [Hs|Hb].
      * left. rewrite Z.mod_small by lia. lia.
      * right.
        replace (lo + x mod d) with (lo + x mod d - 2 ^ 64 + 1 * 2 ^ 64) by ring.
        rewrite Z.mod_add by lia. rewrite Z.mod_small; unfold d in *; lia.
Qed.

Lemma rand_range_outside_contract_witness :
  in_u64 4096 /\ in_u64 64
  /\ rand_range 64 64 machine0 = Crash DivByZero
  /\ exists v,
       rand_range 4096 64 machine0
       = Ok v (set_rng (xorshift64_mix (rng_state machine0)) machine0)
       /\ in_u64 v /\ (4096 <= v \/ v < 64).
Proof.
  assert (H1 : in_u64 4096) by (unfold in_u64; lia).
  assert (H2 : in_u64 64) by (unfold in_u64; lia).
  split; [exact H1|]. split; [exact H2|].
  split.
  - exact (proj1 (rand_range_outside_contract 64 64 machine0 H2 H2) eq_refl).
  - apply (proj2 (rand_range_outside_contract 4096 64 machine0 H1 H2)). lia.
Defined.

Lemma iter_mix_zero k : Nat.iter k xorshift64_mix 0 = 0.
Proof.
  induction k as [|k IH]; [reflexivity|].
  simpl. rewrite IH. apply xorshift64_mix_zero.
Qed.

Lemma map_const_replicate {A} (f : nat -> A) (c : A) s n :
  (forall k, f k = c) -> map f (seq s n) = replicate n c.
Proof.
  intros Hf. revert s. induction n as [|n IH]; intros s; [reflexivity|].
  simpl. now rewrite Hf, IH.
Qed.

(** X2: the all-zero state is absorbing: from it every draw is 0, the
    state never leaves 0, and [rand_range lo hi] always returns [lo]. *)
Theorem zero_state_degenerate (m : machine) :
  rng_state m = 0 ->
  (forall n : nat, draws n m = Ok (replicate n 0) m)
  /\ (forall lo hi : Z,
        0 <= lo -> lo < hi -> hi < 2 ^ 64 -> rand_range lo hi m = Ok lo m).
Proof.
  intros Hz. split.
  - intros n. rewrite draws_closed_form, Hz, iter_mix_zero.
    rewrite (set_rng_zero m Hz). f_equal.
    apply map_const_replicate. intros k. apply (iter_mix_zero (S k)).
  - intros lo hi Hlo Hlt Hhi.
    unfold rand_range, bind, xorshift64.
    rewrite Hz, xorshift64_mix_zero, (set_rng_zero m Hz).
    rewrite (wrap64_small (hi - lo)) by (unfold in_u64; lia).
    destruct (Z.eqb_spec (hi - lo) 0) as [E|_]; [lia|].
    rewrite Z.mod_0_l, Z.add_0_r by lia.
    unfold ret. f_equal. apply wrap64_small. unfold in_u64. lia.
Qed.

Lemma zero_state_degenerate_witness :
  rng_state (set_rng 0 machine0) = 0
  /\ draws 4 (set_rng 0 machine0) = Ok [0; 0; 0; 0] (set_rng 0 machine0)
  /\ rand_range 64 4096 (set_rng 0 machine0) = Ok 64 (set_rng 0 machine0).
Proof.
  split; [reflexivity|].
  destruct (zero_state_degenerate (set_rng 0 machine0) eq_refl) as [Hd Hr].
  split; [exact (Hd 4%nat)|].
  apply Hr; lia.
Defined.

(** ** The phases at their edges, and what they consume *)

(** X3: whatever the allocator grants or refuses, [phase_churn] draws
    exactly two generator values and issues exactly one [malloc] request
    per round: the stream of sizes requested does not depend on the
    allocator under test. *)
Theorem churn_consumption `{!Allocator} (rounds : Z) (m : machine) :
  exists m',
    phase_churn rounds m = Ok tt m'
    /\ rng_state m'
       = Nat.iter (2 * Z.to_nat rounds) xorshift64_mix (rng_state m)
    /\ mallocs m' = (mallocs m + Z.to_nat rounds)%nat.
Proof.
  destruct (phase_churn_spec rounds m) as (m' & E & _).
  exists m'. split; [exact E|]. exact (costs_phase_churn rounds m tt m' E).
Qed.

Lemma churn_cleanup_null n :
  forall i m,
    0 <= i -> (Z.to_nat i + n <= Z.to_nat POOL)%nat ->
    iterate n i 1 churn_cleanup_body (replicate (Z.to_nat POOL) NULL) m
    = Ok (replicate (Z.to_nat POOL) NULL) m.
Proof.
  induction n as [|n IH]; intros i m Hi Hn; [reflexivity|].
  cbn [iterate].
  assert (E : churn_cleanup_body i (replicate (Z.to_nat POOL) NULL) m
              = Ok (replicate (Z.to_nat POOL) NULL) m).
  { unfold churn_cleanup_body.
    erewrite bind_ok;
      [| apply (pool_get_ok _ i NULL); [exact Hi|];
         apply lookup_replicate_2; lia].
    now rewrite (bind_ok _ _ _ _ _ (free_null m)). }
  rewrite (bind_ok _ _ _ _ _ E). apply IH; lia.
Qed.

(** X4: with [rounds <= 0] the churn loop does not run and the cleanup loop
    only frees null pointers: the machine (generator, heap, counters) is
    left exactly as it was. *)
Theorem churn_no_rounds `{!Allocator} (rounds : Z) (m : machine) :
  rounds <= 0 -> phase_churn rounds m = Ok tt m.
Proof.
  intros Hr. unfold phase_churn, churn_loop, for_lt.
  rewrite !trip_count_unit.
  replace (Z.to_nat rounds) with 0%nat by lia. cbn [iterate].
  rewrite (bind_ok _ _ _ _ _ (eq_refl : ret _ m = Ok _ m)).
  now rewrite (bind_ok _ _ _ _ _
                 (churn_cleanup_null (Z.to_nat POOL) 0 m ltac:(lia) ltac:(lia))).
Qed.

Lemma churn_no_rounds_witness :
  -3 <= 0 /\ @phase_churn generous (-3) machine0 = Ok tt machine0.
Proof.
  assert (H : -3 <= 0) by lia.
  split; [exact H | exact (@churn_no_rounds generous (-3) machine0 H)].
Defined.

(** X5: with [count <= 0], [phase_accumulate] makes its one request for the
    handle list, runs no iteration and draws nothing; it returns whatever
    [malloc] gave, null included, with [count] as the length, and does not
    fail even on the null list. *)
Theorem accumulate_no_count `{!Allocator} (count : Z) (m : machine) :
  count <= 0 ->
  exists p m',
    phase_accumulate count m = Ok (p, count) m'
    /\ malloc (wrap64 (PTR_SIZE * wrap64 count)) m = Ok p m'
    /\ rng_state m' = rng_state m
    /\ mallocs m' = S (mallocs m)
    /\ (p = NULL -> heap m' = heap m).
Proof.
  intros Hc. unfold phase_accumulate, for_lt. rewrite trip_count_unit.
  replace (Z.to_nat count) with 0%nat by lia. cbn [iterate].
  destruct (malloc_cases (wrap64 (PTR_SIZE * wrap64 count)) m)
    as [E|(a & _ & E)]; rewrite (bind_ok _ _ _ _ _ E);
    eexists _, _; (split; [reflexivity|]); (split; [exact E|]);
    cbn [rng_state mallocs heap]; repeat split; try reflexivity.
  intros [=].
Qed.

Lemma accumulate_no_count_witness :
  0 <= 0
  /\ exists p m',
       @phase_accumulate no_memory 0 machine0 = Ok (p, 0) m'
       /\ rng_state m' = rng_state machine0.
Proof.
  assert (H : 0 <= 0) by lia. split; [exact H|].
  destruct (@accumulate_no_count no_memory 0 machine0 H)
    as (p & m' & E & _ & Hr & _).
  exists p, m'. split; [exact E | exact Hr].
Defined.

(** X6: [phase_fragment] on a list of at most one entry visits no odd
    index and changes nothing, whatever the list pointer, null included;
    with two or more entries a null list is dereferenced at once. *)
Theorem fragment_short_list `{!Allocator} (ptrs : ptr) (count : Z) (m : machine) :
  (count <= 1 -> phase_fragment ptrs count m = Ok tt m)
  /\ (2 <= count -> phase_fragment NULL count m = Crash NullDeref).
Proof.
  split.
  - intros Hc. unfold phase_fragment, for_lt. rewrite !trip_count_odd.
    assert (Hz : Z.to_nat (count / 2) = 0%nat).
    { assert (count / 2 <= 0); [|lia].
      apply Z.lt_succ_r, Z.div_lt_upper_bound; lia. }
    rewrite Hz. reflexivity.
  - intros Hc. unfold phase_fragment, for_lt. rewrite !trip_count_odd.
    assert (Hp : 1 <= count / 2) by (apply Z.div_le_lower_bound; lia).
    destruct (Z.to_nat (count / 2)) as [|n] eqn:En; [lia|].
    reflexivity.
Qed.

Lemma fragment_short_list_witness :
  1 <= 1 /\ 2 <= 2
  /\ @phase_fragment generous NULL 1 machine0 = Ok tt machine0
  /\ @phase_fragment generous NULL 2 machine0 = Crash NullDeref.
Proof.
  assert (H1 : 1 <= 1) by lia. assert (H2 : 2 <= 2) by lia.
  split; [exact H1|]. split; [exact H2|].
  split.
  - exact (proj1 (@fragment_short_list generous NULL 1 machine0) H1).
  - exact (proj2 (@fragment_short_list generous NULL 2 machine0) H2).
Defined.

(** ** The long-lived set *)

Lemma tab_inv_shape h0 t ps m :
  tab_inv h0 t ps m ->
  (forall a b, h0 !! a = Some b -> heap m !! a = Some b)
  /\ (forall j a, ps !! j = Some (Some (Addr a)) ->
        a <> t /\ h0 !! a = None /\ is_Some (heap m !! a))
  /\ (forall i j a, ps !! i = Some (Some (Addr a)) ->
        ps !! j = Some (Some (Addr a)) -> i = j)
  /\ (forall a, a <> t -> h0 !! a = None ->
        (forall j, ps !! j <> Some (Some (Addr a))) -> heap m !! a = None).
Proof. intros [Htab Htf Hlive Hdist Hframe Hother]. auto. Qed.

(** X7: the list [phase_accumulate] builds, and again the list as
    [phase_fragment] leaves it, owns its buffers exclusively: no block that
    was live before the phases is changed or freed; every handle names a
    live block that is new, is not the list itself, and is named by no
    other entry; and the phases leave nothing else behind: a block that is
    neither old, nor the list, nor named by an entry is not live (the
    buffers [phase_fragment] freed are gone or reused by an entry). *)
Theorem long_lived_set_shape `{!Allocator} (count : Z) (m : machine) (t : addr) :
  0 <= count < 2 ^ 31 ->
  pick (mallocs m) (heap m) (wrap64 (PTR_SIZE * wrap64 count)) = Some t ->
  let owns (ps : list (option ptr)) (mx : machine) :=
    (forall a b, heap m !! a = Some b -> heap mx !! a = Some b)
    /\ (forall j a, ps !! j = Some (Some (Addr a)) ->
          a <> t /\ heap m !! a = None /\ is_Some (heap mx !! a))
    /\ (forall i j a, ps !! i = Some (Some (Addr a)) ->
          ps !! j = Some (Some (Addr a)) -> i = j)
    /\ (forall a, a <> t -> heap m !! a = None ->
          (forall j, ps !! j <> Some (Some (Addr a))) -> heap mx !! a = None) in
  exists ps0 m0 ps' m',
    phase_accumulate count m = Ok (Addr t, count) m0
    /\ table_at t ps0 m0
    /\ phase_fragment (Addr t) count m0 = Ok tt m'
    /\ table_at t ps' m'
    /\ heap m !! t = None
    /\ owns ps0 m0
    /\ owns ps' m'.
Proof.
  intros Hc Hpick owns.
  destruct (phase_accumulate_spec count m t Hc Hpick)
    as (ps0 & m0 & E0 & [Htab Hlen Hinit _ _]).
  destruct (phase_fragment_spec (heap m) t (Z.to_nat count) ps0 m0 Htab Hlen)
    as (ps1 & m1 & ps' & m' & _ & _ & E2 & Halloc & _).
  { intros j Hj. now apply Hinit. }
  rewrite Z2Nat.id in E2 by lia.
  pose proof (al_tab _ _ _ _ _ _ _ _ Halloc) as Htab'.
  exists ps0, m0, ps', m'.
  split; [exact E0|]. split; [apply (ti_tab _ _ _ _ Htab)|].
  split; [exact E2|]. split; [apply (ti_tab _ _ _ _ Htab')|].
  split; [apply (ti_t_fresh _ _ _ _ Htab)|].
  split; [apply (tab_inv_shape _ _ _ _ Htab) | apply (tab_inv_shape _ _ _ _ Htab')].
Qed.

Lemma long_lived_set_shape_witness :
  0 <= 4 < 2 ^ 31
  /\ @pick generous (mallocs machine0) (heap machine0)
       (wrap64 (PTR_SIZE * wrap64 4))
     = Some (fresh (dom (heap machine0)))
  /\ exists (ps0 : list (option ptr)) m0 (ps' : list (option ptr)) m',
       @phase_accumulate generous 4 machine0
         = Ok (Addr (fresh (dom (heap machine0))), 4) m0
       /\ @phase_fragment generous (Addr (fresh (dom (heap machine0)))) 4 m0
          = Ok tt m'
       /\ (forall i j a, ps' !! i = Some (Some (Addr a)) ->
             ps' !! j = Some (Some (Addr a)) -> i = j).
Proof.
  assert (Hc : 0 <= 4 < 2 ^ 31) by lia.
  split; [exact Hc|]. split; [exact (generous_first 4)|].
  destruct (@long_lived_set_shape generous 4 machine0 _ Hc (generous_first 4))
    as (ps0 & m0 & ps' & m' & E0 & _ & E & _ & _ & _ & (_ & _ & Hdist & _)).
  exists ps0, m0, ps', m'. split; [exact E0|]. split; [exact E | exact Hdist].
Defined.

(** X8: building and fragmenting a list of [count] handles draws
    [count + count / 2] generator values and issues [1 + count + count / 2]
    [malloc] requests in all ([count] and [1 + count] of them in
    [phase_accumulate]), whichever of the buffer requests are refused. *)
Theorem long_lived_consumption `{!Allocator} (count : Z) (m : machine) (t : addr) :
  0 <= count < 2 ^ 31 ->
  pick (mallocs m) (heap m) (wrap64 (PTR_SIZE * wrap64 count)) = Some t ->
  exists m0 m',
    phase_accumulate count m = Ok (Addr t, count) m0
    /\ phase_fragment (Addr t) count m0 = Ok tt m'
    /\ rng_state m0 = Nat.iter (Z.to_nat count) xorshift64_mix (rng_state m)
    /\ Z.of_nat (mallocs m0) = Z.of_nat (mallocs m) + 1 + count
    /\ rng_state m'
       = Nat.iter (Z.to_nat (count + count / 2)) xorshift64_mix (rng_state m)
    /\ Z.of_nat (mallocs m')
       = Z.of_nat (mallocs m) + 1 + count + count / 2.
Proof.
  intros Hc Hpick.
  destruct (phase_accumulate_spec count m t Hc Hpick)
    as (ps0 & m0 & E0 & [Htab Hlen Hinit _ _]).
  destruct (phase_fragment_spec (heap m) t (Z.to_nat count) ps0 m0 Htab Hlen)
    as (ps1 & m1 & ps' & m' & _ & _ & E2 & _ & _).
  { intros j Hj. now apply Hinit. }
  rewrite Z2Nat.id in E2 by lia.
  destruct (costs_phase_accumulate count m _ m0 E0) as [Hr0 Hm0].
  destruct (costs_phase_fragment (Addr t) count m0 _ m' E2) as [Hr' Hm'].
  assert (Hhalf : 0 <= count / 2) by (apply Z.div_pos; lia).
  exists m0, m'. split; [exact E0|]. split; [exact E2|].
  split; [exact Hr0|]. split; [lia|]. split; [|lia].
  rewrite Hr', Hr0, <- Nat.iter_add. f_equal. lia.
Qed.

Lemma long_lived_consumption_witness :
  0 <= 5 < 2 ^ 31
  /\ @pick generous (mallocs machine0) (heap machine0)
       (wrap64 (PTR_SIZE * wrap64 5))
     = Some (fresh (dom (heap machine0)))
  /\ exists m0 m',
       @phase_accumulate generous 5 machine0
         = Ok (Addr (fresh (dom (heap machine0))), 5) m0
       /\ @phase_fragment generous (Addr (fresh (dom (heap machine0)))) 5 m0
          = Ok tt m'
       /\ Z.of_nat (mallocs m') = Z.of_nat (mallocs machine0) + 1 + 5 + 5 / 2.
Proof.
  assert (Hc : 0 <= 5 < 2 ^ 31) by lia.
  split; [exact Hc|]. split; [exact (generous_first 5)|].
  destruct (@long_lived_consumption generous 5 machine0 _ Hc (generous_first 5))
    as (m0 & m' & E0 & E & _ & _ & _ & Hm).
  exists m0, m'. split; [exact E0|]. split; [exact E | exact Hm].
Defined.

(** ** The whole run *)

(** X9: for every command line, however malformed or extreme the argument,
    the driver runs between 1000 and [INT_MAX] rounds and keeps between 100
    and 42949672 handles, never more handles than rounds; the byte size of
    the handle list is computed without wrap-around. *)
Theorem driver_bounds (argv : list string) :
  let rounds := main_rounds argv in
  let accum_count := main_accum_count rounds in
  1000 <= rounds <= 2147483647
  /\ 100 <= accum_count <= 42949672
  /\ accum_count <= rounds
  /\ wrap64 (PTR_SIZE * wrap64 accum_count) = 8 * accum_count.
Proof.
  intros rounds accum_count.
  pose proof (main_rounds_range argv) as Hr. fold rounds in Hr.
  pose proof (main_accum_count_range rounds Hr) as Ha. fold accum_count in Ha.
  assert (Hmax : accum_count = Z.max (rounds / 50) 100)
    by (apply main_accum_count_max; lia).
  assert (Hdiv : rounds / 50 <= 42949672)
    by (apply Z.lt_succ_r, Z.div_lt_upper_bound; lia).
  assert (Hle : rounds / 50 <= rounds)
    by (apply Z.div_le_upper_bound; lia).
  split; [lia|]. split; [lia|]. split; [lia|].
  rewrite table_bytes by lia. reflexivity.
Qed.

(** The two ways a run can go, decided by the one request for the handle
    list, made on the machine the churn phase leaves. *)
Lemma main_outcome `{!Allocator} `{!Platform} (argv : list string)
  (m : machine) :
  exists m1,
    phase_churn (main_rounds argv) m = Ok tt m1
    /\ (is_Some (pick (mallocs m1) (heap m1)
                   (wrap64 (PTR_SIZE
                      * wrap64 (main_accum_count (main_rounds argv))))) ->
        exists rep m', main argv m = Ok (0, rep) m' /\ heap m' = heap m)
    /\ (pick (mallocs m1) (heap m1)
          (wrap64 (PTR_SIZE * wrap64 (main_accum_count (main_rounds argv))))
        = None ->
        main argv m = Crash NullDeref).
Proof.
  unfold main.
  set (rounds := main_rounds argv). set (accum_count := main_accum_count rounds).
  pose proof (main_rounds_range argv) as Hr. fold rounds in Hr.
  pose proof (main_accum_count_range rounds Hr) as Hc. fold accum_count in Hc.
  destruct (read_rss_kb_ok m) as [v0 E0]. rewrite (bind_ok _ _ _ _ _ E0).
  destruct (phase_churn_spec rounds m) as (m1 & E1 & Hh1 & _).
  rewrite (bind_ok _ _ _ _ _ E1).
  destruct (read_rss_kb_ok m1) as [v1 E1']. rewrite (bind_ok _ _ _ _ _ E1').
  exists m1. split; [exact E1|]. split.
  - intros [t Ht].
    destruct (phase_accumulate_spec accum_count m1 t ltac:(lia) Ht)
      as (ps0 & m2 & E2 & [Htab Hlen Hinit _ _]).
    rewrite (bind_ok _ _ _ _ _ E2). cbn [fst snd].
    destruct (read_rss_kb_ok m2) as [v2 E2']. rewrite (bind_ok _ _ _ _ _ E2').
    destruct (phase_fragment_spec (heap m1) t (Z.to_nat accum_count) ps0 m2
                Htab Hlen) as (ps1 & m3' & ps' & m3 & _ & _ & E3 & Halloc & Hinit').
    { intros j Hj. now apply Hinit. }
    rewrite Z2Nat.id in E3 by lia. rewrite (bind_ok _ _ _ _ _ E3).
    destruct (read_rss_kb_ok m3) as [v3 E3']. rewrite (bind_ok _ _ _ _ _ E3').
    destruct Halloc as [Htab' Hlen' _ _ _ _].
    destruct (main_cleanup_spec (heap m1) t ps' m3 Htab')
      as (m4 & m5 & E4 & E5 & Hh5 & _).
    { intros j Hj. apply Hinit'. now rewrite <- Hlen'. }
    rewrite Hlen', Z2Nat.id in E4 by lia.
    rewrite (bind_ok _ _ _ _ _ E4), (bind_ok _ _ _ _ _ E5).
    destruct (read_rss_kb_ok m5) as [v4 E5']. rewrite (bind_ok _ _ _ _ _ E5').
    eexists _, m5. split; [reflexivity | congruence].
  - intros Ht. unfold bind at 1.
    rewrite accumulate_list_refused; [reflexivity | lia | exact Ht].
Qed.

(** The default run under an allocator that serves the 80000 bytes of the
    handle list and refuses every buffer. *)
Lemma grants_size_default_list n h :
  is_Some (@pick (grants_size 80000) n h
             (wrap64 (PTR_SIZE * wrap64
                (main_accum_count (main_rounds ["bench-allocator"]%string))))).
Proof. eexists. reflexivity. Qed.

(** X10: every run that returns gives back everything: its exit status is
    0 and the heap is exactly the heap it started from, whichever buffer
    requests were refused on the way; and the run does return as soon as
    the one request for the handle list, made on the machine the churn
    phase leaves, is granted. *)
Theorem main_leak_free `{!Allocator} `{!Platform} (argv : list string)
  (m : machine) :
  (forall c rep m', main argv m = Ok (c, rep) m' -> c = 0 /\ heap m' = heap m)
  /\ (forall m1,
        phase_churn (main_rounds argv) m = Ok tt m1 ->
        is_Some (pick (mallocs m1) (heap m1)
                   (wrap64 (PTR_SIZE
                      * wrap64 (main_accum_count (main_rounds argv))))) ->
        exists rep m', main argv m = Ok (0, rep) m' /\ heap m' = heap m).
Proof.
  destruct (main_outcome argv m) as (m1 & E1 & Hok & Hcrash).
  split.
  - intros c rep m' E.
    destruct (pick (mallocs m1) (heap m1)
                (wrap64 (PTR_SIZE
                   * wrap64 (main_accum_count (main_rounds argv)))))
      as [t|] eqn:Ht.
    + destruct (Hok ltac:(eauto)) as (rep0 & m0' & E0 & Hh).
      rewrite E in E0. injection E0 as -> -> ->. auto.
    + rewrite (Hcrash eq_refl) in E. discriminate.
  - intros m1' E1' Hgrant.
    assert (m1' = m1) as -> by congruence.
    exact (Hok Hgrant).
Qed.

Lemma main_leak_free_witness :
  exists m1 rep m',
    @phase_churn (grants_size 80000)
      (main_rounds ["bench-allocator"]%string) machine0 = Ok tt m1
    /\ is_Some (@pick (grants_size 80000) (mallocs m1) (heap m1)
                  (wrap64 (PTR_SIZE * wrap64
                     (main_accum_count
                        (main_rounds ["bench-allocator"]%string)))))
    /\ @main (grants_size 80000) no_proc ["bench-allocator"]%string machine0
       = Ok (0, rep) m'
    /\ heap m' = heap machine0.
Proof.
  destruct (@phase_churn_spec (grants_size 80000)
              (main_rounds ["bench-allocator"]%string) machine0)
    as (m1 & E1 & _).
  destruct (proj2 (@main_leak_free (grants_size 80000) no_proc
                     ["bench-allocator"]%string machine0)
              m1 E1 (grants_size_default_list _ _)) as (rep & m' & E & _).
  destruct (proj1 (@main_leak_free (grants_size 80000) no_proc
                     ["bench-allocator"]%string machine0)
              0 rep m' E) as [_ Hh].
  exists m1, rep, m'. split; [exact E1|].
  split; [apply grants_size_default_list|]. split; [exact E | exact Hh].
Defined.

(** X11: a completed run of [R] rounds with [A] handles has drawn exactly
    [2R + A + A/2] generator values and issued exactly [R + 1 + A + A/2]
    [malloc] requests, for every allocator and platform and whatever was
    refused: the workload is a function of the command line alone.  (The
    report counts [R + 3A] operations.)  And the run does complete as soon
    as the one request for the handle list, made on the machine the churn
    phase leaves, is granted. *)
Theorem main_consumption `{!Allocator} `{!Platform} (argv : list string)
  (m : machine) :
  (forall c rep m',
      main argv m = Ok (c, rep) m' ->
      rng_state m'
      = Nat.iter (Z.to_nat (2 * churn_rounds rep + accumulation_count rep
                            + accumulation_count rep / 2))
                 xorshift64_mix (rng_state m)
      /\ Z.of_nat (mallocs m')
         = Z.of_nat (mallocs m) + churn_rounds rep + 1
           + accumulation_count rep + accumulation_count rep / 2)
  /\ (forall m1,
        phase_churn (main_rounds argv) m = Ok tt m1 ->
        is_Some (pick (mallocs m1) (heap m1)
                   (wrap64 (PTR_SIZE
                      * wrap64 (main_accum_count (main_rounds argv))))) ->
        exists rep m', main argv m = Ok (0, rep) m').
Proof.
  split.
  - intros c rep m' E.
    destruct (main_report argv m m' c rep E) as (_ & Hr & Ha & _).
    destruct (costs_main argv m _ m' E) as [Hrng Hmal].
    pose proof (main_rounds_range argv) as Rr.
    pose proof (main_accum_count_range _ Rr) as Ra.
    assert (Hhalf : 0 <= main_accum_count (main_rounds argv) / 2)
      by (apply Z.div_pos; lia).
    rewrite Hr, Ha. split.
    + rewrite Hrng. f_equal. lia.
    + lia.
  - intros m1' E1' Hgrant.
    destruct (main_outcome argv m) as (m1 & E1 & Hok & _).
    assert (m1' = m1) as -> by congruence.
    destruct (Hok Hgrant) as (rep & m' & E & _). eauto.
Qed.

Lemma main_consumption_witness :
  exists m1 rep m',
    @phase_churn (grants_size 80000)
      (main_rounds ["bench-allocator"]%string) machine0 = Ok tt m1
    /\ is_Some (@pick (grants_size 80000) (mallocs m1) (heap m1)
                  (wrap64 (PTR_SIZE * wrap64
                     (main_accum_count
                        (main_rounds ["bench-allocator"]%string)))))
    /\ @main (grants_size 80000) no_proc ["bench-allocator"]%string machine0
       = Ok (0, rep) m'
    /\ Z.of_nat (mallocs m')
       = Z.of_nat (mallocs machine0) + churn_rounds rep + 1
         + accumulation_count rep + accumulation_count rep / 2.
Proof.
  destruct (@phase_churn_spec (grants_size 80000)
              (main_rounds ["bench-allocator"]%string) machine0)
    as (m1 & E1 & _).
  destruct (proj2 (@main_consumption (grants_size 80000) no_proc
                     ["bench-allocator"]%string machine0)
              m1 E1 (grants_size_default_list _ _)) as (rep & m' & E).
  destruct (proj1 (@main_consumption (grants_size 80000) no_proc
                     ["bench-allocator"]%string machine0)
              0 rep m' E) as [_ Hm].
  exists m1, rep, m'. split; [exact E1|].
  split; [apply grants_size_default_list|]. split; [exact E | exact Hm].
Defined.

(** ** The memory probe *)

Lemma strtol_range s : LONG_MIN <= strtol s <= LONG_MAX.
Proof. unfold strtol, LONG_MIN, LONG_MAX. lia. Qed.

Lemma scan_status_range lines : LONG_MIN <= scan_status lines <= LONG_MAX.
Proof.
  induction lines as [|line rest IH]; simpl.
  - unfold LONG_MIN, LONG_MAX. lia.
  - destruct (String.prefix "VmRSS:" line); [apply strtol_range | exact IH].
Qed.

Lemma scan_status_skip pre lines :
  Forall other_line pre -> scan_status (pre ++ lines) = scan_status lines.
Proof.
  induction 1 as [|line pre Hline _ IH]; [reflexivity|].
  simpl. unfold other_line in Hline. now rewrite Hline.
Qed.

(** X12: the probe cannot fail and touches nothing: it returns a [long]
    and leaves the machine as it is; the reading is 0 when
    [/proc/self/status] cannot be opened and when no line of it starts with
    ["VmRSS:"]. *)
Theorem read_rss_kb_degrades `{!Platform} (m : machine) :
  exists v,
    read_rss_kb m = Ok v m
    /\ LONG_MIN <= v <= LONG_MAX
    /\ (proc_self_status m = None -> v = 0)
    /\ (forall lines,
          proc_self_status m = Some lines -> Forall other_line lines -> v = 0).
Proof.
  unfold read_rss_kb. destruct (proc_self_status m) as [lines|] eqn:E.
  - exists (scan_status lines). split; [reflexivity|].
    split; [apply scan_status_range|]. split; [discriminate|].
    intros lines' [= <-] Hall.
    rewrite <- (app_nil_r lines). now rewrite scan_status_skip.
  - exists 0. split; [reflexivity|].
    split; [unfold LONG_MIN, LONG_MAX; lia|]. split; [reflexivity|].
    discriminate.
Qed.

Lemma read_rss_kb_degrades_witness :
  @proc_self_status no_proc machine0 = None
  /\ @proc_self_status (const_proc ["Name:   bench"; "VmPeak: 9 kB"]%string)
       machine0
     = Some ["Name:   bench"; "VmPeak: 9 kB"]%string
  /\ Forall other_line ["Name:   bench"; "VmPeak: 9 kB"]%string
  /\ @read_rss_kb no_proc machine0 = Ok 0 machine0
  /\ @read_rss_kb (const_proc ["Name:   bench"; "VmPeak: 9 kB"]%string)
       machine0
     = Ok 0 machine0.
Proof.
  assert (Hall : Forall other_line ["Name:   bench"; "VmPeak: 9 kB"]%string).
  { repeat constructor. }
  split; [reflexivity|]. split; [reflexivity|]. split; [exact Hall|].
  split.
  - destruct (@read_rss_kb_degrades no_proc machine0) as (v & E & _ & Hz & _).
    rewrite (Hz eq_refl) in E. exact E.
  - destruct (@read_rss_kb_degrades
                (const_proc ["Name:   bench"; "VmPeak: 9 kB"]%string) machine0)
      as (v & E & _ & _ & Hz).
    rewrite (Hz _ eq_refl Hall) in E. exact E.
Defined.

Lemma scan_first_line pre post line :
  Forall other_line pre -> String.prefix "VmRSS:" line = true ->
  scan_status (pre ++ line :: post) = strtol (string_drop 6 line).
Proof.
  intros Hpre Hline. rewrite scan_status_skip by exact Hpre.
  simpl. now rewrite Hline.
Qed.

(** X13: the scan stops at the first line that starts with ["VmRSS:"]: the
    reading is the conversion of what follows the six characters of that
    line, and no later line, not even a later ["VmRSS:"] line, has any
    influence. *)
Theorem read_rss_kb_first_line `{!Platform} (m : machine)
  (pre post : list string) (line : string) :
  proc_self_status m = Some (pre ++ line :: post) ->
  Forall other_line pre ->
  String.prefix "VmRSS:" line = true ->
  read_rss_kb m = Ok (strtol (string_drop 6 line)) m.
Proof.
  intros Hfile Hpre Hline. unfold read_rss_kb. rewrite Hfile.
  now rewrite scan_first_line.
Qed.

Lemma read_rss_kb_first_line_witness :
  @proc_self_status
     (const_proc ["Name: x"; "VmRSS: 77 kB"; "VmRSS: 5 kB"]%string) machine0
  = Some ["Name: x"; "VmRSS: 77 kB"; "VmRSS: 5 kB"]%string
  /\ Forall other_line ["Name: x"]%string
  /\ String.prefix "VmRSS:" "VmRSS: 77 kB" = true
  /\ @read_rss_kb
       (const_proc ["Name: x"; "VmRSS: 77 kB"; "VmRSS: 5 kB"]%string) machine0
     = Ok (strtol (string_drop 6 "VmRSS: 77 kB")) machine0.
Proof.
  assert (Hpre : Forall other_line ["Name: x"]%string) by (repeat constructor).
  split; [reflexivity|]. split; [exact Hpre|]. split; [reflexivity|].
  exact (@read_rss_kb_first_line
           (const_proc ["Name: x"; "VmRSS: 77 kB"; "VmRSS: 5 kB"]%string)
           machine0 ["Name: x"]%string ["VmRSS: 5 kB"]%string
           "VmRSS: 77 kB"%string eq_refl Hpre eq_refl).
Defined.

Lemma digit_char_facts d :
  0 <= d <= 9 ->
  digit_of (digit_char d) = Some d
  /\ is_space (digit_char d) = false
  /\ Ascii.eqb (digit_char d) "-" = false
  /\ Ascii.eqb (digit_char d) "+" = false.
Proof.
  intros Hd.
  assert (Hcase : d = 0 \/ d = 1 \/ d = 2 \/ d = 3 \/ d = 4 \/ d = 5
                  \/ d = 6 \/ d = 7 \/ d = 8 \/ d = 9) by lia.
  repeat (destruct Hcase as [->|Hcase]; [vm_compute; auto|]).
  subst d. vm_compute. auto.
Qed.

Lemma skip_spaces_blanks ws s :
  Forall (fun c => is_space c = true) ws ->
  skip_spaces (String.append (string_of_list_ascii ws) s) = skip_spaces s.
Proof.
  induction 1 as [|c ws Hc _ IH]; [reflexivity|].
  simpl. now rewrite Hc.
Qed.

Lemma digits_value_digits ds :
  Forall (fun d => 0 <= d <= 9) ds ->
  forall acc rest,
    ends_number rest ->
    digits_value acc (String.append (digits_string ds) rest)
    = fold_left (fun a d => 10 * a + d) ds acc.
Proof.
  induction 1 as [|d ds Hd _ IH]; intros acc rest Hrest.
  - simpl. destruct rest as [|c r]; [reflexivity|].
    simpl in *. now rewrite Hrest.
  - unfold digits_string. simpl.
    destruct (digit_char_facts d Hd) as (-> & _). now apply IH.
Qed.

Lemma prefix_tag x : String.prefix "VmRSS:" (String.append "VmRSS:" x) = true.
Proof.
  change (String.append "VmRSS:" x)
    with (String "V" (String "m" (String "R" (String "S" (String "S"
            (String ":" x)))))).
  simpl. destruct x; reflexivity.
Qed.

Lemma drop_tag x : string_drop 6 (String.append "VmRSS:" x) = x.
Proof. reflexivity. Qed.

Lemma digits_fold_nonneg ds :
  forall acc,
    Forall (fun x => 0 <= x <= 9) ds -> 0 <= acc ->
    0 <= fold_left (fun a x => 10 * a + x) ds acc.
Proof.
  induction ds as [|x ds IH]; intros acc Hds Hacc; [exact Hacc|].
  simpl. inversion Hds; subst. apply IH; [assumption | lia].
Qed.

(** X14: on a status file written the way the kernel writes it, the
    reading is the number printed: for a first ["VmRSS:"] line made of the
    tag, any white space, a non-empty run of decimal digits and anything
    that is not a digit (the [" kB"] unit), the probe returns the value of
    the digits, saturated at [LONG_MAX] and never negative. *)
Theorem read_rss_kb_reads_number `{!Platform} (m : machine)
  (pre post : list string) (ws : list ascii) (d : Z) (ds : list Z)
  (rest : string) :
  proc_self_status m
  = Some (pre ++ String.append "VmRSS:"
                   (String.append (string_of_list_ascii ws)
                      (String.append (digits_string (d :: ds)) rest))
              :: post) ->
  Forall other_line pre ->
  Forall (fun c => is_space c = true) ws ->
  Forall (fun x => 0 <= x <= 9) (d :: ds) ->
  ends_number rest ->
  read_rss_kb m = Ok (Z.min LONG_MAX (digits_number (d :: ds))) m
  /\ 0 <= Z.min LONG_MAX (digits_number (d :: ds)).
Proof.
  intros Hfile Hpre Hws Hds Hrest.
  assert (Hnum : 0 <= digits_number (d :: ds))
    by (apply digits_fold_nonneg; [exact Hds | lia]).
  split; [|unfold LONG_MAX; lia].
  unfold read_rss_kb. rewrite Hfile.
  rewrite scan_first_line; [| exact Hpre | apply prefix_tag].
  f_equal. rewrite drop_tag.
  unfold strtol. rewrite skip_spaces_blanks by exact Hws.
  inversion Hds as [|? ? Hd Hds']; subst.
  destruct (digit_char_facts d Hd) as (Hdig & Hsp & Hminus & Hplus).
  assert (Hskip : skip_spaces (String.append (digits_string (d :: ds)) rest)
                  = String.append (digits_string (d :: ds)) rest).
  { unfold digits_string. simpl. now rewrite Hsp. }
  rewrite Hskip.
  assert (Hsign : split_sign (String.append (digits_string (d :: ds)) rest)
                  = (false, String.append (digits_string (d :: ds)) rest)).
  { unfold digits_string. simpl. now rewrite Hminus, Hplus. }
  rewrite Hsign. cbn [fst snd].
  rewrite (digits_value_digits (d :: ds) Hds 0 rest Hrest).
  fold (digits_number (d :: ds)). unfold LONG_MIN, LONG_MAX. lia.
Qed.

Lemma read_rss_kb_reads_number_witness :
  Forall other_line ["Name: x"]%string
  /\ Forall (fun c => is_space c = true) [" "; " "]%char
  /\ Forall (fun x => 0 <= x <= 9) [1; 2; 3; 4]
  /\ ends_number " kB"
  /\ @read_rss_kb (const_proc ["Name: x"; "VmRSS:  1234 kB"]%string) machine0
     = Ok 1234 machine0.
Proof.
  assert (H1 : Forall other_line ["Name: x"]%string) by (repeat constructor).
  assert (H2 : Forall (fun c => is_space c = true) [" "; " "]%char)
    by (repeat constructor).
  assert (H3 : Forall (fun x => 0 <= x <= 9) [1; 2; 3; 4])
    by (repeat constructor; lia).
  assert (H4 : ends_number " kB") by reflexivity.
  split; [exact H1|]. split; [exact H2|]. split; [exact H3|].
  split; [exact H4|].
  exact (proj1 (@read_rss_kb_reads_number
                  (const_proc ["Name: x"; "VmRSS:  1234 kB"]%string) machine0
                  ["Name: x"]%string [] [" "; " "]%char 1 [2; 3; 4]
                  " kB"%string eq_refl H1 H2 H3 H4)).
Defined.

(** ** The generator is a permutation *)

Lemma unshl_xor_in_u64 k n y : in_u64 y -> in_u64 (unshl_xor k n y).
Proof.
  intros Hy. unfold unshl_xor. induction n as [|n IH]; [exact Hy|].
  simpl. apply lxor_in_u64; [exact Hy | apply wrap64_in_u64].
Qed.

Lemma unshr_xor_in_u64 k n y : 0 <= k -> in_u64 y -> in_u64 (unshr_xor k n y).
Proof.
  intros Hk Hy. unfold unshr_xor. induction n as [|n IH]; [exact Hy|].
  simpl. apply lxor_in_u64; [exact Hy | now apply shiftr_in_u64].
Qed.

(** Each round of the iteration settles [k] more low bits. *)
Lemma unshl_xor_settles k y :
  0 < k ->
  forall (j : nat) (i : Z),
    0 <= i < (Z.of_nat j + 1) * k ->
    Z.testbit (unshl_xor k (S j) y) i = Z.testbit (unshl_xor k j y) i.
Proof.
  intros Hk. unfold unshl_xor.
  set (g := fun x => Z.lxor y (wrap64 (Z.shiftl x k))).
  assert (Hg : forall x i, 0 <= i ->
            Z.testbit (g x) i
            = xorb (Z.testbit y i) ((i <? 64) && Z.testbit x (i - k))).
  { intros x i Hi. unfold g, wrap64.
    now rewrite Z.lxor_spec, Z.testbit_mod_pow2, Z.shiftl_spec by lia. }
  induction j as [|j IH]; intros i Hi.
  - change (Z.testbit (g y) i = Z.testbit y i). rewrite Hg by lia.
    rewrite (Z.testbit_neg_r y (i - k)) by lia.
    now rewrite andb_false_r, xorb_false_r.
  - change (Z.testbit (g (Nat.iter (S j) g y)) i
            = Z.testbit (g (Nat.iter j g y)) i).
    rewrite !Hg by lia.
    destruct (Z.ltb_spec (i - k) 0) as [Hneg|Hpos].
    + now rewrite !(Z.testbit_neg_r _ (i - k)) by lia.
    + now rewrite (IH (i - k)) by lia.
Qed.

Lemma unshr_xor_settles k y :
  0 < k -> in_u64 y ->
  forall (j : nat) (i : Z),
    0 <= i -> 64 - (Z.of_nat j + 1) * k <= i ->
    Z.testbit (unshr_xor k (S j) y) i = Z.testbit (unshr_xor k j y) i.
Proof.
  intros Hk Hy. unfold unshr_xor.
  set (g := fun x => Z.lxor y (Z.shiftr x k)).
  assert (Hg : forall x i, 0 <= i ->
            Z.testbit (g x) i = xorb (Z.testbit y i) (Z.testbit x (i + k))).
  { intros x i Hi. unfold g. now rewrite Z.lxor_spec, Z.shiftr_spec by lia. }
  induction j as [|j IH]; intros i Hi0 Hi.
  - change (Z.testbit (g y) i = Z.testbit y i). rewrite Hg by lia.
    rewrite (in_u64_high_bits y (i + k) Hy) by lia.
    now rewrite xorb_false_r.
  - change (Z.testbit (g (Nat.iter (S j) g y)) i
            = Z.testbit (g (Nat.iter j g y)) i).
    rewrite !Hg by lia. now rewrite (IH (i + k)) by lia.
Qed.

Lemma lxor_cancel_r y w : Z.lxor (Z.lxor y w) w = y.
Proof. now rewrite Z.lxor_assoc, Z.lxor_nilpotent, Z.lxor_0_r. Qed.

Lemma shl_xor_unshl_xor k n y :
  0 < k -> 64 <= (Z.of_nat n + 1) * k -> in_u64 y ->
  shl_xor k (unshl_xor k n y) = y.
Proof.
  intros Hk Hn Hy.
  assert (Hfix : unshl_xor k (S n) y = unshl_xor k n y).
  { apply Z.bits_inj'. intros i Hi.
    destruct (Z.ltb_spec i 64) as [Hlt|Hge].
    - apply unshl_xor_settles; lia.
    - rewrite !in_u64_high_bits;
        [reflexivity | now apply unshl_xor_in_u64 | lia
         | now apply unshl_xor_in_u64 | lia]. }
  unfold shl_xor. rewrite <- Hfix at 1.
  unfold unshl_xor at 1. simpl. apply lxor_cancel_r.
Qed.

Lemma shr_xor_unshr_xor k n y :
  0 < k -> 64 <= (Z.of_nat n + 1) * k -> in_u64 y ->
  shr_xor k (unshr_xor k n y) = y.
Proof.
  intros Hk Hn Hy.
  assert (Hfix : unshr_xor k (S n) y = unshr_xor k n y).
  { apply Z.bits_inj'. intros i Hi. apply unshr_xor_settles; lia || assumption. }
  unfold shr_xor. rewrite <- Hfix at 1.
  unfold unshr_xor at 1. simpl. apply lxor_cancel_r.
Qed.

Lemma xorshift64_unmix_in_u64 y : in_u64 y -> in_u64 (xorshift64_unmix y).
Proof.
  intros Hy. unfold xorshift64_unmix.
  apply unshl_xor_in_u64, unshr_xor_in_u64; [lia|]. now apply unshl_xor_in_u64.
Qed.

Lemma xorshift64_mix_unmix y : in_u64 y -> xorshift64_mix (xorshift64_unmix y) = y.
Proof.
  intros Hy. rewrite xorshift64_mix_steps. unfold xorshift64_unmix.
  rewrite shl_xor_unshl_xor;
    [| lia | simpl; lia
     | apply unshr_xor_in_u64; [lia | now apply unshl_xor_in_u64]].
  rewrite shr_xor_unshr_xor; [| lia | simpl; lia | now apply unshl_xor_in_u64].
  apply shl_xor_unshl_xor; [lia | simpl; lia | exact Hy].
Qed.

(** X15: the generator step is a permutation of the 64-bit values, with
    [xorshift64_unmix] as its inverse: every 64-bit value is the output of
    exactly one 64-bit state, and since [xorshift64] returns its new state,
    the state before a call is recovered from the value the call
    returned. *)
Theorem xorshift64_permutation (m : machine) :
  in_u64 (rng_state m) ->
  (forall y, in_u64 y ->
     in_u64 (xorshift64_unmix y) /\ xorshift64_mix (xorshift64_unmix y) = y)
  /\ (forall x m',
        xorshift64 m = Ok x m' ->
        xorshift64_unmix x = rng_state m
        /\ xorshift64_unmix (rng_state m') = rng_state m).
Proof.
  intros Hs. split.
  - intros y Hy. split;
      [now apply xorshift64_unmix_in_u64 | now apply xorshift64_mix_unmix].
  - intros x m' E. unfold xorshift64 in E. injection E as <- <-.
    cbn [rng_state set_rng].
    assert (Hback : xorshift64_unmix (xorshift64_mix (rng_state m))
                    = rng_state m).
    { apply xorshift64_mix_inj.
      - apply xorshift64_unmix_in_u64. now apply xorshift64_mix_in_u64.
      - exact Hs.
      - apply xorshift64_mix_unmix. now apply xorshift64_mix_in_u64. }
    now split.
Qed.

Lemma xorshift64_permutation_witness :
  in_u64 (rng_state machine0)
  /\ in_u64 2872300871512351504
  /\ xorshift64_mix (xorshift64_unmix 2872300871512351504)
     = 2872300871512351504
  /\ xorshift64 machine0
     = Ok 2872300871512351504 (set_rng 2872300871512351504 machine0)
  /\ xorshift64_unmix 2872300871512351504 = rng_state machine0.
Proof.
  assert (H0 : in_u64 (rng_state machine0)) by apply rng_seed_in_u64.
  assert (H1 : in_u64 2872300871512351504) by (unfold in_u64; lia).
  destruct (xorshift64_permutation machine0 H0) as [Hinv Hback].
  split; [exact H0|]. split; [exact H1|].
  split; [exact (proj2 (Hinv _ H1))|].
  split; [reflexivity|].
  exact (proj1 (Hback 2872300871512351504
                  (set_rng 2872300871512351504 machine0) eq_refl)).
Defined.

(** ** Phase 1: what the pool holds *)

Section ChurnContent.
Context `{!Allocator}.
Variable h0 : gmap addr block.
Variable pk0 : nat.

(** What lines 71-74 change: the drawn slot, and the block it named. *)
Lemma churn_release_effect idx pool m :
  churn_inv h0 pk0 pool m -> 0 <= idx < POOL ->
  exists pool' m',
    churn_release idx pool m = Ok pool' m'
    /\ (forall j, j <> Z.to_nat idx -> pool' !! j = pool !! j)
    /\ (forall a, pool !! Z.to_nat idx <> Some (Addr a) ->
          heap m' !! a = heap m !! a).
Proof.
  intros Hinv Hidx.
  assert (Hlen : (Z.to_nat idx < length pool)%nat)
    by (rewrite (ci_len _ _ _ _ Hinv); lia).
  destruct (lookup_lt_is_Some_2 pool _ Hlen) as [p Hp].
  unfold churn_release.
  rewrite (bind_ok _ _ _ _ _ (pool_get_ok pool idx p m (proj1 Hidx) Hp)).
  destruct p as [|a].
  - exists pool, m. split; [reflexivity|]. split; reflexivity.
  - rewrite (bind_ok _ _ _ _ _ (pool_get_ok pool idx _ m (proj1 Hidx) Hp)).
    destruct (ci_owned _ _ _ _ Hinv _ _ Hp) as [_ [b Hb]].
    rewrite (bind_ok _ _ _ _ _ (free_live a b m Hb)).
    rewrite pool_set_ok by lia.
    eexists _, _. split; [reflexivity|]. split.
    + intros j Hj. now rewrite list_lookup_insert_ne by congruence.
    + intros a' Ha'. cbn [heap set_heap].
      rewrite lookup_delete_ne; [reflexivity|]. intros <-. now apply Ha'.
Qed.

(** What lines 76-79 change: the drawn slot, and one new block, written. *)
Lemma churn_refill_effect i idx pool m :
  churn_inv h0 pk0 pool m -> 0 <= idx < POOL ->
  pool !! Z.to_nat idx = Some NULL ->
  exists pool' m',
    churn_refill i idx pool m = Ok pool' m'
    /\ (forall j, j <> Z.to_nat idx -> pool' !! j = pool !! j)
    /\ (forall a, pool' !! Z.to_nat idx = Some (Addr a) ->
          exists b, heap m' !! a = Some b /\ touched b)
    /\ (forall a, is_Some (heap m !! a) -> heap m' !! a = heap m !! a).
Proof.
  intros Hinv Hidx Hp.
  assert (Hlen : length pool = Z.to_nat POOL) by apply (ci_len _ _ _ _ Hinv).
  unfold churn_refill.
  destruct (rand_range_ok 64 4096 m) as (sz & Hsz & Er); [lia..|].
  rewrite (bind_ok _ _ _ _ _ Er).
  set (m1 := set_rng (xorshift64_mix (rng_state m)) m).
  destruct (malloc_cases sz m1) as [Em|(a & Hfresh & Em)];
    rewrite (bind_ok _ _ _ _ _ Em); clear Em.
  - erewrite bind_ok; [|apply pool_set_ok; lia].
    rewrite list_insert_id by exact Hp.
    rewrite (bind_ok _ _ _ _ _ (pool_get_ok pool idx NULL _ (proj1 Hidx) Hp)).
    eexists _, _. split; [reflexivity|]. split; [reflexivity|].
    split; [|reflexivity].
    intros a Ha. rewrite Hp in Ha. discriminate.
  - erewrite bind_ok; [|apply pool_set_ok; lia].
    set (pool' := <[Z.to_nat idx := Addr a]> pool).
    assert (Hp' : pool' !! Z.to_nat idx = Some (Addr a))
      by (apply list_lookup_insert_eq; lia).
    rewrite (bind_ok _ _ _ _ _ (pool_get_ok pool' idx _ _ (proj1 Hidx) Hp')).
    rewrite (bind_ok _ _ _ _ _ (pool_get_ok pool' idx _ _ (proj1 Hidx) Hp')).
    erewrite bind_ok;
      [| apply memset_raw; [cbn [heap]; apply lookup_insert_eq | lia]].
    eexists _, _. split; [reflexivity|].
    cbn [heap set_heap]. rewrite insert_insert_eq.
    cbn [heap set_rng m1] in Hfresh.
    split; [|split].
    + intros j Hj. unfold pool'. now rewrite list_lookup_insert_ne by congruence.
    + intros a' Ha'. rewrite Hp' in Ha'. injection Ha' as <-.
      eexists. split; [apply lookup_insert_eq|].
      exists sz, (Z.land i 255 mod 256).
      split; [exact Hsz|]. split; [|reflexivity].
      apply Z.mod_pos_bound. lia.
    + intros a' [b Hb]. rewrite lookup_insert_ne; [reflexivity|].
      intros <-. subst m1. cbn [heap set_rng] in Hb. congruence.
Qed.

Lemma churn_body_touched i pool m :
  churn_inv h0 pk0 pool m -> pool_touched pool m ->
  exists pool' m',
    churn_body i pool m = Ok pool' m'
    /\ churn_inv h0 pk0 pool' m' /\ pool_touched pool' m'.
Proof.
  intros Hinv Htouched. unfold churn_body.
  rewrite (bind_ok _ _ _ _ _ (eq_refl : xorshift64 m = Ok _ _)).
  set (x := xorshift64_mix (rng_state m)).
  assert (Hidx : 0 <= x mod POOL < POOL) by (apply Z.mod_pos_bound; reflexivity).
  pose proof (churn_inv_rng h0 pk0 pool m x Hinv) as Hinv0.
  destruct (churn_release_spec h0 pk0 (x mod POOL) pool (set_rng x m) Hinv0 Hidx)
    as (pool1 & m1 & E1 & Hinv1 & Hnull & _).
  destruct (churn_release_effect (x mod POOL) pool (set_rng x m) Hinv0 Hidx)
    as (pool1' & m1' & E1' & Hslots1 & Hheap1).
  rewrite E1 in E1'. injection E1' as <- <-.
  rewrite (bind_ok _ _ _ _ _ E1).
  destruct (churn_refill_spec h0 pk0 i (x mod POOL) pool1 m1 Hinv1 Hidx Hnull)
    as (pool2 & m2 & E2 & Hinv2).
  destruct (churn_refill_effect i (x mod POOL) pool1 m1 Hinv1 Hidx Hnull)
    as (pool2' & m2' & E2' & Hslots2 & Hnew & Hheap2).
  rewrite E2 in E2'. injection E2' as <- <-.
  exists pool2, m2. split; [exact E2|]. split; [exact Hinv2|].
  intros j a Hj. destruct (decide (j = Z.to_nat (x mod POOL))) as [->|Hne].
  - now apply Hnew.
  - rewrite Hslots2, Hslots1 in Hj by exact Hne.
    destruct (Htouched j a Hj) as (b & Hb & Hbt).
    exists b. split; [|exact Hbt].
    assert (Hb1 : heap m1 !! a = Some b).
    { rewrite Hheap1; [exact Hb|]. intros Hidx'.
      apply Hne. eapply (ci_distinct _ _ _ _ Hinv); eassumption. }
    rewrite Hheap2; [exact Hb1 | eauto].
Qed.

Lemma churn_iterations_touched k :
  forall i pool m,
    churn_inv h0 pk0 pool m -> pool_touched pool m ->
    exists pool' m',
      iterate k i 1 churn_body pool m = Ok pool' m'
      /\ churn_inv h0 pk0 pool' m' /\ pool_touched pool' m'.
Proof.
  induction k as [|k IH]; intros i pool m Hinv Ht.
  - exists pool, m. now split.
  - simpl. destruct (churn_body_touched i pool m Hinv Ht)
      as (pool1 & m1 & E1 & Hinv1 & Ht1).
    rewrite (bind_ok _ _ _ _ _ E1). now apply IH.
Qed.

End ChurnContent.

(** X16: every buffer the churn phase holds has been written through: after
    any number of iterations, each occupied slot of the pool names a live
    block of 64 to 4095 bytes whose every byte holds one same value below
    256 (the low byte of the iteration that allocated it); a buffer is never
    left as [malloc] returned it. *)
Theorem churn_buffers_touched `{!Allocator} (k : nat) (m : machine) :
  exists pool mk,
    iterate k 0 1 churn_body (replicate 2048 NULL) m = Ok pool mk
    /\ forall i a,
         pool !! i = Some (Addr a) ->
         exists b c,
           heap mk !! a = Some b
           /\ 64 <= block_size b < 4096
           /\ 0 <= c < 256
           /\ b = Bytes (replicate (Z.to_nat (block_size b)) (Some c)).
Proof.
  destruct (churn_iterations_touched (heap m) (peak m) k 0
              (replicate (Z.to_nat POOL) NULL) m) as (pool & mk & E & _ & Ht).
  { now apply churn_inv_init. }
  { intros i a Hi. apply lookup_replicate in Hi as [? _]. discriminate. }
  exists pool, mk. split; [exact E|].
  intros i a Hi. destruct (Ht i a Hi) as (b & Hb & sz & c & Hsz & Hc & ->).
  exists (Bytes (replicate (Z.to_nat sz) (Some c))), c.
  split; [exact Hb|]. cbn [block_size].
  rewrite length_replicate, Z2Nat.id by lia.
  split; [exact Hsz|]. split; [exact Hc | reflexivity].
Qed.

(** ** The only way a run can fail *)

(** X17: whatever the allocator does (any pattern of refusals, any reuse
    of freed addresses) and whatever the platform reports, a run of [main]
    either returns status 0 with its report, the heap restored, or stops on
    the store through a null handle list; it performs no invalid or double
    [free], no access outside a block or to a freed block, no read of an
    indeterminate handle and no division by zero. *)
Theorem main_only_fault `{!Allocator} `{!Platform} (argv : list string)
  (m : machine) :
  (exists rep m', main argv m = Ok (0, rep) m' /\ heap m' = heap m)
  \/ main argv m = Crash NullDeref.
Proof.
  unfold main.
  set (rounds := main_rounds argv). set (accum_count := main_accum_count rounds).
  pose proof (main_rounds_range argv) as Hr. fold rounds in Hr.
  pose proof (main_accum_count_range rounds Hr) as Hc. fold accum_count in Hc.
  destruct (read_rss_kb_ok m) as [v0 E0]. rewrite (bind_ok _ _ _ _ _ E0).
  destruct (phase_churn_spec rounds m) as (m1 & E1 & Hh1 & _).
  rewrite (bind_ok _ _ _ _ _ E1).
  destruct (read_rss_kb_ok m1) as [v1 E1']. rewrite (bind_ok _ _ _ _ _ E1').
  destruct (pick (mallocs m1) (heap m1)
              (wrap64 (PTR_SIZE * wrap64 accum_count))) as [t|] eqn:Ht.
  - left.
    destruct (phase_accumulate_spec accum_count m1 t ltac:(lia) Ht)
      as (ps0 & m2 & E2 & [Htab Hlen Hinit _ _]).
    rewrite (bind_ok _ _ _ _ _ E2). cbn [fst snd].
    destruct (read_rss_kb_ok m2) as [v2 E2']. rewrite (bind_ok _ _ _ _ _ E2').
    destruct (phase_fragment_spec (heap m1) t (Z.to_nat accum_count) ps0 m2
                Htab Hlen) as (ps1 & m3' & ps' & m3 & _ & _ & E3 & Halloc & Hinit').
    { intros j Hj. now apply Hinit. }
    rewrite Z2Nat.id in E3 by lia. rewrite (bind_ok _ _ _ _ _ E3).
    destruct (read_rss_kb_ok m3) as [v3 E3']. rewrite (bind_ok _ _ _ _ _ E3').
    destruct Halloc as [Htab' Hlen' _ _ _ _].
    destruct (main_cleanup_spec (heap m1) t ps' m3 Htab')
      as (m4 & m5 & E4 & E5 & Hh5 & _).
    { intros j Hj. apply Hinit'. now rewrite <- Hlen'. }
    rewrite Hlen', Z2Nat.id in E4 by lia.
    rewrite (bind_ok _ _ _ _ _ E4), (bind_ok _ _ _ _ _ E5).
    destruct (read_rss_kb_ok m5) as [v4 E5']. rewrite (bind_ok _ _ _ _ _ E5').
    eexists _, m5. split; [reflexivity | congruence].
  - right. unfold bind at 1.
    rewrite accumulate_list_refused; [reflexivity | lia | exact Ht].
Qed.

Lemma churn_buffers_touched_witness :
  exists pool mk b c,
    iterate 1 0 1 (@churn_body generous) (replicate 2048 NULL) machine0
      = Ok pool mk
    /\ pool !! Z.to_nat (xorshift64_mix rng_seed mod POOL) = Some (Addr 1%positive)
    /\ heap mk !! 1%positive = Some b
    /\ 64 <= block_size b < 4096
    /\ 0 <= c < 256
    /\ b = Bytes (replicate (Z.to_nat (block_size b)) (Some c)).
Proof.
  destruct (@churn_buffers_touched generous 1 machine0) as (pool & mk & E & H).
  assert (Hslot :
            match iterate 1 0 1 (@churn_body generous) (replicate 2048 NULL)
                    machine0 with
            | Ok p _ => p !! Z.to_nat (xorshift64_mix rng_seed mod POOL)
            | Crash _ => None
            end = Some (Addr 1%positive)) by (vm_compute; reflexivity).
  rewrite E in Hslot.
  destruct (H _ _ Hslot) as (b & c & Hb & Hsz & Hc & Hfill).
  exists pool, mk, b, c. split; [exact E|]. split; [exact Hslot|].
  split; [exact Hb|]. split; [exact Hsz|]. split; [exact Hc | exact Hfill].
Defined.
